(** * git-spotlight: blame parsing, blame cache, heatmap and navigation

    A shallow embedding of the TypeScript sources
      - [src/blame/blameParser.ts]  (module [BlameParser])
      - [src/blame/blameCache.ts]   (module [BlameCache])
      - [src/highlight/heatmap.ts]  (module [Heatmap])
      - [src/highlight/decorator.ts] (module [Decorator])
      - [src/utils/colorGenerator.ts] (module [ColorGenerator])
      - [src/utils/timeParser.ts]   (module [TimeParser])
    together with the properties of the specification that concern them.

    Conventions.
      - A JavaScript string is a [string]: its code units are the
        characters, restricted to one byte each.
      - An integer valued JavaScript [number] is a [Z], computed exactly
        (no rounding, no overflow to Infinity).  Where the source can
        produce NaN, the number is an [option]: [None] is NaN.
      - A ratio is a [Q], computed exactly.
      - A JavaScript [Map] is an association list in insertion order
        (module [JsMap]); [forEach] walks it front to back.
      - [Date.now()] is an explicit argument of the operation that
        reads the clock. *)

From Stdlib Require Import ZArith QArith Qround Qabs List String Ascii Bool Lia.
From Stdlib Require Import Sorting.Sorted Sorting.Permutation.
From Stdlib Require Import Lqa DecimalString.
Import ListNotations.

Open Scope Z_scope.

(* ================================================================= *)
(** * JavaScript strings *)

Module JsString.

Definition code (c : ascii) : Z := Z.of_nat (nat_of_ascii c).

(** WhiteSpace and LineTerminator code units below 256: TAB, LF, VT, FF,
    CR, SP and NBSP.  It is the class of [\s] and of [trim]. *)
Definition isWhiteSpace (c : ascii) : bool :=
  ((9 <=? code c) && (code c <=? 13)) || (code c =? 32) || (code c =? 160).

(** [\d] *)
Definition isDigit (c : ascii) : bool :=
  (48 <=? code c) && (code c <=? 57).

(** [[0-9a-f]] *)
Definition isLowerHex (c : ascii) : bool :=
  isDigit c || ((97 <=? code c) && (code c <=? 102)).

Definition isEmpty (s : string) : bool :=
  match s with
  | EmptyString => true
  | String _ _ => false
  end.

Fixpoint trimStart (s : string) : string :=
  match s with
  | EmptyString => EmptyString
  | String c s' => if isWhiteSpace c then trimStart s' else s
  end.

Fixpoint trimEnd (s : string) : string :=
  match s with
  | EmptyString => EmptyString
  | String c s' =>
      match trimEnd s' with
      | EmptyString => if isWhiteSpace c then EmptyString else String c EmptyString
      | t => String c t
      end
  end.

(** [s.trim()] *)
Definition trim (s : string) : string := trimEnd (trimStart s).

(** [s.startsWith(p)] *)
Fixpoint startsWith (s p : string) : bool :=
  match p with
  | EmptyString => true
  | String a p' =>
      match s with
      | EmptyString => false
      | String b s' => Ascii.eqb a b && startsWith s' p'
      end
  end.

(** [s.includes(sub)] *)
Fixpoint includes (s sub : string) : bool :=
  startsWith s sub ||
  match s with
  | EmptyString => false
  | String _ s' => includes s' sub
  end.

(** [s.substring(n)] *)
Fixpoint substring (n : nat) (s : string) : string :=
  match n with
  | O => s
  | S n' =>
      match s with
      | EmptyString => EmptyString
      | String _ s' => substring n' s'
      end
  end.

(** Lower case of one code unit: A-Z, and the upper case letters of the
    Latin-1 block (0xC0-0xDE without the multiplication sign 0xD7). *)
Definition lowerChar (c : ascii) : ascii :=
  let n := code c in
  if ((65 <=? n) && (n <=? 90)) ||
     ((192 <=? n) && (n <=? 222) && negb (n =? 215))
  then ascii_of_nat (nat_of_ascii c + 32)
  else c.

(** [s.toLowerCase()] *)
Fixpoint toLowerCase (s : string) : string :=
  match s with
  | EmptyString => EmptyString
  | String c s' => String (lowerChar c) (toLowerCase s')
  end.

Definition LF : ascii := "010"%char.
Definition TAB : string := String "009"%char EmptyString.

(** [s.split('\n')]: always at least one piece. *)
Fixpoint split (s : string) : list string :=
  match s with
  | EmptyString => [EmptyString]
  | String c s' =>
      if Ascii.eqb c LF then EmptyString :: split s'
      else match split s' with
           | piece :: pieces => String c piece :: pieces
           | [] => [String c EmptyString]
           end
  end.

Definition digitValue (c : ascii) : Z := code c - 48.

(** Value of the longest prefix of decimal digits, left to right. *)
Fixpoint readDigits (s : string) (acc : Z) : Z :=
  match s with
  | EmptyString => acc
  | String c s' => if isDigit c then readDigits s' (10 * acc + digitValue c) else acc
  end.

(** [parseInt(s, 10)]: leading white space is skipped, one sign is
    accepted, then the longest run of digits is read; NaN ([None]) when
    there is no digit. *)
Definition parseInt (s : string) : option Z :=
  let t := trimStart s in
  let '(negative, u) :=
    match t with
    | String "-"%char u => (true, u)
    | String "+"%char u => (false, u)
    | _ => (false, t)
    end in
  match u with
  | EmptyString => None
  | String c _ =>
      if isDigit c
      then Some (if negative then - readDigits u 0 else readDigits u 0)
      else None
  end.

(** Strict equality [===] of two strings. *)
Definition strictEq (a b : string) : bool := String.eqb a b.

End JsString.

(* ================================================================= *)
(** * JavaScript arrays: the stable [sort] *)

Module JsArray.

Section Sort.
Context {A : Type} (compareFn : A -> A -> Z).

(** [x] is put before the first element it does not follow. *)
Fixpoint insert (x : A) (l : list A) : list A :=
  match l with
  | [] => [x]
  | y :: ys => if compareFn x y <=? 0 then x :: l else y :: insert x ys
  end.

(** [l.sort(compareFn)], stable. *)
Fixpoint sort (l : list A) : list A :=
  match l with
  | [] => []
  | x :: xs => insert x (sort xs)
  end.

End Sort.

(** [l.sort((a, b) => a - b)] *)
Definition sortAscending (l : list Z) : list Z := sort (fun a b => a - b) l.

(** [l.find(p)] *)
Definition find {A : Type} (p : A -> bool) (l : list A) : option A := List.find p l.

(** [l[l.length - 1]] *)
Definition lastElement {A : Type} (l : list A) : option A := List.last (List.map Some l) None.

(** [[...new Set(l)]]: first occurrences, in order. *)
Fixpoint dedupe (l : list Z) : list Z :=
  match l with
  | [] => []
  | x :: xs => x :: List.filter (fun y => negb (y =? x)) (dedupe xs)
  end.

End JsArray.

(* ================================================================= *)
(** * JavaScript [Map]: insertion ordered, keys compared by SameValueZero *)

Class SameValueZero (K : Type) := {
  sameKey : K -> K -> bool;
  sameKey_eq : forall a b : K, sameKey a b = true <-> a = b
}.

#[export] Instance string_SameValueZero : SameValueZero string :=
  {| sameKey := String.eqb; sameKey_eq := String.eqb_eq |}.

#[export] Instance Z_SameValueZero : SameValueZero Z :=
  {| sameKey := Z.eqb; sameKey_eq := Z.eqb_eq |}.

(** Number keys with NaN: SameValueZero makes NaN equal to itself. *)
Definition sameNumber (a b : option Z) : bool :=
  match a, b with
  | Some x, Some y => x =? y
  | None, None => true
  | _, _ => false
  end.

#[export] Instance number_SameValueZero : SameValueZero (option Z).
Proof.
  refine {| sameKey := sameNumber |}.
  intros [x|] [y|]; simpl; split; intro E;
    try discriminate; try reflexivity.
  - apply Z.eqb_eq in E. now subst.
  - injection E as ->. apply Z.eqb_refl.
Defined.

Module JsMap.

Section Ops.
Context {K V : Type} `{SameValueZero K}.

Definition t : Type := list (K * V).

Definition empty : t := [].

(** [m.get(k)] *)
Fixpoint get (k : K) (m : t) : option V :=
  match m with
  | [] => None
  | (k', v) :: rest => if sameKey k' k then Some v else get k rest
  end.

(** [m.has(k)] *)
Definition has (k : K) (m : t) : bool :=
  match get k m with
  | Some _ => true
  | None => false
  end.

(** [m.set(k, v)]: an existing key keeps its place, a new one goes last. *)
Fixpoint set (k : K) (v : V) (m : t) : t :=
  match m with
  | [] => [(k, v)]
  | (k', v') :: rest =>
      if sameKey k' k then (k', v) :: rest else (k', v') :: set k v rest
  end.

(** [m.delete(k)] *)
Fixpoint delete (k : K) (m : t) : t :=
  match m with
  | [] => []
  | (k', v') :: rest =>
      if sameKey k' k then rest else (k', v') :: delete k rest
  end.

(** [m.size] *)
Definition size (m : t) : Z := Z.of_nat (List.length m).

Definition keys (m : t) : list K := List.map fst m.

Definition values (m : t) : list V := List.map snd m.

(** [m.forEach((v, k) => ...)] with the callback's effect on the
    enclosing variables threaded as a state. *)
Definition forEach {S : Type} (callback : S -> V -> K -> S) (m : t) (init : S) : S :=
  List.fold_left (fun st kv => callback st (snd kv) (fst kv)) m init.

End Ops.

Arguments t : clear implicits.

End JsMap.

(* ================================================================= *)
(** * JavaScript [Set]: its elements in insertion order *)

Module JsSet.

Section Ops.
Context {K : Type} `{SameValueZero K}.

Definition t : Type := list K.

Definition empty : t := [].

(** [s.has(x)] *)
Definition has (x : K) (s : t) : bool := List.existsb (sameKey x) s.

(** [s.add(x)] *)
Definition add (x : K) (s : t) : t := if has x s then s else s ++ [x].

(** [new Set(l)] *)
Definition fromArray (l : list K) : t := List.fold_left (fun s x => add x s) l empty.

End Ops.

Arguments t : clear implicits.

End JsSet.

(* ================================================================= *)
(** * src/blame/blameParser.ts *)

Module BlameParser.

Import JsString.

(** A JavaScript number that is an integer or NaN ([None]). *)
Definition number : Type := option Z.

Record BlameLineInfo : Type := {
  lineNumber : Z;
  commitSha : string;
  author : string;
  authorMail : string;
  authorTime : number;
  authorTz : string;
  summary : string;
  isUncommitted : bool;
  filename : string
}.

Record BlameParseResult : Type := {
  success : bool;
  lines : JsMap.t Z BlameLineInfo;
  error : option string;
  lineCount : Z
}.

Definition UNCOMMITTED_SHA_PREFIX : string :=
  "0000000000000000000000000000000000000000"%string.

(** Assignments to one field of the record under construction. *)
Definition setAuthor (v : string) (b : BlameLineInfo) : BlameLineInfo :=
  {| lineNumber := lineNumber b; commitSha := commitSha b; author := v;
     authorMail := authorMail b; authorTime := authorTime b;
     authorTz := authorTz b; summary := summary b;
     isUncommitted := isUncommitted b; filename := filename b |}.

Definition setAuthorMail (v : string) (b : BlameLineInfo) : BlameLineInfo :=
  {| lineNumber := lineNumber b; commitSha := commitSha b; author := author b;
     authorMail := v; authorTime := authorTime b;
     authorTz := authorTz b; summary := summary b;
     isUncommitted := isUncommitted b; filename := filename b |}.

Definition setAuthorTime (v : number) (b : BlameLineInfo) : BlameLineInfo :=
  {| lineNumber := lineNumber b; commitSha := commitSha b; author := author b;
     authorMail := authorMail b; authorTime := v;
     authorTz := authorTz b; summary := summary b;
     isUncommitted := isUncommitted b; filename := filename b |}.

Definition setAuthorTz (v : string) (b : BlameLineInfo) : BlameLineInfo :=
  {| lineNumber := lineNumber b; commitSha := commitSha b; author := author b;
     authorMail := authorMail b; authorTime := authorTime b;
     authorTz := v; summary := summary b;
     isUncommitted := isUncommitted b; filename := filename b |}.

Definition setSummary (v : string) (b : BlameLineInfo) : BlameLineInfo :=
  {| lineNumber := lineNumber b; commitSha := commitSha b; author := author b;
     authorMail := authorMail b; authorTime := authorTime b;
     authorTz := authorTz b; summary := v;
     isUncommitted := isUncommitted b; filename := filename b |}.

Definition setIsUncommitted (v : bool) (b : BlameLineInfo) : BlameLineInfo :=
  {| lineNumber := lineNumber b; commitSha := commitSha b; author := author b;
     authorMail := authorMail b; authorTime := authorTime b;
     authorTz := authorTz b; summary := summary b;
     isUncommitted := v; filename := filename b |}.

Definition setFilename (v : string) (b : BlameLineInfo) : BlameLineInfo :=
  {| lineNumber := lineNumber b; commitSha := commitSha b; author := author b;
     authorMail := authorMail b; authorTime := authorTime b;
     authorTz := authorTz b; summary := summary b;
     isUncommitted := isUncommitted b; filename := v |}.

(** ** The header pattern
    [/^([0-9a-f]{40})\s+(\d+)\s+(\d+)(?:\s+(\d+))?$/].
    The classes of adjacent pieces are disjoint, so the greedy reading
    below is the only way the pattern can match. *)

(** [[0-9a-f]{n}]: the group and the rest. *)
Fixpoint hexGroup (n : nat) (s : string) : option (string * string) :=
  match n with
  | O => Some (EmptyString, s)
  | S n' =>
      match s with
      | EmptyString => None
      | String c s' =>
          if isLowerHex c
          then match hexGroup n' s' with
               | Some (g, rest) => Some (String c g, rest)
               | None => None
               end
          else None
      end
  end.

(** [\s+]: the rest. *)
Definition spaces (s : string) : option string :=
  match s with
  | EmptyString => None
  | String c s' => if isWhiteSpace c then Some (trimStart s') else None
  end.

Fixpoint digitRun (s : string) : string * string :=
  match s with
  | EmptyString => (EmptyString, EmptyString)
  | String c s' =>
      if isDigit c
      then let '(g, rest) := digitRun s' in (String c g, rest)
      else (EmptyString, s)
  end.

(** [(\d+)]: the group and the rest. *)
Definition digits (s : string) : option (string * string) :=
  match digitRun s with
  | (EmptyString, _) => None
  | (g, rest) => Some (g, rest)
  end.

(** The groups 1 to 4 of a match. *)
Record HeaderMatch : Type := {
  group1 : string;
  group2 : string;
  group3 : string;
  group4 : option string
}.

Definition matchHeader (line : string) : option HeaderMatch :=
  match hexGroup 40 line with
  | None => None
  | Some (sha, r1) =>
  match spaces r1 with
  | None => None
  | Some r2 =>
  match digits r2 with
  | None => None
  | Some (orig, r3) =>
  match spaces r3 with
  | None => None
  | Some r4 =>
  match digits r4 with
  | None => None
  | Some (final, r5) =>
      match r5 with
      | EmptyString =>
          Some {| group1 := sha; group2 := orig; group3 := final; group4 := None |}
      | _ =>
          match spaces r5 with
          | None => None
          | Some r6 =>
              match digits r6 with
              | Some (count, EmptyString) =>
                  Some {| group1 := sha; group2 := orig; group3 := final;
                          group4 := Some count |}
              | _ => None
              end
          end
      end
  end end end end end.

(** [parseInt(headerMatch[3], 10)]: the group is a non-empty run of
    digits, on which [parseInt] is the decimal value (lemma
    [parseInt_digits] below). *)
Definition finalLineOf (h : HeaderMatch) : Z := readDigits (group3 h) 0.

(** The record a header line starts (source lines 120-130). *)
Definition newBlameInfo (h : HeaderMatch) : BlameLineInfo :=
  {| lineNumber := finalLineOf h;
     commitSha := group1 h;
     author := EmptyString;
     authorMail := EmptyString;
     authorTime := Some 0;
     authorTz := EmptyString;
     summary := EmptyString;
     isUncommitted := strictEq (group1 h) UNCOMMITTED_SHA_PREFIX;
     filename := EmptyString |}.

(** One metadata line (source lines 144-156). *)
Definition parseMetaLine (metaLine : string) (b : BlameLineInfo) : BlameLineInfo :=
  if startsWith metaLine "author " then setAuthor (substring 7 metaLine) b
  else if startsWith metaLine "author-mail " then setAuthorMail (substring 12 metaLine) b
  else if startsWith metaLine "author-time " then setAuthorTime (parseInt (substring 12 metaLine)) b
  else if startsWith metaLine "author-tz " then setAuthorTz (substring 10 metaLine) b
  else if startsWith metaLine "summary " then setSummary (substring 8 metaLine) b
  else if startsWith metaLine "filename " then setFilename (substring 9 metaLine) b
  else b.

(** The "Not Committed Yet" check (source lines 163-166). *)
Definition markUncommitted (b : BlameLineInfo) : BlameLineInfo :=
  if strictEq (author b) "Not Committed Yet" ||
     includes (toLowerCase (author b)) "not committed"
  then setIsUncommitted true b
  else b.

(** End of a block: the check above, then [lines.set] (source lines
    162-168). *)
Definition storeBlock (b : BlameLineInfo) (lines : JsMap.t Z BlameLineInfo)
  : JsMap.t Z BlameLineInfo :=
  let b' := markUncommitted b in
  JsMap.set (lineNumber b') b' lines.

(** The two nested [while] loops over [rawLines], sharing the index [i]:
    [scanBlocks] is the outer loop at [rawLines[i..]], [scanMetadata]
    the inner one, which on its [break] (or at the end of the input)
    stores the block and falls back into the outer loop. *)
Fixpoint scanBlocks (rawLines : list string) (lines : JsMap.t Z BlameLineInfo)
  {struct rawLines} : JsMap.t Z BlameLineInfo :=
  match rawLines with
  | [] => lines
  | line :: rest =>
      if isEmpty (trim line) then scanBlocks rest lines
      else
        match matchHeader line with
        | None =>
            if startsWith line TAB then scanBlocks rest lines
            else scanBlocks rest lines
        | Some headerMatch => scanMetadata rest (newBlameInfo headerMatch) lines
        end
  end
with scanMetadata (rawLines : list string) (blameInfo : BlameLineInfo)
  (lines : JsMap.t Z BlameLineInfo) {struct rawLines} : JsMap.t Z BlameLineInfo :=
  match rawLines with
  | [] => storeBlock blameInfo lines
  | metaLine :: rest =>
      if startsWith metaLine TAB
      then scanBlocks rest (storeBlock blameInfo lines)
      else scanMetadata rest (parseMetaLine metaLine blameInfo) lines
  end.

(** The body of the [try]: [inr] is normal completion with the map,
    [inl] a thrown error with its message.  No operation of the body
    throws on a string. *)
Definition tryScan (blameOutput : string) : string + JsMap.t Z BlameLineInfo :=
  inr (scanBlocks (split blameOutput) JsMap.empty).

(** The [catch] branch. *)
Definition parseFailure (message : string) : BlameParseResult :=
  {| success := false;
     lines := JsMap.empty;
     error := Some ("Failed to parse blame output: " ++ message)%string;
     lineCount := 0 |}.

Definition parseBlameOutput (blameOutput : string) : BlameParseResult :=
  if isEmpty blameOutput || isEmpty (trim blameOutput)
  then {| success := true; lines := JsMap.empty; error := None; lineCount := 0 |}
  else
    match tryScan blameOutput with
    | inr lines =>
        {| success := true; lines := lines; error := None;
           lineCount := JsMap.size lines |}
    | inl message => parseFailure message
    end.

(** [Infinity] is larger than every number; NaN compares false. *)
Definition geRatio (t : number) (q : Q) : bool :=
  match t with
  | Some z => Qle_bool q (inject_Z z)
  | None => false
  end.

Definition filterLinesByTime (blameResult : BlameParseResult) (cutoffTimestamp : Z)
  : list Z :=
  let cutoffSeconds : Q := (inject_Z cutoffTimestamp / 1000)%Q in
  let recentLines :=
    JsMap.forEach
      (fun recentLines info lineNumber =>
         if negb (isUncommitted info) && geRatio (authorTime info) cutoffSeconds
         then recentLines ++ [lineNumber]
         else recentLines)
      (lines blameResult) [] in
  JsArray.sortAscending recentLines.

Definition getUncommittedLines (blameResult : BlameParseResult) : list Z :=
  let uncommittedLines :=
    JsMap.forEach
      (fun uncommittedLines info lineNumber =>
         if isUncommitted info
         then uncommittedLines ++ [lineNumber]
         else uncommittedLines)
      (lines blameResult) [] in
  JsArray.sortAscending uncommittedLines.

Definition getBlameForLine (blameResult : BlameParseResult) (lineNumber : Z)
  : option BlameLineInfo :=
  JsMap.get lineNumber (lines blameResult).

End BlameParser.

(* ================================================================= *)
(** * src/blame/blameCache.ts *)

Module BlameCache.

Import JsString.
Import BlameParser.

Record BlameCacheEntry : Type := {
  blameResult : BlameParseResult;
  headCommit : string;
  cachedAt : Z;
  filePath : string
}.

(** The fields of the class. *)
Record BlameCache : Type := {
  cache : JsMap.t string BlameCacheEntry;
  hits : Z;
  misses : Z;
  maxEntries : Z
}.

Record CacheStats : Type := {
  entryCount : Z;
  statHits : Z;
  statMisses : Z;
  hitRate : Q
}.

Definition DEFAULT_MAX_ENTRIES : Z := 50.

(** [new BlameCache(maxEntries)] *)
Definition create (maxEntries : Z) : BlameCache :=
  {| cache := JsMap.empty; hits := 0; misses := 0; maxEntries := maxEntries |}.

Definition withCache (m : JsMap.t string BlameCacheEntry) (c : BlameCache) : BlameCache :=
  {| cache := m; hits := hits c; misses := misses c; maxEntries := maxEntries c |}.

(** [s.replace(/\\/g, '/')] *)
Fixpoint normalizeSeparators (s : string) : string :=
  match s with
  | EmptyString => EmptyString
  | String c s' =>
      String (if Ascii.eqb c "\"%char then "/"%char else c) (normalizeSeparators s')
  end.

Definition getCacheKey (filePath : string) : string :=
  toLowerCase (normalizeSeparators filePath).

(** [get]: the answer and the cache afterwards (only counters change). *)
Definition get (filePath currentHeadCommit : string) (c : BlameCache)
  : option BlameParseResult * BlameCache :=
  let key := getCacheKey filePath in
  match JsMap.get key (cache c) with
  | None =>
      (None, {| cache := cache c; hits := hits c; misses := misses c + 1;
                maxEntries := maxEntries c |})
  | Some entry =>
      if negb (strictEq (headCommit entry) currentHeadCommit)
      then (None, {| cache := cache c; hits := hits c; misses := misses c + 1;
                     maxEntries := maxEntries c |})
      else (Some (blameResult entry),
            {| cache := cache c; hits := hits c + 1; misses := misses c;
               maxEntries := maxEntries c |})
  end.

(** The scan of [evictOldest]: [oldestKey] ([None] is undefined) and
    [oldestTime] ([None] is Infinity) after the [forEach]. *)
Definition oldestEntry (m : JsMap.t string BlameCacheEntry)
  : option string * option Z :=
  JsMap.forEach
    (fun (st : option string * option Z) entry key =>
       let '(oldestKey, oldestTime) := st in
       let older :=
         match oldestTime with
         | None => true
         | Some t => cachedAt entry <? t
         end in
       if older then (Some key, Some (cachedAt entry)) else st)
    m (None, None).

(** Truthiness of [oldestKey]: undefined and the empty string are falsy. *)
Definition truthy (k : option string) : bool :=
  match k with
  | None => false
  | Some s => negb (isEmpty s)
  end.

Definition evictOldest (c : BlameCache) : BlameCache :=
  let oldestKey := fst (oldestEntry (cache c)) in
  if truthy oldestKey
  then match oldestKey with
       | Some k => withCache (JsMap.delete k (cache c)) c
       | None => c
       end
  else c.

(** [set], with the value [now] that [Date.now()] returns. *)
Definition set (filePath headCommit : string) (blameResult : BlameParseResult)
  (now : Z) (c : BlameCache) : BlameCache :=
  let key := getCacheKey filePath in
  let c1 :=
    if (maxEntries c <=? JsMap.size (cache c)) && negb (JsMap.has key (cache c))
    then evictOldest c
    else c in
  withCache
    (JsMap.set key
       {| blameResult := blameResult; headCommit := headCommit;
          cachedAt := now; filePath := filePath |}
       (cache c1))
    c1.

Definition has (filePath currentHeadCommit : string) (c : BlameCache) : bool :=
  let key := getCacheKey filePath in
  match JsMap.get key (cache c) with
  | None => false
  | Some entry => strictEq (headCommit entry) currentHeadCommit
  end.

(** [delete]: whether an entry was removed, and the cache afterwards. *)
Definition delete (filePath : string) (c : BlameCache) : bool * BlameCache :=
  let key := getCacheKey filePath in
  (JsMap.has key (cache c), withCache (JsMap.delete key (cache c)) c).

Definition clear (c : BlameCache) : BlameCache :=
  {| cache := JsMap.empty; hits := 0; misses := 0; maxEntries := maxEntries c |}.

Definition invalidateForHeadChange (newHeadCommit : string) (c : BlameCache)
  : BlameCache :=
  let keysToDelete :=
    JsMap.forEach
      (fun keysToDelete entry key =>
         if negb (strictEq (headCommit entry) newHeadCommit)
         then keysToDelete ++ [key]
         else keysToDelete)
      (cache c) [] in
  withCache
    (List.fold_left (fun m key => JsMap.delete key m) keysToDelete (cache c))
    c.

Definition getStats (c : BlameCache) : CacheStats :=
  let total := hits c + misses c in
  {| entryCount := JsMap.size (cache c);
     statHits := hits c;
     statMisses := misses c;
     hitRate := if 0 <? total
                then (inject_Z (hits c) / inject_Z total * 100)%Q
                else 0%Q |}.

Definition size (c : BlameCache) : Z := JsMap.size (cache c).

(** ** Sequences of calls on one cache *)

Inductive Operation : Type :=
| OpGet (filePath currentHeadCommit : string)
| OpSet (filePath headCommit : string) (blameResult : BlameParseResult) (now : Z)
| OpDelete (filePath : string)
| OpInvalidateForHeadChange (newHeadCommit : string)
| OpClear.

Definition step (c : BlameCache) (op : Operation) : BlameCache :=
  match op with
  | OpGet f h => snd (get f h c)
  | OpSet f h r now => set f h r now c
  | OpDelete f => snd (delete f c)
  | OpInvalidateForHeadChange h => invalidateForHeadChange h c
  | OpClear => clear c
  end.

Definition run (ops : list Operation) (c : BlameCache) : BlameCache :=
  List.fold_left step ops c.

(** The path an operation names, if any. *)
Definition pathOf (op : Operation) : option string :=
  match op with
  | OpGet f _ | OpSet f _ _ _ | OpDelete f => Some f
  | OpInvalidateForHeadChange _ | OpClear => None
  end.

End BlameCache.

(* ================================================================= *)
(** * src/highlight/heatmap.ts *)

Module Heatmap.

Import BlameParser.

Record HeatmapConfig : Type := {
  coldHue : Q;
  hotHue : Q;
  saturation : Q;
  lightness : Q;
  opacity : Q
}.

Definition DEFAULT_HEATMAP_CONFIG : HeatmapConfig :=
  {| coldHue := 240; hotHue := 160; saturation := 55; lightness := 45;
     opacity := 30 # 100 |}.

(** The text [rgba(r, g, b, a)], as its four numbers. *)
Record Rgba : Type := {
  red : Z;
  green : Z;
  blue : Z;
  alpha : Q
}.

(** A ratio or NaN ([None]). *)
Definition ratio : Type := option Q.

Record HeatmapLineData : Type := {
  lineNumber : Z;
  color : Rgba;
  ageRatio : ratio;
  timestamp : number
}.

Record ColorGroup : Type := {
  groupColor : Rgba;
  groupLines : list Z
}.

(** [Math.round] *)
Definition mathRound (x : Q) : Z := Qfloor (x + (1 # 2)).

(** [Math.floor] *)
Definition mathFloor (x : Q) : Z := Qfloor x.

(** [Math.trunc], used by the remainder below. *)
Definition mathTrunc (x : Q) : Z :=
  if Qle_bool 0 x then Qfloor x else Qceiling x.

(** [x % y] on numbers: the sign follows [x]. *)
Definition remainder (x y : Q) : Q := (x - y * inject_Z (mathTrunc (x / y)))%Q.

Definition Qltb (x y : Q) : bool := negb (Qle_bool y x).

Definition inSector (lo hi h : Q) : bool := Qle_bool lo h && Qltb h hi.

(** [hslToRgba]; with a NaN hue every sector test fails. *)
Definition hslToRgba (h : ratio) (s l a : Q) : Rgba :=
  let s := (s / 100)%Q in
  let l := (l / 100)%Q in
  let c := ((1 - Qabs (2 * l - 1)) * s)%Q in
  let m := (l - c / 2)%Q in
  let '(r, g, b) :=
    match h with
    | None => (0, 0, 0)%Q
    | Some h =>
        let x := (c * (1 - Qabs (remainder (h / 60) 2 - 1)))%Q in
        if inSector 0 60 h then (c, x, 0%Q)
        else if inSector 60 120 h then (x, c, 0%Q)
        else if inSector 120 180 h then (0%Q, c, x)
        else if inSector 180 240 h then (0%Q, x, c)
        else if inSector 240 300 h then (x, 0%Q, c)
        else if inSector 300 360 h then (c, 0%Q, x)
        else (0, 0, 0)%Q
    end in
  {| red := mathRound ((r + m) * 255);
     green := mathRound ((g + m) * 255);
     blue := mathRound ((b + m) * 255);
     alpha := a |}.

Definition interpolateHue (coldHue hotHue : Q) (r : ratio) : ratio :=
  match r with
  | Some q => Some (coldHue + (hotHue - coldHue) * q)%Q
  | None => None
  end.

Definition getHeatmapColor (ageRatio : ratio) (config : HeatmapConfig) : Rgba :=
  let hue := interpolateHue (coldHue config) (hotHue config) ageRatio in
  hslToRgba hue (saturation config) (lightness config) (opacity config).

(** The first [forEach] of [calculateHeatmap]: [minTime] ([None] is
    Infinity) and [maxTime] ([None] is -Infinity). *)
Definition timeBounds (blameResult : BlameParseResult) : option Z * option Z :=
  JsMap.forEach
    (fun (st : option Z * option Z) info (_ : Z) =>
       let '(minTime, maxTime) := st in
       match authorTime info with
       | Some t =>
           if negb (isUncommitted info) && (0 <? t)
           then (Some (match minTime with Some m => Z.min m t | None => t end),
                 Some (match maxTime with Some m => Z.max m t | None => t end))
           else st
       | None => st
       end)
    (lines blameResult) (None, None).

(** [(info.authorTime - minTime) / timeRange] *)
Definition ageRatioOf (t : number) (minTime timeRange : Z) : ratio :=
  if 0 <? timeRange
  then match t with
       | Some z => Some (inject_Z (z - minTime) / inject_Z timeRange)%Q
       | None => None
       end
  else Some 0%Q.

Definition calculateHeatmap (blameResult : BlameParseResult) (config : HeatmapConfig)
  : list HeatmapLineData :=
  match timeBounds blameResult with
  | (Some minTime, Some maxTime) =>
      let timeRange := maxTime - minTime in
      let lines :=
        JsMap.forEach
          (fun (lines : list HeatmapLineData) info lineNumber =>
             if isUncommitted info then lines
             else
               let ageRatio := ageRatioOf (authorTime info) minTime timeRange in
               let color := getHeatmapColor ageRatio config in
               lines ++ [{| lineNumber := lineNumber; color := color;
                            ageRatio := ageRatio;
                            timestamp := authorTime info |}])
          (BlameParser.lines blameResult) [] in
      JsArray.sort (fun a b => lineNumber a - lineNumber b) lines
  | _ => []
  end.

(** [Math.min(Math.floor(data.ageRatio * buckets), buckets - 1)] *)
Definition bucketIndexOf (ageRatio : ratio) (buckets : Z) : number :=
  match ageRatio with
  | Some r => Some (Z.min (mathFloor (r * inject_Z buckets)) (buckets - 1))
  | None => None
  end.

(** [(bucketIndex + 0.5) / buckets] *)
Definition bucketRatioOf (bucketIndex : number) (buckets : Z) : ratio :=
  match bucketIndex with
  | Some i => Some ((inject_Z i + (1 # 2)) / inject_Z buckets)%Q
  | None => None
  end.

Definition groupHeatmapByColor (heatmapData : list HeatmapLineData) (buckets : Z)
  (config : HeatmapConfig) : JsMap.t number ColorGroup :=
  List.fold_left
    (fun groups data =>
       let bucketIndex := bucketIndexOf (ageRatio data) buckets in
       let groups1 :=
         if negb (JsMap.has bucketIndex groups)
         then JsMap.set bucketIndex
                {| groupColor := getHeatmapColor (bucketRatioOf bucketIndex buckets) config;
                   groupLines := [] |}
                groups
         else groups in
       match JsMap.get bucketIndex groups1 with
       | Some g =>
           JsMap.set bucketIndex
             {| groupColor := groupColor g;
                groupLines := groupLines g ++ [lineNumber data] |}
             groups1
       | None => groups1
       end)
    heatmapData JsMap.empty.

Definition DEFAULT_BUCKETS : Z := 20.

End Heatmap.

(* ================================================================= *)
(** * src/utils/colorGenerator.ts *)

Module ColorGenerator.

Import JsString.

(** ToInt32, the conversion the bit operators apply to their operands. *)
Definition toInt32 (x : Z) : Z :=
  let r := x mod 2 ^ 32 in
  if r <? 2 ^ 31 then r else r - 2 ^ 32.

(** [x << n] *)
Definition shiftLeft (x n : Z) : Z := toInt32 (Z.shiftl (toInt32 x) n).

(** [x & y] *)
Definition bitAnd (x y : Z) : Z := Z.land (toInt32 x) (toInt32 y).

(** The loop of [hashString], from the character at [i] on. *)
Fixpoint hashLoop (str : string) (hash : Z) : Z :=
  match str with
  | EmptyString => hash
  | String c rest =>
      let hash := (shiftLeft hash 5 + hash) + code c in
      let hash := bitAnd hash hash in
      hashLoop rest hash
  end.

Definition hashString (str : string) : Z := Z.abs (hashLoop str 5381).

(** [hslToRgba] of colorGenerator.ts is, line by line, the function of
    the same name of heatmap.ts. *)
Definition hslToRgba (h : Heatmap.ratio) (s l a : Q) : Heatmap.Rgba :=
  Heatmap.hslToRgba h s l a.

Definition generateColor (identifier : string) (saturation lightness opacity : Q)
  : Heatmap.Rgba :=
  let hash := hashString identifier in
  let hue := Heatmap.remainder (inject_Z hash * (137508 # 1000)) 360 in
  hslToRgba (Some hue) saturation lightness opacity.

Definition generateColorMap (identifiers : list string)
  (saturation lightness opacity : Q) : JsMap.t string Heatmap.Rgba :=
  let uniqueIdentifiers := JsSet.fromArray identifiers in
  List.fold_left
    (fun colorMap id =>
       JsMap.set id (generateColor id saturation lightness opacity) colorMap)
    uniqueIdentifiers JsMap.empty.

Record Hsl : Type := { h : Q; s : Q; l : Q }.

Definition DISTINCT_COLORS : list Hsl :=
  [ {| h := 210; s := 60; l := 50 |};
    {| h := 175; s := 55; l := 45 |};
    {| h := 145; s := 50; l := 42 |};
    {| h := 195; s := 65; l := 48 |};
    {| h := 260; s := 45; l := 55 |};
    {| h := 190; s := 70; l := 42 |};
    {| h := 230; s := 50; l := 55 |};
    {| h := 160; s := 45; l := 45 |};
    {| h := 280; s := 40; l := 50 |};
    {| h := 220; s := 55; l := 52 |} ].

(** [uniqueIdentifiers.forEach((id, index) => ...)] from [index] on.
    Under the guard of the caller no index is past the palette, where
    the destructuring of [DISTINCT_COLORS[index]] would throw. *)
Fixpoint assignDistinct (uniqueIdentifiers : list string) (index : nat) (opacity : Q)
  (colorMap : JsMap.t string Heatmap.Rgba) : option (JsMap.t string Heatmap.Rgba) :=
  match uniqueIdentifiers with
  | [] => Some colorMap
  | id :: rest =>
      match List.nth_error DISTINCT_COLORS index with
      | Some c =>
          assignDistinct rest (S index) opacity
            (JsMap.set id (hslToRgba (Some (h c)) (s c) (l c) opacity) colorMap)
      | None => None
      end
  end.

(** [generateDistinctColorMap]; [None] is a thrown TypeError. *)
Definition generateDistinctColorMap (identifiers : list string) (opacity : Q)
  : option (JsMap.t string Heatmap.Rgba) :=
  let uniqueIdentifiers := JsSet.fromArray identifiers in
  if (List.length uniqueIdentifiers <=? List.length DISTINCT_COLORS)%nat
  then assignDistinct uniqueIdentifiers 0 opacity JsMap.empty
  else Some (generateColorMap uniqueIdentifiers 65 40 opacity).

End ColorGenerator.

(* ================================================================= *)
(** * src/utils/timeParser.ts *)

Module TimeParser.

Import JsString.

Record ParsedDuration : Type := {
  success : bool;
  cutoffTimestamp : option Z;
  description : option string;
  error : option string
}.

(** The keys ['d'], ['w'], ['m'], ['y'] of [DURATION_UNITS] and of
    [unitNames]; they are the class [[dwmy]] of the pattern. *)
Inductive DurationUnit : Type := UnitD | UnitW | UnitM | UnitY.

Definition DURATION_UNITS (unit : DurationUnit) : Z :=
  match unit with
  | UnitD => 24 * 60 * 60 * 1000
  | UnitW => 7 * 24 * 60 * 60 * 1000
  | UnitM => 30 * 24 * 60 * 60 * 1000
  | UnitY => 365 * 24 * 60 * 60 * 1000
  end.

Definition unitOfChar (c : ascii) : option DurationUnit :=
  if Ascii.eqb c "d" then Some UnitD
  else if Ascii.eqb c "w" then Some UnitW
  else if Ascii.eqb c "m" then Some UnitM
  else if Ascii.eqb c "y" then Some UnitY
  else None.

(** [/^(\d+)([dwmy])$/]: the groups 1 and 2. *)
Definition relativeMatch (s : string) : option (string * DurationUnit) :=
  match BlameParser.digits s with
  | Some (amount, String c EmptyString) =>
      match unitOfChar c with
      | Some unit => Some (amount, unit)
      | None => None
      end
  | _ => None
  end.

(** [\d{n}]: the rest. *)
Fixpoint digitsExactly (n : nat) (s : string) : option string :=
  match n with
  | O => Some s
  | S n' =>
      match s with
      | EmptyString => None
      | String c s' => if isDigit c then digitsExactly n' s' else None
      end
  end.

Definition dash (s : string) : option string :=
  match s with
  | String "-"%char s' => Some s'
  | _ => None
  end.

(** [/^\d{4}-\d{2}-\d{2}/] *)
Definition dateMatch (s : string) : bool :=
  match digitsExactly 4 s with
  | None => false
  | Some r1 =>
  match dash r1 with
  | None => false
  | Some r2 =>
  match digitsExactly 2 r2 with
  | None => false
  | Some r3 =>
  match dash r3 with
  | None => false
  | Some r4 =>
  match digitsExactly 2 r4 with
  | None => false
  | Some _ => true
  end end end end end.

(** [/^\d{10,13}$/] *)
Definition timestampMatch (s : string) : bool :=
  match BlameParser.digitRun s with
  | (g, EmptyString) => (10 <=? String.length g)%nat && (String.length g <=? 13)%nat
  | _ => false
  end.

(** An integer in a template literal. *)
Definition numberToString (z : Z) : string := NilZero.string_of_int (Z.to_int z).

Definition unitNames (amount : Z) (unit : DurationUnit) : string :=
  match unit with
  | UnitD => if amount =? 1 then "day" else "days"
  | UnitW => if amount =? 1 then "week" else "weeks"
  | UnitM => if amount =? 1 then "month" else "months"
  | UnitY => if amount =? 1 then "year" else "years"
  end.

Definition QUOTE : string := String "034"%char EmptyString.

Definition failure (message : string) : ParsedDuration :=
  {| success := false; cutoffTimestamp := None; description := None;
     error := Some message |}.

Section Dates.

(** [new Date(s).getTime()], NaN ([None]) for an invalid date, and
    [new Date(t).toLocaleDateString()]: both are the host's. *)
Variable dateParse : string -> option Z.
Variable toLocaleDateString : Z -> string.

(** [parseDuration]; [parseInt] on a run of digits is its decimal value
    (lemma [parseInt_isDigits] below). *)
Definition parseDuration (duration : string) (now : Z) : ParsedDuration :=
  let trimmed := toLowerCase (trim duration) in
  if isEmpty trimmed then failure "Duration string is empty"
  else
    match relativeMatch trimmed with
    | Some (group1, unit) =>
        let amount := readDigits group1 0 in
        let multiplier := DURATION_UNITS unit in
        if amount <=? 0 then failure "Duration amount must be positive"
        else
          let cutoffTimestamp := now - amount * multiplier in
          {| success := true;
             cutoffTimestamp := Some cutoffTimestamp;
             description :=
               Some (numberToString amount ++ " " ++ unitNames amount unit)%string;
             error := None |}
    | None =>
        match (if dateMatch trimmed then dateParse trimmed else None) with
        | Some cutoffTimestamp =>
            if now <? cutoffTimestamp then failure "Date cannot be in the future"
            else
              {| success := true;
                 cutoffTimestamp := Some cutoffTimestamp;
                 description :=
                   Some ("since " ++ toLocaleDateString cutoffTimestamp)%string;
                 error := None |}
        | None =>
            if timestampMatch trimmed
            then
              let timestamp := readDigits trimmed 0 in
              let timestamp :=
                if (String.length trimmed =? 10)%nat then timestamp * 1000
                else timestamp in
              if now <? timestamp then failure "Timestamp cannot be in the future"
              else
                {| success := true;
                   cutoffTimestamp := Some timestamp;
                   description :=
                     Some ("since " ++ toLocaleDateString timestamp)%string;
                   error := None |}
            else
              failure ("Invalid duration format: " ++ QUOTE ++ duration ++ QUOTE ++
                       ". Use formats like " ++ QUOTE ++ "7d" ++ QUOTE ++ ", " ++
                       QUOTE ++ "3m" ++ QUOTE ++ ", " ++ QUOTE ++ "1y" ++ QUOTE ++
                       ", or an ISO date.")%string
        end
    end.

(** [isValidDurationFormat]; the clock is read by the default argument
    of [parseDuration]. *)
Definition isValidDurationFormat (duration : string) (now : Z) : bool :=
  success (parseDuration duration now).

End Dates.

(** [getRelativeTime]: with NaN every comparison fails. *)
Definition getRelativeTime (unixSeconds : BlameParser.number) (now : Z) : string :=
  match unixSeconds with
  | None => "just now"
  | Some unixSeconds =>
      let diffMs := now - unixSeconds * 1000 in
      let diffSeconds := diffMs / 1000 in
      let diffMinutes := diffSeconds / 60 in
      let diffHours := diffMinutes / 60 in
      let diffDays := diffHours / 24 in
      let diffWeeks := diffDays / 7 in
      let diffMonths := diffDays / 30 in
      let diffYears := diffDays / 365 in
      if 0 <? diffYears
      then if diffYears =? 1 then "1 year ago"
           else (numberToString diffYears ++ " years ago")%string
      else if 0 <? diffMonths
      then if diffMonths =? 1 then "1 month ago"
           else (numberToString diffMonths ++ " months ago")%string
      else if 0 <? diffWeeks
      then if diffWeeks =? 1 then "1 week ago"
           else (numberToString diffWeeks ++ " weeks ago")%string
      else if 0 <? diffDays
      then if diffDays =? 1 then "1 day ago"
           else (numberToString diffDays ++ " days ago")%string
      else if 0 <? diffHours
      then if diffHours =? 1 then "1 hour ago"
           else (numberToString diffHours ++ " hours ago")%string
      else if 0 <? diffMinutes
      then if diffMinutes =? 1 then "1 minute ago"
           else (numberToString diffMinutes ++ " minutes ago")%string
      else "just now"
  end.

End TimeParser.

(* ================================================================= *)
(** * src/highlight/decorator.ts: the navigation list *)

Module Decorator.

Import JsString.
Import BlameParser.

Inductive HighlightMode : Type :=
| none | age | modeAuthor | commit | heatmap | specificAuthor | specificCommit.

(** [applyAgeHighlighting]: the list left in [this.highlightedLines];
    the flag is [currentSettings.enableUncommittedHighlight]. *)
Definition applyAgeHighlighting (enableUncommittedHighlight : bool)
  (recentLines uncommittedLines : list Z) : list Z :=
  let allHighlightedLines :=
    if enableUncommittedHighlight
    then recentLines ++ uncommittedLines
    else recentLines in
  JsArray.sortAscending (JsArray.dedupe allHighlightedLines).

(** [applySpecificAuthorHighlighting]: the list left in
    [this.highlightedLines], which is also the list handed to
    [createDecorationRanges]. *)
Definition applySpecificAuthorHighlighting (blameResult : BlameParseResult)
  (authorName : string) : list Z :=
  let matchingLines :=
    JsMap.forEach
      (fun matchingLines info lineNum =>
         if strictEq (toLowerCase (author info)) (toLowerCase authorName)
         then matchingLines ++ [lineNum]
         else matchingLines)
      (lines blameResult) [] in
  JsArray.sortAscending matchingLines.

(** [applySpecificCommitHighlighting], likewise. *)
Definition applySpecificCommitHighlighting (blameResult : BlameParseResult)
  (commitSha : string) : list Z :=
  let matchingLines :=
    JsMap.forEach
      (fun matchingLines info lineNum =>
         if startsWith (BlameParser.commitSha info) commitSha
         then matchingLines ++ [lineNum]
         else matchingLines)
      (lines blameResult) [] in
  JsArray.sortAscending matchingLines.

(** The two target driven cases of the [switch (this.mode)] of
    extension.ts, with their guards [if (this.selectedAuthor)] and
    [if (this.selectedCommit)]: [selected] is that field, [None] for
    undefined, and the undefined and the empty string are falsy.  The
    result is the list the call leaves in [this.highlightedLines], and
    [None] where no call is made; the other modes take no target. *)
Definition highlightTarget (mode : HighlightMode) (blameResult : BlameParseResult)
  (selected : option string) : option (list Z) :=
  match mode with
  | specificAuthor =>
      match selected with
      | Some selectedAuthor =>
          if isEmpty selectedAuthor then None
          else Some (applySpecificAuthorHighlighting blameResult selectedAuthor)
      | None => None
      end
  | specificCommit =>
      match selected with
      | Some selectedCommit =>
          if isEmpty selectedCommit then None
          else Some (applySpecificCommitHighlighting blameResult selectedCommit)
      | None => None
      end
  | _ => None
  end.

(** [goToNextHighlight]: [activeLine] is [editor.selection.active.line],
    counted from 0; the result is the line revealed. *)
Definition goToNextHighlight (highlightedLines : list Z) (activeLine : Z)
  : option Z :=
  match highlightedLines with
  | [] => None
  | first :: _ =>
      let currentLine := activeLine + 1 in
      let nextLine := JsArray.find (fun line => currentLine <? line) highlightedLines in
      match nextLine with
      | Some line => Some line
      | None => Some first
      end
  end.

Definition goToPreviousHighlight (highlightedLines : list Z) (activeLine : Z)
  : option Z :=
  match highlightedLines with
  | [] => None
  | _ :: _ =>
      let currentLine := activeLine + 1 in
      let previousLines := List.filter (fun line => line <? currentLine) highlightedLines in
      let previousLine := JsArray.lastElement previousLines in
      match previousLine with
      | Some line => Some line
      | None => JsArray.lastElement highlightedLines
      end
  end.

(** What [applyAuthorHighlighting] and [applyCommitHighlighting] compute
    before they touch the editor: the lines of each author or commit,
    and the list left in [this.highlightedLines]. *)
Record GroupedHighlight : Type := {
  groupedLines : JsMap.t string (list Z);
  highlightedLines : list Z
}.

(** [applyAuthorHighlighting]; the flag is
    [currentSettings.enableUncommittedHighlight]. *)
Definition applyAuthorHighlighting (enableUncommittedHighlight : bool)
  (blameResult : BlameParseResult) (uncommittedLines : list Z) : GroupedHighlight :=
  let '(authorLines, allHighlightedLines) :=
    JsMap.forEach
      (fun (st : JsMap.t string (list Z) * list Z) info lineNum =>
         let '(authorLines, allHighlightedLines) := st in
         if negb (isUncommitted info)
         then
           let lines :=
             match JsMap.get (author info) authorLines with
             | Some lines => lines
             | None => []
             end in
           let lines := lines ++ [lineNum] in
           (JsMap.set (author info) lines authorLines, allHighlightedLines ++ [lineNum])
         else st)
      (lines blameResult) (JsMap.empty, []) in
  let allHighlightedLines :=
    if enableUncommittedHighlight
    then allHighlightedLines ++ uncommittedLines
    else allHighlightedLines in
  {| groupedLines := authorLines;
     highlightedLines := JsArray.sortAscending (JsArray.dedupe allHighlightedLines) |}.

(** [applyCommitHighlighting] *)
Definition applyCommitHighlighting (enableUncommittedHighlight : bool)
  (blameResult : BlameParseResult) (uncommittedLines : list Z) : GroupedHighlight :=
  let '(commitLines, allHighlightedLines) :=
    JsMap.forEach
      (fun (st : JsMap.t string (list Z) * list Z) info lineNum =>
         let '(commitLines, allHighlightedLines) := st in
         if negb (isUncommitted info)
         then
           let lines :=
             match JsMap.get (commitSha info) commitLines with
             | Some lines => lines
             | None => []
             end in
           let lines := lines ++ [lineNum] in
           (JsMap.set (commitSha info) lines commitLines, allHighlightedLines ++ [lineNum])
         else st)
      (lines blameResult) (JsMap.empty, []) in
  let allHighlightedLines :=
    if enableUncommittedHighlight
    then allHighlightedLines ++ uncommittedLines
    else allHighlightedLines in
  {| groupedLines := commitLines;
     highlightedLines := JsArray.sortAscending (JsArray.dedupe allHighlightedLines) |}.

(** [applyHeatmapHighlighting]: the list left in [this.highlightedLines].
    The three settings are [colorSaturation], [colorLightness] and
    [colorOpacity]. *)
Definition applyHeatmapHighlighting (enableUncommittedHighlight : bool)
  (colorSaturation colorLightness colorOpacity : Q)
  (blameResult : BlameParseResult) (uncommittedLines : list Z) : list Z :=
  let config :=
    {| Heatmap.coldHue := 240; Heatmap.hotHue := 160;
       Heatmap.saturation := colorSaturation;
       Heatmap.lightness := colorLightness;
       Heatmap.opacity := colorOpacity |} in
  let heatmapGroups :=
    Heatmap.groupHeatmapByColor (Heatmap.calculateHeatmap blameResult config) 20 config in
  let allHighlightedLines :=
    JsMap.forEach
      (fun (allHighlightedLines : list Z) group (bucketIndex : number) =>
         allHighlightedLines ++ Heatmap.groupLines group)
      heatmapGroups [] in
  let allHighlightedLines :=
    if enableUncommittedHighlight
    then allHighlightedLines ++ uncommittedLines
    else allHighlightedLines in
  JsArray.sortAscending (JsArray.dedupe allHighlightedLines).

(** [applyReviewHighlighting]: the list left in [this.highlightedLines]. *)
Definition applyReviewHighlighting (blameResult : BlameParseResult)
  (reviewCommits : JsSet.t string) : list Z :=
  let changedLines :=
    JsMap.forEach
      (fun (changedLines : list Z) info lineNum =>
         if negb (isUncommitted info) && JsSet.has (commitSha info) reviewCommits
         then changedLines ++ [lineNum]
         else changedLines)
      (lines blameResult) [] in
  let uncommittedLines :=
    JsMap.forEach
      (fun (uncommittedLines : list Z) info lineNum =>
         if isUncommitted info
         then uncommittedLines ++ [lineNum]
         else uncommittedLines)
      (lines blameResult) [] in
  JsArray.sortAscending (changedLines ++ uncommittedLines).

(** The order of [sort()] without a comparison function: strings by
    their code units. *)
Definition compareStrings (a b : string) : Z :=
  match String.compare a b with
  | Lt => -1
  | Eq => 0
  | Gt => 1
  end.

(** [LineDecorator.getAuthors] *)
Definition getAuthors (blameResult : BlameParseResult) : list string :=
  let authors :=
    JsMap.forEach
      (fun (authors : JsSet.t string) info (_ : Z) =>
         if negb (isUncommitted info) then JsSet.add (author info) authors else authors)
      (lines blameResult) JsSet.empty in
  JsArray.sort compareStrings authors.

(** An element of the array [getCommits] returns. *)
Module Commit.
Record t : Type := { sha : string; summary : string; author : string }.
End Commit.

(** [LineDecorator.getCommits] *)
Definition getCommits (blameResult : BlameParseResult) : list Commit.t :=
  let commits :=
    JsMap.forEach
      (fun (commits : JsMap.t string Commit.t) info (_ : Z) =>
         if negb (isUncommitted info) && negb (JsMap.has (commitSha info) commits)
         then JsMap.set (commitSha info)
                {| Commit.sha := commitSha info;
                   Commit.summary := summary info;
                   Commit.author := author info |}
                commits
         else commits)
      (lines blameResult) JsMap.empty in
  JsMap.values commits.

End Decorator.

(* ================================================================= *)
(** * Sample inputs used by the examples below *)

Module Samples.

Import JsString.
Import BlameParser.

Definition joinLines (l : list string) : string :=
  String.concat (String LF EmptyString) l.

(** Three blocks in the shape of the parser's unit test; the third is a
    working tree line. *)
Definition SAMPLE_BLAME_OUTPUT : string :=
  joinLines
    [ "abc123def456789012345678901234567890abcd 1 1 1";
      "author John Doe";
      "author-mail <john@example.com>";
      "author-time 1718452800";
      "author-tz +0000";
      "summary Initial commit";
      "filename test.ts";
      (TAB ++ "const x = 1;")%string;
      "def456789012345678901234567890abcdef1234 2 2 1";
      "author Jane Smith";
      "author-mail <jane@example.com>";
      "author-time 1718366400";
      "author-tz +0000";
      "summary Add feature";
      "filename test.ts";
      (TAB ++ "const y = 2;")%string;
      "0000000000000000000000000000000000000000 3 3 1";
      "author Not Committed Yet";
      "author-mail <not.committed.yet>";
      "author-time 1718539200";
      "author-tz +0000";
      "summary ";
      "filename test.ts";
      (TAB ++ "const z = 3;")%string;
      "" ]%string.

(** A working tree line whose author field is an ordinary name. *)
Definition SENTINEL_BLOCK : string :=
  joinLines
    [ "0000000000000000000000000000000000000000 1 1 1";
      "author Jane Smith";
      "author-time 1718366400";
      (TAB ++ "let y = 2;")%string ]%string.

Definition sentinelInfo : BlameLineInfo :=
  {| lineNumber := 1;
     commitSha := UNCOMMITTED_SHA_PREFIX;
     author := "Jane Smith";
     authorMail := "";
     authorTime := Some 1718366400;
     authorTz := "";
     summary := "";
     isUncommitted := true;
     filename := "" |}.

(** Three committed lines; the block of line 1 has no [author-time]
    line, so its [authorTime] stays at the initial 0. *)
Definition MISSING_TIME_OUTPUT : string :=
  joinLines
    [ "abc123def456789012345678901234567890abcd 1 1 1";
      "author John Doe";
      "summary Initial commit";
      (TAB ++ "const x = 1;")%string;
      "def456789012345678901234567890abcdef1234 2 2 1";
      "author Jane Smith";
      "author-time 100";
      (TAB ++ "const y = 2;")%string;
      "def456789012345678901234567890abcdef1234 3 3 1";
      "author Jane Smith";
      "author-time 200";
      (TAB ++ "const z = 3;")%string ]%string.

Definition line (n : Z) (sha who : string) (time : number) (uncommitted : bool)
  : Z * BlameLineInfo :=
  (n, {| lineNumber := n; commitSha := sha; author := who; authorMail := "";
         authorTime := time; authorTz := ""; summary := "";
         isUncommitted := uncommitted; filename := "" |}).

Definition resultOf (entries : JsMap.t Z BlameLineInfo) : BlameParseResult :=
  {| success := true; lines := entries; error := None;
     lineCount := JsMap.size entries |}.

(** One line by Bob in a commit whose id starts with "abc". *)
Definition bobResult : BlameParseResult :=
  resultOf [ line 1 "abc123def456789012345678901234567890abcd" "Bob" (Some 100) false ].

Definition emptyResult : BlameParseResult := resultOf [].

(** A datum whose ratio is NaN. *)
Definition nanDatum : Heatmap.HeatmapLineData :=
  {| Heatmap.lineNumber := 1;
     Heatmap.color := Heatmap.getHeatmapColor None Heatmap.DEFAULT_HEATMAP_CONFIG;
     Heatmap.ageRatio := None;
     Heatmap.timestamp := None |}.

Definition halfDatum : Heatmap.HeatmapLineData :=
  {| Heatmap.lineNumber := 1;
     Heatmap.color := Heatmap.getHeatmapColor (Some (1 # 2)) Heatmap.DEFAULT_HEATMAP_CONFIG;
     Heatmap.ageRatio := Some (1 # 2);
     Heatmap.timestamp := Some 150 |}.

End Samples.

(* ================================================================= *)
(** * Predicates and invariants used by the statements below *)

Module Predicates.

Import JsString.
Import BlameParser.
Import BlameCache.

(** The determination the specification gives for [isUncommitted]. *)
Definition uncommittedRule (b : BlameLineInfo) : Prop :=
  isUncommitted b = true <->
  (commitSha b = UNCOMMITTED_SHA_PREFIX \/
   author b = "Not Committed Yet"%string \/
   includes (toLowerCase (author b)) "not committed" = true).

(** What holds of the record while its metadata lines are read. *)
Definition headerState (b : BlameLineInfo) : Prop :=
  isUncommitted b = strictEq (commitSha b) UNCOMMITTED_SHA_PREFIX.

(** The condition of [filterLinesByTime] on one record. *)
Definition isRecent (cutoffTimestamp : Z) (info : BlameLineInfo) : bool :=
  negb (isUncommitted info) &&
  geRatio (authorTime info) (inject_Z cutoffTimestamp / 1000)%Q.

(** State of the scan of [evictOldest] after the entries [seen]. *)
Definition oldestOf (seen : JsMap.t string BlameCacheEntry)
  (st : option string * option Z) : Prop :=
  match st with
  | (Some k, Some t) =>
      (exists e, In (k, e) seen /\ cachedAt e = t) /\
      (forall kv, In kv seen -> t <= cachedAt (snd kv))
  | (None, None) => seen = []
  | _ => False
  end.

(** The cache respects its capacity and stores no entry under the
    empty key. *)
Definition bounded (c : BlameCache) : Prop :=
  size c <= maxEntries c /\
  (forall k, In k (JsMap.keys (cache c)) -> k <> EmptyString).

(** One [set] call of a series, with the value its [Date.now()] returns. *)
Record SetCall : Type := {
  callPath : string;
  callHead : string;
  callResult : BlameParseResult;
  callNow : Z
}.

Definition entryOf (s : SetCall) : string * BlameCacheEntry :=
  (getCacheKey (callPath s),
   {| blameResult := callResult s; headCommit := callHead s;
      cachedAt := callNow s; filePath := callPath s |}).

Definition setAll (calls : list SetCall) (c : BlameCache) : BlameCache :=
  List.fold_left
    (fun c s => set (callPath s) (callHead s) (callResult s) (callNow s) c)
    calls c.

(** A committed line whose time the first loop takes into account. *)
Definition dated (info : BlameLineInfo) : Prop :=
  isUncommitted info = false /\ exists t, authorTime info = Some t /\ 0 < t.

(** State of the first loop of [calculateHeatmap] after the entries [seen]. *)
Definition boundsOf (seen : JsMap.t Z BlameLineInfo) (st : option Z * option Z) : Prop :=
  match st with
  | (Some lo, Some hi) =>
      lo <= hi /\
      forall kv t,
        In kv seen -> isUncommitted (snd kv) = false ->
        authorTime (snd kv) = Some t -> 0 < t -> lo <= t <= hi
  | (None, None) =>
      forall kv t,
        In kv seen -> isUncommitted (snd kv) = false ->
        authorTime (snd kv) = Some t -> 0 < t -> False
  | _ => False
  end.

(** Every character of [s] satisfies [p]. *)
Fixpoint allChars (p : ascii -> bool) (s : string) : bool :=
  match s with
  | EmptyString => true
  | String c s' => p c && allChars p s'
  end.

(** The line holds no line feed, so [split] does not cut it. *)
Definition noLineFeed (s : string) : bool :=
  allChars (fun c => negb (Ascii.eqb c LF)) s.

(** One block of [git blame --line-porcelain] output, laid out as in
    the comment at the head of blameParser.ts; every field is the text
    after its keyword. *)
Record PorcelainBlock : Type := {
  blockSha : string;
  blockOriginalLine : string;
  blockFinalLine : string;
  blockCount : option string;
  blockAuthor : string;
  blockAuthorMail : string;
  blockAuthorTime : string;
  blockAuthorTz : string;
  blockCommitter : string;
  blockCommitterMail : string;
  blockCommitterTime : string;
  blockCommitterTz : string;
  blockSummary : string;
  blockFilename : string;
  blockContent : string
}.

Definition headerLine (b : PorcelainBlock) : string :=
  (blockSha b ++ " " ++ blockOriginalLine b ++ " " ++ blockFinalLine b ++
   match blockCount b with
   | Some count => " " ++ count
   | None => ""
   end)%string.

Definition blockLines (b : PorcelainBlock) : list string :=
  [ headerLine b;
    ("author " ++ blockAuthor b)%string;
    ("author-mail " ++ blockAuthorMail b)%string;
    ("author-time " ++ blockAuthorTime b)%string;
    ("author-tz " ++ blockAuthorTz b)%string;
    ("committer " ++ blockCommitter b)%string;
    ("committer-mail " ++ blockCommitterMail b)%string;
    ("committer-time " ++ blockCommitterTime b)%string;
    ("committer-tz " ++ blockCommitterTz b)%string;
    ("summary " ++ blockSummary b)%string;
    ("filename " ++ blockFilename b)%string;
    (TAB ++ blockContent b)%string ].

(** The report made of the blocks, one line after the other. *)
Definition renderBlocks (blocks : list PorcelainBlock) : string :=
  Samples.joinLines (List.concat (List.map blockLines blocks)).

(** A non-empty run of decimal digits. *)
Definition isDigits (s : string) : bool := negb (isEmpty s) && allChars isDigit s.

Definition wellFormedBlock (b : PorcelainBlock) : bool :=
  (String.length (blockSha b) =? 40)%nat && allChars isLowerHex (blockSha b) &&
  isDigits (blockOriginalLine b) && isDigits (blockFinalLine b) &&
  match blockCount b with
  | Some count => isDigits count
  | None => true
  end &&
  noLineFeed (blockAuthor b) && noLineFeed (blockAuthorMail b) &&
  noLineFeed (blockAuthorTime b) && noLineFeed (blockAuthorTz b) &&
  noLineFeed (blockCommitter b) && noLineFeed (blockCommitterMail b) &&
  noLineFeed (blockCommitterTime b) && noLineFeed (blockCommitterTz b) &&
  noLineFeed (blockSummary b) && noLineFeed (blockFilename b) &&
  noLineFeed (blockContent b).

(** The record the block describes. *)
Definition recordOfBlock (b : PorcelainBlock) : BlameLineInfo :=
  {| lineNumber := readDigits (blockFinalLine b) 0;
     commitSha := blockSha b;
     author := blockAuthor b;
     authorMail := blockAuthorMail b;
     authorTime := parseInt (blockAuthorTime b);
     authorTz := blockAuthorTz b;
     summary := blockSummary b;
     isUncommitted :=
       strictEq (blockSha b) UNCOMMITTED_SHA_PREFIX ||
       (strictEq (blockAuthor b) "Not Committed Yet" ||
        includes (toLowerCase (blockAuthor b)) "not committed");
     filename := blockFilename b |}.

(** Storing the records of the blocks in order, a later one replacing
    an earlier one of the same line. *)
Definition storeRecords (blocks : list PorcelainBlock) (m : JsMap.t Z BlameLineInfo)
  : JsMap.t Z BlameLineInfo :=
  List.fold_left
    (fun m b => JsMap.set (lineNumber (recordOfBlock b)) (recordOfBlock b) m)
    blocks m.

(** Number of [get] calls since the last [clear], counting on from
    [count]. *)
Definition getsSinceClear (ops : list Operation) (count : Z) : Z :=
  List.fold_left
    (fun n op =>
       match op with
       | OpGet _ _ => n + 1
       | OpClear => 0
       | _ => n
       end)
    ops count.

(** The times [minTime] and [maxTime] of the first loop of
    [calculateHeatmap] are times of lines it took into account. *)
Definition attained (seen : JsMap.t Z BlameLineInfo) (st : option Z * option Z) : Prop :=
  match st with
  | (Some lo, Some hi) =>
      (exists kv, In kv seen /\ dated (snd kv) /\ authorTime (snd kv) = Some lo) /\
      (exists kv, In kv seen /\ dated (snd kv) /\ authorTime (snd kv) = Some hi)
  | (None, None) => True
  | _ => False
  end.

(** The lines of the bucket [k], in the order of the heatmap data. *)
Definition bucketLines (heatmapData : list Heatmap.HeatmapLineData) (buckets : Z)
  (k : number) : list Z :=
  List.map Heatmap.lineNumber
    (List.filter
       (fun d => sameKey (Heatmap.bucketIndexOf (Heatmap.ageRatio d) buckets) k)
       heatmapData).

(** The rest is empty or starts with a character that is no digit. *)
Definition digitsEnd (rest : string) : bool :=
  match rest with
  | EmptyString => true
  | String c _ => negb (isDigit c)
  end.

(** The lines of the blame result whose record satisfies [p], in the
    order of the map. *)
Definition linesWhere (p : BlameLineInfo -> bool) (blameResult : BlameParseResult)
  : list Z :=
  List.map fst (List.filter (fun kv => p (snd kv)) (lines blameResult)).

(** The hash of the djb2 scheme over the integers, without the
    truncation to 32 bits: [hash * 33 + c] for each character. *)
Fixpoint djb2 (str : string) (hash : Z) : Z :=
  match str with
  | EmptyString => hash
  | String c rest => djb2 rest (hash * 33 + code c)
  end.

(** The three colour channels of an [rgba(...)] text. *)
Definition channels (c : Heatmap.Rgba) : Z * Z * Z :=
  (Heatmap.red c, Heatmap.green c, Heatmap.blue c).

End Predicates.

(* ================================================================= *)
(** * More sample inputs *)

Module MoreSamples.

(** Two porcelain blocks for the same final line 7. *)
Definition firstBlock : Predicates.PorcelainBlock :=
  {| Predicates.blockSha := "abc123def456789012345678901234567890abcd";
     Predicates.blockOriginalLine := "5";
     Predicates.blockFinalLine := "7";
     Predicates.blockCount := Some "1"%string;
     Predicates.blockAuthor := "John Doe";
     Predicates.blockAuthorMail := "<john@example.com>";
     Predicates.blockAuthorTime := "1718452800";
     Predicates.blockAuthorTz := "+0000";
     Predicates.blockCommitter := "John Doe";
     Predicates.blockCommitterMail := "<john@example.com>";
     Predicates.blockCommitterTime := "1718452800";
     Predicates.blockCommitterTz := "+0000";
     Predicates.blockSummary := "";
     Predicates.blockFilename := "old-name.ts";
     Predicates.blockContent := "const x = 1;" |}.

Definition secondBlock : Predicates.PorcelainBlock :=
  {| Predicates.blockSha := "def456789012345678901234567890abcdef1234";
     Predicates.blockOriginalLine := "7";
     Predicates.blockFinalLine := "7";
     Predicates.blockCount := None;
     Predicates.blockAuthor := "Jane Smith";
     Predicates.blockAuthorMail := "<jane@example.com>";
     Predicates.blockAuthorTime := "1718366400";
     Predicates.blockAuthorTz := "+0100";
     Predicates.blockCommitter := "Jane Smith";
     Predicates.blockCommitterMail := "<jane@example.com>";
     Predicates.blockCommitterTime := "1718366400";
     Predicates.blockCommitterTz := "+0100";
     Predicates.blockSummary := "Add feature";
     Predicates.blockFilename := "new-name.ts";
     Predicates.blockContent := "const y = 2;" |}.

Definition callA : Predicates.SetCall :=
  {| Predicates.callPath := "a.ts"; Predicates.callHead := "h1";
     Predicates.callResult := Samples.emptyResult; Predicates.callNow := 10 |}.

Definition callB : Predicates.SetCall :=
  {| Predicates.callPath := "b.ts"; Predicates.callHead := "h1";
     Predicates.callResult := Samples.emptyResult; Predicates.callNow := 10 |}.

Definition callC : Predicates.SetCall :=
  {| Predicates.callPath := "c.ts"; Predicates.callHead := "h2";
     Predicates.callResult := Samples.bobResult; Predicates.callNow := 12 |}.

(** A cache of two entries, the second one the older. *)
Definition twoEntries : BlameCache.BlameCache :=
  BlameCache.set "b.ts" "h1" Samples.emptyResult 5
    (BlameCache.set "a.ts" "h1" Samples.emptyResult 9 (BlameCache.create 5)).


End MoreSamples.

(* ================================================================= *)
(** * Facts about the JavaScript primitives *)

Module JsFacts.

Import JsString.

(** ** Sorting *)

Section SortOn.
Context {A : Type} (key : A -> Z).

Let compareFn : A -> A -> Z := fun a b => key a - key b.
Let ordered : A -> A -> Prop := fun a b => key a <= key b.

Lemma insert_perm (x : A) (l : list A) :
  Permutation (JsArray.insert compareFn x l) (x :: l).
Proof.
  induction l as [|y ys IH]; simpl.
  - apply Permutation_refl.
  - destruct (compareFn x y <=? 0).
    + apply Permutation_refl.
    + apply perm_trans with (y :: x :: ys).
      * now apply perm_skip.
      * apply perm_swap.
Qed.

Lemma sort_perm (l : list A) : Permutation (JsArray.sort compareFn l) l.
Proof.
  induction l as [|x xs IH]; simpl.
  - apply perm_nil.
  - apply perm_trans with (x :: JsArray.sort compareFn xs).
    + apply insert_perm.
    + now apply perm_skip.
Qed.

Lemma insert_hdrel (a x : A) (l : list A) :
  ordered a x -> HdRel ordered a l -> HdRel ordered a (JsArray.insert compareFn x l).
Proof.
  intros Hax Hl. destruct l as [|y ys]; simpl.
  - now constructor.
  - destruct (compareFn x y <=? 0).
    + now constructor.
    + inversion Hl; subst. now constructor.
Qed.

Lemma insert_sorted (x : A) (l : list A) :
  Sorted ordered l -> Sorted ordered (JsArray.insert compareFn x l).
Proof.
  induction l as [|y ys IH]; intros Hs; simpl.
  - repeat constructor.
  - destruct (compareFn x y <=? 0) eqn:E.
    + constructor; [assumption|]. constructor.
      unfold ordered, compareFn in *. lia.
    + inversion Hs as [|? ? Hys Hhd]; subst.
      constructor.
      * now apply IH.
      * apply insert_hdrel; [|assumption].
        unfold ordered, compareFn in *. lia.
Qed.

Lemma sort_sorted (l : list A) : Sorted ordered (JsArray.sort compareFn l).
Proof.
  induction l as [|x xs IH]; simpl.
  - constructor.
  - now apply insert_sorted.
Qed.

End SortOn.

Lemma sortAscending_perm (l : list Z) : Permutation (JsArray.sortAscending l) l.
Proof. exact (sort_perm (fun z => z) l). Qed.

Lemma sortAscending_sorted (l : list Z) : Sorted Z.le (JsArray.sortAscending l).
Proof. exact (sort_sorted (fun z => z) l). Qed.

Lemma sortAscending_In (l : list Z) (n : Z) :
  In n (JsArray.sortAscending l) <-> In n l.
Proof.
  split; apply Permutation_in.
  - apply sortAscending_perm.
  - apply Permutation_sym, sortAscending_perm.
Qed.

(** ** [forEach] that pushes onto an array *)

Section Collect.
Context {K V B : Type} (keep : V -> K -> bool) (item : V -> K -> B).

Lemma forEach_push (m : JsMap.t K V) (init : list B) :
  JsMap.forEach
    (fun acc v k => if keep v k then acc ++ [item v k] else acc) m init
  = init ++ List.map (fun kv => item (snd kv) (fst kv))
              (List.filter (fun kv => keep (snd kv) (fst kv)) m).
Proof.
  unfold JsMap.forEach. revert init.
  induction m as [|[k v] rest IH]; intros init; simpl.
  - now rewrite app_nil_r.
  - rewrite IH. destruct (keep v k); simpl.
    + now rewrite <- app_assoc.
    + reflexivity.
Qed.

Lemma forEach_skip (m : JsMap.t K V) (init : list B) :
  JsMap.forEach
    (fun acc v k => if keep v k then acc else acc ++ [item v k]) m init
  = init ++ List.map (fun kv => item (snd kv) (fst kv))
              (List.filter (fun kv => negb (keep (snd kv) (fst kv))) m).
Proof.
  unfold JsMap.forEach. revert init.
  induction m as [|[k v] rest IH]; intros init; simpl.
  - now rewrite app_nil_r.
  - rewrite IH. destruct (keep v k); simpl.
    + reflexivity.
    + now rewrite <- app_assoc.
Qed.

End Collect.

(** ** Maps *)

Section MapFacts.
Context {K V : Type} `{SameValueZero K}.

Lemma sameKey_refl (k : K) : sameKey k k = true.
Proof. now apply sameKey_eq. Qed.

Lemma sameKey_neq (a b : K) : a <> b -> sameKey a b = false.
Proof.
  intros Hne. destruct (sameKey a b) eqn:E; [|reflexivity].
  apply sameKey_eq in E. contradiction.
Qed.

Lemma get_set_same (k : K) (v : V) (m : JsMap.t K V) :
  JsMap.get k (JsMap.set k v m) = Some v.
Proof.
  induction m as [|[k' v'] rest IH]; simpl.
  - now rewrite sameKey_refl.
  - destruct (sameKey k' k) eqn:E; simpl; rewrite E; [reflexivity|assumption].
Qed.

Lemma get_set_other (k k' : K) (v : V) (m : JsMap.t K V) :
  k <> k' -> JsMap.get k' (JsMap.set k v m) = JsMap.get k' m.
Proof.
  intros Hne. induction m as [|[k0 v0] rest IH]; simpl.
  - now rewrite (sameKey_neq k k').
  - destruct (sameKey k0 k) eqn:E; simpl.
    + apply sameKey_eq in E. subst k0. now rewrite (sameKey_neq k k').
    + now rewrite IH.
Qed.

Lemma get_In (k : K) (v : V) (m : JsMap.t K V) :
  JsMap.get k m = Some v -> In (k, v) m.
Proof.
  induction m as [|[k0 v0] rest IH]; simpl; [discriminate|].
  destruct (sameKey k0 k) eqn:E.
  - apply sameKey_eq in E. intros [= ->]. subst. now left.
  - intros Hg. right. now apply IH.
Qed.

Lemma has_In_keys (k : K) (m : JsMap.t K V) :
  JsMap.has k m = true <-> In k (JsMap.keys m).
Proof.
  unfold JsMap.has. induction m as [|[k0 v0] rest IH]; simpl.
  - split; [discriminate|contradiction].
  - destruct (sameKey k0 k) eqn:E.
    + apply sameKey_eq in E. split; [now left|reflexivity].
    + rewrite IH. split; [now right|].
      intros [Heq|Hin]; [|assumption].
      subst k0. now rewrite sameKey_refl in E.
Qed.

Lemma In_set (k : K) (v : V) (m : JsMap.t K V) (kv : K * V) :
  In kv (JsMap.set k v m) -> kv = (k, v) \/ In kv m.
Proof.
  induction m as [|[k0 v0] rest IH]; simpl.
  - intros [<-|[]]. now left.
  - destruct (sameKey k0 k) eqn:E; simpl.
    + apply sameKey_eq in E. subst k0. intros [<-|Hin]; auto.
    + intros [<-|Hin]; auto. destruct (IH Hin); auto.
Qed.

Lemma keys_set (k : K) (v : V) (m : JsMap.t K V) :
  JsMap.keys (JsMap.set k v m)
  = if JsMap.has k m then JsMap.keys m else JsMap.keys m ++ [k].
Proof.
  unfold JsMap.has. induction m as [|[k0 v0] rest IH]; simpl.
  - reflexivity.
  - destruct (sameKey k0 k) eqn:E; simpl.
    + reflexivity.
    + rewrite IH. now destruct (JsMap.get k rest).
Qed.

Lemma size_set (k : K) (v : V) (m : JsMap.t K V) :
  JsMap.size (JsMap.set k v m)
  = if JsMap.has k m then JsMap.size m else JsMap.size m + 1.
Proof.
  unfold JsMap.size.
  rewrite <- (length_map fst (JsMap.set k v m)), <- (length_map fst m).
  fold (JsMap.keys (JsMap.set k v m)). fold (JsMap.keys m).
  rewrite keys_set. destruct (JsMap.has k m); [reflexivity|].
  rewrite length_app. simpl. lia.
Qed.

Lemma NoDup_keys_set (k : K) (v : V) (m : JsMap.t K V) :
  NoDup (JsMap.keys m) -> NoDup (JsMap.keys (JsMap.set k v m)).
Proof.
  intros Hnd. rewrite keys_set. destruct (JsMap.has k m) eqn:E; [assumption|].
  apply NoDup_rev in Hnd. rewrite <- (rev_involutive (JsMap.keys m ++ [k])).
  apply NoDup_rev. rewrite rev_app_distr. simpl. constructor; [|assumption].
  rewrite <- in_rev. intros Hin. apply has_In_keys in Hin. congruence.
Qed.

Lemma size_delete_le (k : K) (m : JsMap.t K V) :
  JsMap.size (JsMap.delete k m) <= JsMap.size m.
Proof.
  unfold JsMap.size. induction m as [|[k0 v0] rest IH].
  - apply Z.le_refl.
  - cbn [JsMap.delete]. destruct (sameKey k0 k); cbn [List.length]; lia.
Qed.

Lemma size_delete_has (k : K) (m : JsMap.t K V) :
  JsMap.has k m = true -> JsMap.size (JsMap.delete k m) = JsMap.size m - 1.
Proof.
  unfold JsMap.size, JsMap.has.
  induction m as [|[k0 v0] rest IH]; cbn [JsMap.get JsMap.delete];
    [discriminate|].
  destruct (sameKey k0 k) eqn:E.
  - intros _. cbn [List.length]. lia.
  - intros Hh. cbn [List.length]. specialize (IH Hh). lia.
Qed.

Lemma get_delete_other (k k' : K) (m : JsMap.t K V) :
  k <> k' -> JsMap.get k' (JsMap.delete k m) = JsMap.get k' m.
Proof.
  intros Hne. induction m as [|[k0 v0] rest IH]; simpl; [reflexivity|].
  destruct (sameKey k0 k) eqn:E.
  - apply sameKey_eq in E. subst k0. now rewrite (sameKey_neq k k').
  - simpl. now rewrite IH.
Qed.

Lemma set_new_appends (k : K) (v : V) (m : JsMap.t K V) :
  JsMap.has k m = false -> JsMap.set k v m = m ++ [(k, v)].
Proof.
  unfold JsMap.has. induction m as [|[k0 v0] rest IH]; cbn [JsMap.get JsMap.set app].
  - reflexivity.
  - destruct (sameKey k0 k); [discriminate|]. intros Hh. now rewrite IH.
Qed.

Lemma keys_delete_incl (k k0 : K) (m : JsMap.t K V) :
  In k (JsMap.keys (JsMap.delete k0 m)) -> In k (JsMap.keys m).
Proof.
  induction m as [|[k1 v1] rest IH]; cbn [JsMap.delete]; [auto|].
  destruct (sameKey k1 k0).
  - intros Hin. now right.
  - cbn [JsMap.keys List.map fst]. intros [<- | Hin]; [now left|].
    right. now apply IH.
Qed.

Lemma NoDup_keys_delete (k : K) (m : JsMap.t K V) :
  NoDup (JsMap.keys m) -> NoDup (JsMap.keys (JsMap.delete k m)).
Proof.
  induction m as [|[k1 v1] rest IH]; cbn [JsMap.delete JsMap.keys List.map fst];
    intros Hnd; [constructor|].
  inversion Hnd as [|? ? Hnotin Hnd']; subst.
  destruct (sameKey k1 k); [assumption|].
  cbn [JsMap.keys List.map fst]. constructor.
  - intros Hin. apply Hnotin. now apply keys_delete_incl in Hin.
  - now apply IH.
Qed.

Lemma get_none_keys (k : K) (m : JsMap.t K V) :
  ~ In k (JsMap.keys m) -> JsMap.get k m = None.
Proof.
  intros Hk. destruct (JsMap.get k m) as [v|] eqn:E; [|reflexivity].
  exfalso. apply Hk. apply has_In_keys. unfold JsMap.has. now rewrite E.
Qed.

Lemma get_delete_same (k : K) (m : JsMap.t K V) :
  NoDup (JsMap.keys m) -> JsMap.get k (JsMap.delete k m) = None.
Proof.
  induction m as [|[k1 v1] rest IH]; cbn [JsMap.delete JsMap.keys List.map fst];
    intros Hnd; [reflexivity|].
  inversion Hnd as [|? ? Hnotin Hnd']; subst.
  destruct (sameKey k1 k) eqn:E.
  - apply sameKey_eq in E. subst k1. now apply get_none_keys.
  - cbn [JsMap.get]. rewrite E. now apply IH.
Qed.

Lemma In_get (k : K) (v : V) (m : JsMap.t K V) :
  NoDup (JsMap.keys m) -> In (k, v) m -> JsMap.get k m = Some v.
Proof.
  induction m as [|[k1 v1] rest IH]; cbn [JsMap.keys List.map fst];
    intros Hnd Hin; [contradiction|].
  inversion Hnd as [|? ? Hnotin Hnd']; subst. cbn [JsMap.get].
  destruct Hin as [[= -> ->] | Hin].
  - now rewrite sameKey_refl.
  - destruct (sameKey k1 k) eqn:E.
    + apply sameKey_eq in E. subst k1. exfalso. apply Hnotin.
      apply in_map_iff. now exists (k, v).
    + now apply IH.
Qed.

Lemma In_delete (k : K) (kv : K * V) (m : JsMap.t K V) :
  NoDup (JsMap.keys m) -> In kv (JsMap.delete k m) -> In kv m /\ fst kv <> k.
Proof.
  induction m as [|[k1 v1] rest IH]; cbn [JsMap.delete JsMap.keys List.map fst];
    intros Hnd Hin; [contradiction|].
  inversion Hnd as [|? ? Hnotin Hnd']; subst.
  destruct (sameKey k1 k) eqn:E.
  - apply sameKey_eq in E. subst k1. split; [now right|].
    intros <-. apply Hnotin. apply in_map_iff. now exists kv.
  - destruct Hin as [<- | Hin].
    + split; [now left|]. cbn [fst]. intros ->. now rewrite sameKey_refl in E.
    + destruct (IH Hnd' Hin). split; [now right | assumption].
Qed.

Lemma size_nonneg (m : JsMap.t K V) : 0 <= JsMap.size m.
Proof. unfold JsMap.size. lia. Qed.

End MapFacts.

(** ** Sorting with any comparison function *)

Section SortBy.
Context {A : Type} (compareFn : A -> A -> Z).
Hypothesis compareFn_total : forall a b, 0 < compareFn a b -> compareFn b a <= 0.

Let precedes : A -> A -> Prop := fun a b => compareFn a b <= 0.

Lemma insert_by_perm (x : A) (l : list A) :
  Permutation (JsArray.insert compareFn x l) (x :: l).
Proof.
  induction l as [|y ys IH]; cbn [JsArray.insert]; [apply Permutation_refl|].
  destruct (compareFn x y <=? 0); [apply Permutation_refl|].
  apply perm_trans with (y :: x :: ys); [now apply perm_skip|apply perm_swap].
Qed.

Lemma sort_by_perm (l : list A) : Permutation (JsArray.sort compareFn l) l.
Proof.
  induction l as [|x xs IH]; cbn [JsArray.sort]; [apply perm_nil|].
  apply perm_trans with (x :: JsArray.sort compareFn xs);
    [apply insert_by_perm|now apply perm_skip].
Qed.

Lemma insert_by_hdrel (a x : A) (l : list A) :
  precedes a x -> HdRel precedes a l -> HdRel precedes a (JsArray.insert compareFn x l).
Proof.
  intros Hax Hl. destruct l as [|y ys]; cbn [JsArray.insert]; [now constructor|].
  destruct (compareFn x y <=? 0); [now constructor|].
  constructor. now inversion Hl.
Qed.

Lemma insert_by_sorted (x : A) (l : list A) :
  Sorted precedes l -> Sorted precedes (JsArray.insert compareFn x l).
Proof.
  induction l as [|y ys IH]; intros Hs; cbn [JsArray.insert];
    [repeat constructor|].
  destruct (compareFn x y <=? 0) eqn:E.
  - constructor; [assumption|]. constructor. now apply Z.leb_le.
  - inversion Hs as [|? ? Hs' Hhd]; subst. constructor; [now apply IH|].
    apply insert_by_hdrel; [|assumption].
    apply compareFn_total. apply Z.leb_gt in E. lia.
Qed.

Lemma sort_by_sorted (l : list A) : Sorted precedes (JsArray.sort compareFn l).
Proof.
  induction l as [|x xs IH]; cbn [JsArray.sort]; [constructor|].
  now apply insert_by_sorted.
Qed.

End SortBy.

(** ** Sets *)

Section SetFacts.
Context {K : Type} `{SameValueZero K}.

Lemma set_has_In (x : K) (s : JsSet.t K) : JsSet.has x s = true <-> In x s.
Proof.
  unfold JsSet.has. rewrite existsb_exists. split.
  - intros (y & Hy & E). apply sameKey_eq in E. now subst.
  - intros Hx. exists x. split; [assumption|now apply sameKey_eq].
Qed.

Lemma set_add_In (x y : K) (s : JsSet.t K) :
  In y (JsSet.add x s) <-> y = x \/ In y s.
Proof.
  unfold JsSet.add. destruct (JsSet.has x s) eqn:E.
  - apply set_has_In in E. split; [tauto|]. intros [->|Hy]; assumption.
  - rewrite in_app_iff. cbn [In]. intuition congruence.
Qed.

Lemma set_add_NoDup (x : K) (s : JsSet.t K) : NoDup s -> NoDup (JsSet.add x s).
Proof.
  intros Hn. unfold JsSet.add. destruct (JsSet.has x s) eqn:E; [assumption|].
  apply NoDup_rev in Hn. rewrite <- (rev_involutive (s ++ [x])).
  apply NoDup_rev. rewrite rev_app_distr. cbn [rev app]. constructor; [|assumption].
  rewrite <- in_rev. intros Hin. apply set_has_In in Hin. congruence.
Qed.

Lemma set_fromArray_scan (l : list K) (s : JsSet.t K) :
  NoDup s ->
  NoDup (List.fold_left (fun s x => JsSet.add x s) l s) /\
  forall y, In y (List.fold_left (fun s x => JsSet.add x s) l s) <-> In y s \/ In y l.
Proof.
  revert s. induction l as [|x l IH]; intros s Hn; cbn [fold_left].
  - split; [assumption|]. intros y. cbn [In]. tauto.
  - destruct (IH (JsSet.add x s) (set_add_NoDup x s Hn)) as [IH1 IH2].
    split; [assumption|]. intros y. rewrite IH2, set_add_In. cbn [In].
    intuition congruence.
Qed.

Lemma set_fromArray_NoDup (l : list K) : NoDup (JsSet.fromArray l).
Proof. apply (set_fromArray_scan l JsSet.empty). constructor. Qed.

Lemma set_fromArray_In (l : list K) (y : K) : In y (JsSet.fromArray l) <-> In y l.
Proof.
  unfold JsSet.fromArray.
  rewrite (proj2 (set_fromArray_scan l JsSet.empty (NoDup_nil _)) y).
  unfold JsSet.empty. cbn [In]. tauto.
Qed.

End SetFacts.

End JsFacts.

(* ================================================================= *)
(** * The blame parser *)

Module ParserSpec.

Import JsString.
Import BlameParser.
Import JsFacts.
Import Predicates.

Lemma newBlameInfo_headerState (h : HeaderMatch) : headerState (newBlameInfo h).
Proof. reflexivity. Qed.

Lemma parseMetaLine_headerState (metaLine : string) (b : BlameLineInfo) :
  headerState b -> headerState (parseMetaLine metaLine b).
Proof.
  unfold headerState, parseMetaLine. intros Hb.
  repeat match goal with
         | |- context [if ?c then _ else _] => destruct c
         end; exact Hb.
Qed.

Lemma parseMetaLine_lineNumber (metaLine : string) (b : BlameLineInfo) :
  lineNumber (parseMetaLine metaLine b) = lineNumber b.
Proof.
  unfold parseMetaLine.
  repeat match goal with
         | |- context [if ?c then _ else _] => destruct c
         end; reflexivity.
Qed.

Lemma markUncommitted_rule (b : BlameLineInfo) :
  headerState b -> uncommittedRule (markUncommitted b).
Proof.
  unfold headerState, uncommittedRule, markUncommitted, strictEq. intros Hb.
  destruct (String.eqb (author b) "Not Committed Yet") eqn:Ea;
    destruct (includes (toLowerCase (author b)) "not committed") eqn:Ei;
    cbn [orb setIsUncommitted isUncommitted commitSha author].
  - apply String.eqb_eq in Ea. split; auto.
  - apply String.eqb_eq in Ea. split; auto.
  - split; auto.
  - apply String.eqb_neq in Ea. rewrite Hb. split.
    + intros Hs. left. now apply String.eqb_eq.
    + intros [Hs | [Hn | Hi]].
      * now apply String.eqb_eq.
      * contradiction.
      * congruence.
Qed.

(** Induction over the two loops of the scan: an invariant [inv] of the
    map and an invariant [building] of the record under construction. *)
Section ScanInvariant.
Variable inv : JsMap.t Z BlameLineInfo -> Prop.
Variable building : BlameLineInfo -> Prop.
Hypothesis building_new : forall h, building (newBlameInfo h).
Hypothesis building_meta :
  forall metaLine b, building b -> building (parseMetaLine metaLine b).
Hypothesis inv_store :
  forall b m, building b -> inv m -> inv (storeBlock b m).

Lemma scan_invariant (rawLines : list string) :
  (forall m, inv m -> inv (scanBlocks rawLines m)) /\
  (forall b m, building b -> inv m -> inv (scanMetadata rawLines b m)).
Proof.
  induction rawLines as [|line rest [IHb IHm]]; split; cbn [scanBlocks scanMetadata].
  - auto.
  - auto.
  - intros m Hm. destruct (isEmpty (trim line)); [auto|].
    destruct (matchHeader line) as [h|].
    + apply IHm; auto.
    + destruct (startsWith line TAB); auto.
  - intros b m Hb Hm. destruct (startsWith line TAB).
    + apply IHb. auto.
    + apply IHm; auto.
Qed.

End ScanInvariant.

Lemma scanBlocks_rule (rawLines : list string) (m : JsMap.t Z BlameLineInfo) :
  (forall kv, In kv m -> uncommittedRule (snd kv)) ->
  forall kv, In kv (scanBlocks rawLines m) -> uncommittedRule (snd kv).
Proof.
  apply (scan_invariant
           (fun m => forall kv, In kv m -> uncommittedRule (snd kv))
           headerState).
  - apply newBlameInfo_headerState.
  - apply parseMetaLine_headerState.
  - intros b m0 Hb Hm0 kv Hin. unfold storeBlock in Hin.
    apply In_set in Hin. destruct Hin as [-> | Hin].
    + now apply markUncommitted_rule.
    + now apply Hm0.
Qed.

Lemma scanBlocks_NoDup (rawLines : list string) (m : JsMap.t Z BlameLineInfo) :
  NoDup (JsMap.keys m) -> NoDup (JsMap.keys (scanBlocks rawLines m)).
Proof.
  apply (scan_invariant (fun m => NoDup (JsMap.keys m)) (fun _ => True)); auto.
  intros b m0 _ Hm0. unfold storeBlock. now apply NoDup_keys_set.
Qed.

Lemma scanBlocks_keyed (rawLines : list string) (m : JsMap.t Z BlameLineInfo) :
  (forall kv, In kv m -> lineNumber (snd kv) = fst kv) ->
  forall kv, In kv (scanBlocks rawLines m) -> lineNumber (snd kv) = fst kv.
Proof.
  apply (scan_invariant
           (fun m => forall kv, In kv m -> lineNumber (snd kv) = fst kv)
           (fun _ => True)); auto.
  intros b m0 _ Hm0 kv Hin. unfold storeBlock in Hin.
  apply In_set in Hin. destruct Hin as [-> | Hin]; [reflexivity|now apply Hm0].
Qed.

Lemma parseBlameOutput_lines (blameOutput : string) :
  lines (parseBlameOutput blameOutput) = JsMap.empty \/
  lines (parseBlameOutput blameOutput) = scanBlocks (split blameOutput) JsMap.empty.
Proof.
  unfold parseBlameOutput, tryScan.
  destruct (isEmpty blameOutput || isEmpty (trim blameOutput)); [left|right];
    reflexivity.
Qed.

(** [parseInt] on a header's third group is its decimal value. *)
Lemma parseInt_leading_digit (c : ascii) (s : string) :
  isDigit c = true ->
  parseInt (String c s) = Some (readDigits (String c s) 0).
Proof.
  intros Hc. unfold parseInt. cbn [trimStart].
  assert (Hw : isWhiteSpace c = false).
  { destruct c as [[] [] [] [] [] [] [] []]; vm_compute in Hc |- *;
      congruence. }
  rewrite Hw.
  assert (Hs : (String c s = String "-"%char s -> False) /\
               (String c s = String "+"%char s -> False)).
  { split; intros [= ->]; discriminate. }
  destruct c as [[] [] [] [] [] [] [] []]; try discriminate Hc;
    cbn [readDigits]; rewrite ?Hc; reflexivity.
Qed.

Lemma digitRun_head (s g rest : string) :
  digitRun s = (g, rest) ->
  match g with
  | EmptyString => True
  | String c _ => isDigit c = true
  end.
Proof.
  destruct s as [|c s']; cbn [digitRun].
  - intros [= <- <-]. exact I.
  - destruct (isDigit c) eqn:Ec.
    + destruct (digitRun s') as [g' rest']. intros [= <- <-]. exact Ec.
    + intros [= <- <-]. exact I.
Qed.

Lemma digits_head (s g rest : string) :
  digits s = Some (g, rest) ->
  exists c g', g = String c g' /\ isDigit c = true.
Proof.
  unfold digits. destruct (digitRun s) as [g0 rest0] eqn:E.
  apply digitRun_head in E. destruct g0 as [|c g']; [discriminate|].
  intros [= <- <-]. now exists c, g'.
Qed.

Lemma matchHeader_group3 (line : string) (h : HeaderMatch) :
  matchHeader line = Some h ->
  exists c g', group3 h = String c g' /\ isDigit c = true.
Proof.
  unfold matchHeader.
  destruct (hexGroup 40 line) as [[sha r1]|]; [|discriminate].
  destruct (spaces r1) as [r2|]; [|discriminate].
  destruct (digits r2) as [[orig r3]|]; [|discriminate].
  destruct (spaces r3) as [r4|]; [|discriminate].
  destruct (digits r4) as [[final r5]|] eqn:E; [|discriminate].
  apply digits_head in E.
  destruct r5 as [|c5 r5'].
  - intros [= <-]. exact E.
  - destruct (spaces (String c5 r5')) as [r6|]; [|discriminate].
    destruct (digits r6) as [[count [|? ?]]|]; try discriminate.
    intros [= <-]. exact E.
Qed.

Lemma parseInt_digits (line : string) (h : HeaderMatch) :
  matchHeader line = Some h -> parseInt (group3 h) = Some (finalLineOf h).
Proof.
  intros Hm. apply matchHeader_group3 in Hm.
  destruct Hm as (c & g' & Hg & Hc). unfold finalLineOf. rewrite Hg.
  now apply parseInt_leading_digit.
Qed.

(** C5.  Every record of the map that [parseBlameOutput] returns has
    [isUncommitted] true exactly when its commit id is the sentinel of
    40 zeros, or its author is "Not Committed Yet", or its lower cased
    author contains "not committed"; so a sentinel commit id forces
    [isUncommitted] whatever the author field holds. *)
Theorem parseBlameOutput_isUncommitted
  (blameOutput : string) (n : Z) (info : BlameLineInfo) :
  In (n, info) (lines (parseBlameOutput blameOutput)) ->
  (isUncommitted info = true <->
   (commitSha info = UNCOMMITTED_SHA_PREFIX \/
    author info = "Not Committed Yet"%string \/
    includes (toLowerCase (author info)) "not committed" = true)) /\
  (commitSha info = UNCOMMITTED_SHA_PREFIX -> isUncommitted info = true).
Proof.
  intros Hin.
  assert (Hrule : uncommittedRule info).
  { destruct (parseBlameOutput_lines blameOutput) as [E | E];
      rewrite E in Hin.
    - contradiction.
    - apply (scanBlocks_rule (split blameOutput) JsMap.empty
               (fun kv (F : In kv []) => match F with end) (n, info) Hin). }
  split; [exact Hrule|].
  intros Hs. apply Hrule. now left.
Qed.

Lemma parseBlameOutput_isUncommitted_witness :
  isUncommitted Samples.sentinelInfo = true /\
  author Samples.sentinelInfo = "Jane Smith"%string.
Proof.
  split; [|reflexivity].
  apply (parseBlameOutput_isUncommitted Samples.SENTINEL_BLOCK 1 Samples.sentinelInfo).
  - vm_compute. left. reflexivity.
  - reflexivity.
Defined.

(** C10.  Whatever the input, the result of [parseBlameOutput] has
    [lineCount] equal to the number of entries of its [lines] map, whose
    keys are pairwise distinct; a failure result, which only the [catch]
    branch builds, has an empty map and [lineCount] 0. *)
Theorem parseBlameOutput_lineCount (blameOutput : string) :
  let result := parseBlameOutput blameOutput in
  lineCount result = JsMap.size (lines result) /\
  NoDup (JsMap.keys (lines result)) /\
  (success result = false -> lines result = JsMap.empty /\ lineCount result = 0) /\
  (forall message,
     let failure := parseFailure message in
     success failure = false /\ lines failure = JsMap.empty /\
     lineCount failure = 0 /\ lineCount failure = JsMap.size (lines failure)).
Proof.
  cbv zeta. repeat split.
  - unfold parseBlameOutput, tryScan.
    destruct (isEmpty blameOutput || isEmpty (trim blameOutput)); reflexivity.
  - destruct (parseBlameOutput_lines blameOutput) as [E | E]; rewrite E.
    + constructor.
    + apply scanBlocks_NoDup. constructor.
  - revert H. unfold parseBlameOutput, tryScan.
    destruct (isEmpty blameOutput || isEmpty (trim blameOutput)); discriminate.
  - revert H. unfold parseBlameOutput, tryScan.
    destruct (isEmpty blameOutput || isEmpty (trim blameOutput)); discriminate.
Qed.

(** The sample of the unit tests: three lines, the third uncommitted. *)
Example parse_sample :
  let result := parseBlameOutput Samples.SAMPLE_BLAME_OUTPUT in
  success result = true /\ lineCount result = 3 /\
  JsMap.keys (lines result) = [1; 2; 3] /\
  List.map (fun kv => isUncommitted (snd kv)) (lines result) = [false; false; true] /\
  List.map (fun kv => authorTime (snd kv)) (lines result)
  = [Some 1718452800; Some 1718366400; Some 1718539200].
Proof. vm_compute. repeat split. Qed.

Example parse_blank :
  parseBlameOutput "" = Samples.emptyResult /\
  parseBlameOutput (Samples.joinLines ["   "; ""; "   "]%string) = Samples.emptyResult.
Proof. vm_compute. split; reflexivity. Qed.

Lemma isRecent_spec (cutoffTimestamp : Z) (info : BlameLineInfo) :
  isRecent cutoffTimestamp info = true <->
  isUncommitted info = false /\
  exists seconds, authorTime info = Some seconds /\
                  (inject_Z cutoffTimestamp / 1000 <= inject_Z seconds)%Q.
Proof.
  unfold isRecent, geRatio. rewrite andb_true_iff, negb_true_iff.
  destruct (authorTime info) as [t|].
  - rewrite Qle_bool_iff. split.
    + intros [Hu Hq]. split; [assumption|]. now exists t.
    + intros [Hu (s & [= <-] & Hq)]. now split.
  - split.
    + intros [_ Hf]. discriminate.
    + intros [_ (s & Hs & _)]. discriminate.
Qed.

(** C6.  [filterLinesByTime] returns, in ascending order, exactly the
    line numbers of the records that are not uncommitted and whose
    [authorTime] (seconds) is at least [cutoffTimestamp / 1000]: the
    result is sorted, it is a rearrangement of the keys of the
    qualifying entries, and a number is in it exactly when some
    qualifying record is stored under it. *)
Theorem filterLinesByTime_exact (blameResult : BlameParseResult) (cutoffTimestamp : Z) :
  let result := filterLinesByTime blameResult cutoffTimestamp in
  Sorted Z.le result /\
  Permutation result
    (JsMap.keys (List.filter (fun kv => isRecent cutoffTimestamp (snd kv))
                   (lines blameResult))) /\
  (forall n,
     In n result <->
     exists info,
       In (n, info) (lines blameResult) /\
       isUncommitted info = false /\
       exists seconds,
         authorTime info = Some seconds /\
         (inject_Z cutoffTimestamp / 1000 <= inject_Z seconds)%Q).
Proof.
  cbv zeta.
  assert (E : filterLinesByTime blameResult cutoffTimestamp
              = JsArray.sortAscending
                  (JsMap.keys (List.filter (fun kv => isRecent cutoffTimestamp (snd kv))
                                 (lines blameResult)))).
  { unfold filterLinesByTime.
    rewrite (forEach_push
               (fun info (_ : Z) =>
                  negb (isUncommitted info) &&
                  geRatio (authorTime info) (inject_Z cutoffTimestamp / 1000)%Q)
               (fun (_ : BlameLineInfo) (lineNumber : Z) => lineNumber)).
    reflexivity. }
  rewrite E. split; [apply sortAscending_sorted|].
  split; [apply sortAscending_perm|].
  intros n. rewrite sortAscending_In. unfold JsMap.keys. rewrite in_map_iff.
  split.
  - intros ([k info] & Hk & Hin). simpl in Hk. subst k.
    apply filter_In in Hin. destruct Hin as [Hin Hr]. simpl in Hr.
    apply isRecent_spec in Hr. exists info. now split.
  - intros (info & Hin & Hu & Hs). exists (n, info). split; [reflexivity|].
    apply filter_In. split; [assumption|]. simpl.
    apply isRecent_spec. now split.
Qed.

(** The case of the unit test: a cutoff between the times of lines 2
    and 1 keeps line 1 only. *)
Example filterLinesByTime_sample :
  filterLinesByTime (parseBlameOutput Samples.SAMPLE_BLAME_OUTPUT) (1718400000 * 1000) = [1] /\
  filterLinesByTime (parseBlameOutput Samples.SAMPLE_BLAME_OUTPUT) (1000000000 * 1000) = [1; 2].
Proof. vm_compute. split; reflexivity. Qed.

(* ----------------------------------------------------------------- *)
(** ** The other readers of a parse result *)

Lemma filterLinesByTime_In (blameResult : BlameParseResult) (cutoffTimestamp n : Z) :
  In n (filterLinesByTime blameResult cutoffTimestamp) <->
  exists info, In (n, info) (lines blameResult) /\ isRecent cutoffTimestamp info = true.
Proof.
  unfold filterLinesByTime.
  rewrite (forEach_push
             (fun info (_ : Z) =>
                negb (isUncommitted info) &&
                geRatio (authorTime info) (inject_Z cutoffTimestamp / 1000)%Q)
             (fun (_ : BlameLineInfo) (lineNumber : Z) => lineNumber)).
  rewrite sortAscending_In. cbn [app]. rewrite in_map_iff. split.
  - intros ([k info] & Hk & Hin). cbn [fst snd] in *. subst k.
    apply filter_In in Hin. destruct Hin as [Hin Hr]. now exists info.
  - intros (info & Hin & Hr). exists (n, info). split; [reflexivity|].
    apply filter_In. now split.
Qed.

Lemma getUncommittedLines_sorted_keys (blameResult : BlameParseResult) :
  getUncommittedLines blameResult
  = JsArray.sortAscending
      (JsMap.keys (List.filter (fun kv => isUncommitted (snd kv)) (lines blameResult))).
Proof.
  unfold getUncommittedLines.
  rewrite (forEach_push
             (fun info (_ : Z) => isUncommitted info)
             (fun (_ : BlameLineInfo) (lineNumber : Z) => lineNumber)).
  reflexivity.
Qed.

Lemma getUncommittedLines_In (blameResult : BlameParseResult) (n : Z) :
  In n (getUncommittedLines blameResult) <->
  exists info, In (n, info) (lines blameResult) /\ isUncommitted info = true.
Proof.
  rewrite getUncommittedLines_sorted_keys, sortAscending_In.
  unfold JsMap.keys. rewrite in_map_iff. split.
  - intros ([k info] & Hk & Hin). cbn [fst snd] in *. subst k.
    apply filter_In in Hin. destruct Hin as [Hin Hu]. now exists info.
  - intros (info & Hin & Hu). exists (n, info). split; [reflexivity|].
    apply filter_In. now split.
Qed.

(** X1. [getUncommittedLines] returns, in ascending order, exactly the keys
    of the records marked uncommitted. *)
Theorem getUncommittedLines_exact (blameResult : BlameParseResult) :
  Sorted Z.le (getUncommittedLines blameResult) /\
  Permutation (getUncommittedLines blameResult)
    (JsMap.keys (List.filter (fun kv => isUncommitted (snd kv)) (lines blameResult))) /\
  (forall n,
     In n (getUncommittedLines blameResult) <->
     exists info, In (n, info) (lines blameResult) /\ isUncommitted info = true).
Proof.
  split; [|split].
  - rewrite getUncommittedLines_sorted_keys. apply sortAscending_sorted.
  - rewrite getUncommittedLines_sorted_keys. apply sortAscending_perm.
  - apply getUncommittedLines_In.
Qed.

Lemma In_unique_key {V : Type} (m : JsMap.t Z V) (n : Z) (v v' : V) :
  NoDup (JsMap.keys m) -> In (n, v) m -> In (n, v') m -> v = v'.
Proof.
  induction m as [|[k0 v0] rest IH]; intros Hnd Hv Hv'; [contradiction|].
  cbn [JsMap.keys List.map fst] in Hnd. inversion Hnd as [|? ? Hnotin Hnd']; subst.
  assert (Hk : forall w, In (k0, w) rest -> False).
  { intros w Hw. apply Hnotin. apply in_map_iff. now exists (k0, w). }
  destruct Hv as [Hv | Hv]; destruct Hv' as [Hv' | Hv'].
  - congruence.
  - exfalso. injection Hv as -> _. now apply (Hk v').
  - exfalso. injection Hv' as -> _. now apply (Hk v).
  - now apply IH.
Qed.

(** X2. In a map with one record per line number, the lines that
    [filterLinesByTime] reports and the lines that
    [getUncommittedLines] reports never overlap. *)
Theorem recent_and_uncommitted_disjoint (blameResult : BlameParseResult)
  (cutoffTimestamp n : Z) :
  NoDup (JsMap.keys (lines blameResult)) ->
  In n (filterLinesByTime blameResult cutoffTimestamp) ->
  ~ In n (getUncommittedLines blameResult).
Proof.
  intros Hnd Hrecent Hunc.
  apply filterLinesByTime_In in Hrecent. destruct Hrecent as (info & Hin & Hr).
  apply getUncommittedLines_In in Hunc. destruct Hunc as (info' & Hin' & Hu).
  assert (info = info') by apply (In_unique_key _ _ _ _ Hnd Hin Hin').
  subst info'. unfold isRecent in Hr. rewrite Hu in Hr. discriminate.
Qed.

Lemma recent_and_uncommitted_disjoint_witness :
  ~ In 1 (getUncommittedLines (parseBlameOutput Samples.SAMPLE_BLAME_OUTPUT)).
Proof.
  apply (recent_and_uncommitted_disjoint
           (parseBlameOutput Samples.SAMPLE_BLAME_OUTPUT) (1718400000 * 1000) 1).
  - vm_compute. repeat constructor; intros H; repeat destruct H as [H | H];
      try discriminate H; try contradiction.
  - vm_compute. now left.
Defined.

(* ----------------------------------------------------------------- *)
(** ** Shape and origin of the stored records *)

Lemma readDigits_nonneg (s : string) (acc : Z) : 0 <= acc -> 0 <= readDigits s acc.
Proof.
  revert acc. induction s as [|c s IH]; intros acc Hacc; cbn [readDigits].
  - assumption.
  - destruct (isDigit c) eqn:E; [|assumption].
    apply IH. unfold isDigit in E. apply andb_true_iff in E.
    destruct E as [E _]. apply Z.leb_le in E. unfold digitValue. lia.
Qed.

Lemma hexGroup_spec (n : nat) (s g rest : string) :
  hexGroup n s = Some (g, rest) ->
  String.length g = n /\ allChars isLowerHex g = true /\ s = (g ++ rest)%string.
Proof.
  revert s g rest. induction n as [|n IH]; intros s g rest; cbn [hexGroup].
  - intros [= <- <-]. repeat split.
  - destruct s as [|c s']; [discriminate|].
    destruct (isLowerHex c) eqn:Ec; [|discriminate].
    destruct (hexGroup n s') as [[g' rest']|] eqn:E; [|discriminate].
    intros [= <- <-]. destruct (IH _ _ _ E) as (Hl & Ha & Hs).
    cbn [String.length allChars append]. rewrite Ec, Ha, Hl, <- Hs.
    repeat split.
Qed.

Lemma matchHeader_group1 (line : string) (h : HeaderMatch) :
  matchHeader line = Some h ->
  String.length (group1 h) = 40%nat /\ allChars isLowerHex (group1 h) = true /\
  exists rest, line = (group1 h ++ rest)%string.
Proof.
  unfold matchHeader.
  destruct (hexGroup 40 line) as [[sha r1]|] eqn:E; [|discriminate].
  apply hexGroup_spec in E. destruct E as (Hl & Ha & Hs).
  destruct (spaces r1) as [r2|]; [|discriminate].
  destruct (digits r2) as [[orig r3]|]; [|discriminate].
  destruct (spaces r3) as [r4|]; [|discriminate].
  destruct (digits r4) as [[final r5]|]; [|discriminate].
  destruct r5 as [|c5 r5'].
  - intros [= <-]. cbn [group1]. repeat split; try assumption. now exists r1.
  - destruct (spaces (String c5 r5')) as [r6|]; [|discriminate].
    destruct (digits r6) as [[count [|? ?]]|]; try discriminate.
    intros [= <-]. cbn [group1]. repeat split; try assumption. now exists r1.
Qed.

Lemma parseMetaLine_commitSha (metaLine : string) (b : BlameLineInfo) :
  commitSha (parseMetaLine metaLine b) = commitSha b.
Proof.
  unfold parseMetaLine.
  repeat match goal with
         | |- context [if ?c then _ else _] => destruct c
         end; reflexivity.
Qed.

Lemma markUncommitted_keeps (b : BlameLineInfo) :
  lineNumber (markUncommitted b) = lineNumber b /\
  commitSha (markUncommitted b) = commitSha b.
Proof. unfold markUncommitted. destruct (_ || _); split; reflexivity. Qed.

(** The induction over the two loops once more, with the header line a
    record was started from known to be a line of the input [input]. *)
Section ScanOrigin.
Variable input : list string.
Variable inv : JsMap.t Z BlameLineInfo -> Prop.
Variable building : BlameLineInfo -> Prop.
Hypothesis building_header :
  forall line h, In line input -> matchHeader line = Some h -> building (newBlameInfo h).
Hypothesis building_meta :
  forall metaLine b, building b -> building (parseMetaLine metaLine b).
Hypothesis inv_store :
  forall b m, building b -> inv m -> inv (storeBlock b m).

Lemma scan_origin (rawLines : list string) :
  incl rawLines input ->
  (forall m, inv m -> inv (scanBlocks rawLines m)) /\
  (forall b m, building b -> inv m -> inv (scanMetadata rawLines b m)).
Proof.
  induction rawLines as [|line rest IH]; intros Hincl;
    cbn [scanBlocks scanMetadata].
  - split; auto.
  - destruct IH as [IHb IHm].
    { intros l Hl. apply Hincl. now right. }
    split.
    + intros m Hm. destruct (isEmpty (trim line)); [auto|].
      destruct (matchHeader line) as [h|] eqn:E.
      * apply IHm; [|assumption]. apply (building_header line); [|assumption].
        apply Hincl. now left.
      * destruct (startsWith line TAB); auto.
    + intros b m Hb Hm. destruct (startsWith line TAB).
      * apply IHb. auto.
      * apply IHm; auto.
Qed.

End ScanOrigin.

(** X3. Every record of a parse result is stored under its own
    [lineNumber], which is not negative; its commit id is 40 lower case
    hexadecimal characters; and both were read from a header line of
    the input.  In particular [getBlameForLine] answers with a record
    of the line asked for. *)
Theorem parseBlameOutput_records (blameOutput : string) (n : Z) (info : BlameLineInfo) :
  In (n, info) (lines (parseBlameOutput blameOutput)) ->
  lineNumber info = n /\ 0 <= n /\
  String.length (commitSha info) = 40%nat /\
  allChars isLowerHex (commitSha info) = true /\
  (exists line h,
     In line (split blameOutput) /\ matchHeader line = Some h /\
     finalLineOf h = n /\ group1 h = commitSha info) /\
  getBlameForLine (parseBlameOutput blameOutput) n = Some info.
Proof.
  intros Hin.
  assert (Hshape :
            lineNumber info = n /\
            exists line h,
              In line (split blameOutput) /\ matchHeader line = Some h /\
              finalLineOf h = lineNumber info /\ group1 h = commitSha info).
  { destruct (parseBlameOutput_lines blameOutput) as [E | E]; rewrite E in Hin;
      [contradiction|].
    pose (origin := fun b : BlameLineInfo =>
                      exists line h,
                        In line (split blameOutput) /\ matchHeader line = Some h /\
                        finalLineOf h = lineNumber b /\ group1 h = commitSha b).
    assert (G : forall kv, In kv (scanBlocks (split blameOutput) JsMap.empty) ->
                           lineNumber (snd kv) = fst kv /\ origin (snd kv)).
    { apply (scan_origin (split blameOutput)
               (fun m => forall kv, In kv m ->
                                    lineNumber (snd kv) = fst kv /\ origin (snd kv))
               origin).
      - intros line h Hl Hm. exists line, h. now repeat split.
      - intros metaLine b (line & h & Hl & Hm & Hn & Hs). exists line, h.
        rewrite parseMetaLine_lineNumber, parseMetaLine_commitSha.
        now repeat split.
      - intros b m (line & h & Hl & Hm & Hn & Hs) Hinv kv Hkv.
        unfold storeBlock in Hkv. apply In_set in Hkv.
        destruct Hkv as [-> | Hkv]; [|now apply Hinv].
        cbn [fst snd]. split; [reflexivity|]. exists line, h.
        destruct (markUncommitted_keeps b) as [-> ->]. now repeat split.
      - apply incl_refl.
      - intros kv []. }
    exact (G (n, info) Hin). }
  destruct Hshape as [Hn (line & h & Hl & Hm & Hf & Hs)].
  destruct (matchHeader_group1 line h Hm) as (Hlen & Hhex & _).
  split; [assumption|]. split.
  { rewrite <- Hn, <- Hf. unfold finalLineOf. apply readDigits_nonneg. lia. }
  rewrite <- Hs. split; [assumption|]. split; [assumption|]. split.
  { exists line, h. rewrite Hf. now repeat split. }
  unfold getBlameForLine.
  assert (Hnd : NoDup (JsMap.keys (lines (parseBlameOutput blameOutput)))).
  { destruct (parseBlameOutput_lines blameOutput) as [E | E]; rewrite E.
    - constructor.
    - apply scanBlocks_NoDup. constructor. }
  destruct (JsMap.get n (lines (parseBlameOutput blameOutput))) as [info'|] eqn:Eg.
  - apply get_In in Eg. f_equal. apply (In_unique_key _ n _ _ Hnd Eg Hin).
  - exfalso. assert (Hh : JsMap.has n (lines (parseBlameOutput blameOutput)) = true).
    { apply has_In_keys. apply in_map_iff. now exists (n, info). }
    unfold JsMap.has in Hh. rewrite Eg in Hh. discriminate.
Qed.

Lemma parseBlameOutput_records_witness :
  lineNumber Samples.sentinelInfo = 1 /\
  getBlameForLine (parseBlameOutput Samples.SENTINEL_BLOCK) 1 = Some Samples.sentinelInfo.
Proof.
  destruct (parseBlameOutput_records Samples.SENTINEL_BLOCK 1 Samples.sentinelInfo)
    as (H1 & _ & _ & _ & _ & H2).
  - vm_compute. now left.
  - split; assumption.
Defined.

(** A text without any header line gives the successful empty result:
    the parser skips what it does not recognise and never makes a
    record up. *)
Lemma scanBlocks_no_header (rawLines : list string) (m : JsMap.t Z BlameLineInfo) :
  (forall line, In line rawLines -> matchHeader line = None) ->
  scanBlocks rawLines m = m.
Proof.
  induction rawLines as [|line rest IH]; intros Hnone; cbn [scanBlocks].
  - reflexivity.
  - rewrite (Hnone line (or_introl eq_refl)).
    assert (E : scanBlocks rest m = m).
    { apply IH. intros l Hl. apply Hnone. now right. }
    destruct (isEmpty (trim line)); [assumption|].
    destruct (startsWith line TAB); assumption.
Qed.


(** X4. A text without any header line parses to the empty result:
    success, no record, [lineCount] 0; nothing of it is kept. *)
Theorem parseBlameOutput_no_header (blameOutput : string) :
  (forall line, In line (split blameOutput) -> matchHeader line = None) ->
  parseBlameOutput blameOutput
  = {| success := true; lines := JsMap.empty; error := None; lineCount := 0 |}.
Proof.
  intros Hnone. unfold parseBlameOutput, tryScan.
  destruct (isEmpty blameOutput || isEmpty (trim blameOutput)); [reflexivity|].
  rewrite (scanBlocks_no_header _ _ Hnone). reflexivity.
Qed.

Lemma parseBlameOutput_no_header_witness :
  parseBlameOutput (Samples.joinLines ["fatal: no such path"; "   "; "abc 1 1"]%string)
  = {| success := true; lines := JsMap.empty; error := None; lineCount := 0 |}.
Proof.
  apply parseBlameOutput_no_header.
  intros line Hin. vm_compute in Hin.
  repeat destruct Hin as [<- | Hin]; try reflexivity. contradiction.
Defined.

(* ----------------------------------------------------------------- *)
(** ** Reading back a rendered report *)

Lemma allChars_impl (p q : ascii -> bool) (s : string) :
  (forall c, p c = true -> q c = true) -> allChars p s = true -> allChars q s = true.
Proof.
  intros Hpq. induction s as [|c s IH]; cbn [allChars]; [reflexivity|].
  intros H. apply andb_true_iff in H. destruct H as [Hc Hs].
  now rewrite (Hpq c Hc), IH.
Qed.

Lemma isLowerHex_not_space (c : ascii) : isLowerHex c = true -> isWhiteSpace c = false.
Proof.
  destruct c as [[] [] [] [] [] [] [] []]; vm_compute; congruence.
Qed.

Lemma isDigit_not_space (c : ascii) : isDigit c = true -> isWhiteSpace c = false.
Proof.
  destruct c as [[] [] [] [] [] [] [] []]; vm_compute; congruence.
Qed.

Lemma isLowerHex_not_LF (c : ascii) : isLowerHex c = true -> negb (Ascii.eqb c LF) = true.
Proof.
  destruct c as [[] [] [] [] [] [] [] []]; vm_compute; congruence.
Qed.

Lemma isDigit_not_LF (c : ascii) : isDigit c = true -> negb (Ascii.eqb c LF) = true.
Proof.
  destruct c as [[] [] [] [] [] [] [] []]; vm_compute; congruence.
Qed.

Lemma noLineFeed_app (a b : string) :
  noLineFeed (a ++ b) = noLineFeed a && noLineFeed b.
Proof.
  unfold noLineFeed. induction a as [|c a IH]; cbn [append allChars].
  - reflexivity.
  - now rewrite IH, andb_assoc.
Qed.

Lemma hexGroup_app (g rest : string) :
  allChars isLowerHex g = true ->
  hexGroup (String.length g) (g ++ rest) = Some (g, rest).
Proof.
  induction g as [|c g IH]; cbn [allChars String.length append hexGroup].
  - reflexivity.
  - intros H. apply andb_true_iff in H. destruct H as [Hc Hg].
    now rewrite Hc, (IH Hg).
Qed.

Lemma digitRun_app (g rest : string) :
  allChars isDigit g = true -> digitsEnd rest = true ->
  digitRun (g ++ rest) = (g, rest).
Proof.
  intros Hg Hrest. induction g as [|c g IH]; cbn [append].
  - destruct rest as [|c rest]; [reflexivity|]. cbn [digitRun].
    cbn [digitsEnd] in Hrest. apply negb_true_iff in Hrest. now rewrite Hrest.
  - cbn [allChars] in Hg. apply andb_true_iff in Hg. destruct Hg as [Hc Hg].
    cbn [digitRun]. now rewrite Hc, (IH Hg).
Qed.

Lemma digits_app (g rest : string) :
  isDigits g = true -> digitsEnd rest = true ->
  digits (g ++ rest) = Some (g, rest).
Proof.
  unfold isDigits, digits. intros Hg Hrest.
  apply andb_true_iff in Hg. destruct Hg as [Hne Hg].
  rewrite (digitRun_app g rest Hg Hrest).
  destruct g; [discriminate|reflexivity].
Qed.

Lemma spaces_before_digits (g rest : string) :
  isDigits g = true ->
  spaces (" " ++ g ++ rest) = Some (g ++ rest)%string.
Proof.
  unfold isDigits. intros Hg. apply andb_true_iff in Hg. destruct Hg as [Hne Hg].
  destruct g as [|c g]; [discriminate|].
  cbn [allChars] in Hg. apply andb_true_iff in Hg. destruct Hg as [Hc _].
  cbn [append spaces]. change (isWhiteSpace " ") with true. cbv iota.
  cbn [trimStart]. now rewrite (isDigit_not_space c Hc).
Qed.

Lemma matchHeader_headerLine (b : PorcelainBlock) :
  wellFormedBlock b = true ->
  matchHeader (headerLine b)
  = Some {| group1 := blockSha b; group2 := blockOriginalLine b;
            group3 := blockFinalLine b; group4 := blockCount b |}.
Proof.
  unfold wellFormedBlock. rewrite !andb_true_iff.
  intros [[[[[[[[[[[[[[[Hlen Hhex] Horig] Hfinal] Hcount] _] _] _] _] _] _] _] _] _] _] _].
  apply Nat.eqb_eq in Hlen.
  unfold matchHeader, headerLine.
  rewrite <- Hlen, hexGroup_app by assumption.
  rewrite spaces_before_digits by assumption.
  rewrite digits_app; [|assumption|reflexivity].
  rewrite spaces_before_digits by assumption.
  destruct (blockCount b) as [count|].
  - rewrite digits_app; [|assumption|reflexivity].
    cbn [append]. replace count with (count ++ "")%string at 1 2.
    2:{ clear. induction count as [|c count IH]; cbn [append]; congruence. }
    change (String " " (count ++ "")) with (" " ++ count ++ "")%string.
    rewrite spaces_before_digits by assumption.
    rewrite digits_app; [|assumption|reflexivity].
    replace (count ++ "")%string with count; [reflexivity|].
    clear. induction count as [|c count IH]; cbn [append]; congruence.
  - rewrite digits_app; [reflexivity|assumption|reflexivity].
Qed.

Lemma trim_not_empty (c : ascii) (s : string) :
  isWhiteSpace c = false -> isEmpty (trim (String c s)) = false.
Proof.
  intros Hc. unfold trim. cbn [trimStart]. rewrite Hc. cbn [trimEnd].
  destruct (trimEnd s); [rewrite Hc|]; reflexivity.
Qed.

Lemma headerLine_not_blank (b : PorcelainBlock) (rest : string) :
  wellFormedBlock b = true ->
  exists c s, (headerLine b ++ rest)%string = String c s /\ isWhiteSpace c = false.
Proof.
  unfold wellFormedBlock. rewrite !andb_true_iff.
  intros [[[[[[[[[[[[[[[Hlen Hhex] _] _] _] _] _] _] _] _] _] _] _] _] _] _].
  unfold headerLine. destruct (blockSha b) as [|c sha]; [discriminate|].
  cbn [allChars] in Hhex. apply andb_true_iff in Hhex. destruct Hhex as [Hc _].
  cbn [append]. eexists _, _. split; [reflexivity|].
  now apply isLowerHex_not_space.
Qed.

Lemma scanBlocks_header (line : string) (rest : list string)
  (m : JsMap.t Z BlameLineInfo) (h : HeaderMatch) :
  isEmpty (trim line) = false -> matchHeader line = Some h ->
  scanBlocks (line :: rest) m = scanMetadata rest (newBlameInfo h) m.
Proof. intros Hb Hm. cbn [scanBlocks]. now rewrite Hb, Hm. Qed.

Lemma scanMetadata_step (metaLine : string) (rest : list string)
  (b : BlameLineInfo) (m : JsMap.t Z BlameLineInfo) :
  startsWith metaLine TAB = false ->
  scanMetadata (metaLine :: rest) b m = scanMetadata rest (parseMetaLine metaLine b) m.
Proof. intros H. cbn [scanMetadata]. now rewrite H. Qed.

Lemma scanMetadata_content (content : string) (rest : list string)
  (b : BlameLineInfo) (m : JsMap.t Z BlameLineInfo) :
  scanMetadata ((TAB ++ content)%string :: rest) b m = scanBlocks rest (storeBlock b m).
Proof.
  cbn [scanMetadata].
  assert (E : startsWith (TAB ++ content) TAB = true).
  { unfold TAB. cbn [append startsWith]. rewrite Ascii.eqb_refl.
    destruct content; reflexivity. }
  now rewrite E.
Qed.

Lemma startsWith_nil (s : string) : startsWith s "" = true.
Proof. destruct s; reflexivity. Qed.

(** One metadata line of each kind. *)
Lemma parseMetaLine_fields (v : string) (info : BlameLineInfo) :
  parseMetaLine ("author " ++ v) info = setAuthor v info /\
  parseMetaLine ("author-mail " ++ v) info = setAuthorMail v info /\
  parseMetaLine ("author-time " ++ v) info = setAuthorTime (parseInt v) info /\
  parseMetaLine ("author-tz " ++ v) info = setAuthorTz v info /\
  parseMetaLine ("summary " ++ v) info = setSummary v info /\
  parseMetaLine ("filename " ++ v) info = setFilename v info.
Proof.
  unfold parseMetaLine.
  repeat split;
    cbn [append startsWith substring Ascii.eqb Bool.eqb andb];
    rewrite ?startsWith_nil; reflexivity.
Qed.

Lemma parseMetaLine_committer (v : string) (info : BlameLineInfo) :
  parseMetaLine ("committer " ++ v) info = info /\
  parseMetaLine ("committer-mail " ++ v) info = info /\
  parseMetaLine ("committer-time " ++ v) info = info /\
  parseMetaLine ("committer-tz " ++ v) info = info.
Proof. repeat split; reflexivity. Qed.

(** The lines of one block, met by the outer loop, are consumed as a
    whole and leave the block's record stored. *)
Lemma scanBlocks_block (b : PorcelainBlock) (rest : list string)
  (m : JsMap.t Z BlameLineInfo) :
  wellFormedBlock b = true ->
  scanBlocks (blockLines b ++ rest) m
  = scanBlocks rest (JsMap.set (lineNumber (recordOfBlock b)) (recordOfBlock b) m).
Proof.
  intros Hwf. unfold blockLines. cbn [app].
  destruct (headerLine_not_blank b "" Hwf) as (c & s0 & Hs & Hc).
  assert (Hh : headerLine b = String c s0).
  { rewrite <- Hs. clear. induction (headerLine b) as [|a l IH]; cbn [append]; congruence. }
  assert (Hblank : isEmpty (trim (headerLine b)) = false).
  { rewrite Hh. now apply trim_not_empty. }
  rewrite (scanBlocks_header _ _ _ _ Hblank (matchHeader_headerLine b Hwf)).
  rewrite !scanMetadata_step by reflexivity.
  rewrite scanMetadata_content.
  rewrite (proj1 (parseMetaLine_fields _ _)).
  rewrite (proj1 (proj2 (parseMetaLine_fields _ _))).
  rewrite (proj1 (proj2 (proj2 (parseMetaLine_fields _ _)))).
  rewrite (proj1 (proj2 (proj2 (proj2 (parseMetaLine_fields _ _))))).
  rewrite (proj1 (parseMetaLine_committer _ _)).
  rewrite (proj1 (proj2 (parseMetaLine_committer _ _))).
  rewrite (proj1 (proj2 (proj2 (parseMetaLine_committer _ _)))).
  rewrite (proj2 (proj2 (proj2 (parseMetaLine_committer _ _)))).
  rewrite (proj1 (proj2 (proj2 (proj2 (proj2 (parseMetaLine_fields _ _)))))).
  rewrite (proj2 (proj2 (proj2 (proj2 (proj2 (parseMetaLine_fields _ _)))))).
  f_equal. unfold storeBlock, markUncommitted.
  cbn [author setFilename setSummary setAuthorTz setAuthorTime setAuthorMail setAuthor].
  unfold recordOfBlock, newBlameInfo, finalLineOf.
  cbn [group1 group3 lineNumber commitSha author authorMail authorTime authorTz
       summary isUncommitted filename setFilename setSummary setAuthorTz
       setAuthorTime setAuthorMail setAuthor].
  destruct (strictEq (blockAuthor b) "Not Committed Yet" ||
            includes (toLowerCase (blockAuthor b)) "not committed") eqn:E.
  - cbn [setIsUncommitted lineNumber commitSha author authorMail authorTime authorTz
         summary isUncommitted filename].
    now rewrite orb_true_r.
  - cbn [lineNumber]. now rewrite orb_false_r.
Qed.

Lemma scanBlocks_blocks (blocks : list PorcelainBlock) (m : JsMap.t Z BlameLineInfo) :
  forallb wellFormedBlock blocks = true ->
  scanBlocks (List.concat (List.map blockLines blocks)) m = storeRecords blocks m.
Proof.
  revert m. induction blocks as [|b blocks IH]; intros m Hwf;
    cbn [List.map List.concat].
  - reflexivity.
  - cbn [forallb] in Hwf. apply andb_true_iff in Hwf. destruct Hwf as [Hb Hbs].
    rewrite scanBlocks_block by assumption. now rewrite IH.
Qed.

Lemma split_noLineFeed (line : string) :
  noLineFeed line = true -> split line = [line].
Proof.
  unfold noLineFeed. induction line as [|c line IH]; cbn [allChars split];
    [reflexivity|].
  intros H. apply andb_true_iff in H. destruct H as [Hc Hl].
  apply negb_true_iff in Hc. now rewrite Hc, (IH Hl).
Qed.

Lemma split_line_then (line rest : string) :
  noLineFeed line = true ->
  split (line ++ String LF rest) = line :: split rest.
Proof.
  unfold noLineFeed. induction line as [|c line IH]; cbn [allChars append split].
  - intros _. now rewrite Ascii.eqb_refl.
  - intros H. apply andb_true_iff in H. destruct H as [Hc Hl].
    apply negb_true_iff in Hc. now rewrite Hc, (IH Hl).
Qed.

Lemma split_joinLines (ls : list string) :
  ls <> [] -> forallb noLineFeed ls = true -> split (Samples.joinLines ls) = ls.
Proof.
  unfold Samples.joinLines. induction ls as [|l ls IH]; [congruence|].
  intros _ H. cbn [forallb] in H. apply andb_true_iff in H. destruct H as [Hl Hls].
  destruct ls as [|l' ls].
  - cbn [String.concat]. now apply split_noLineFeed.
  - change (String.concat (String LF "") (l :: l' :: ls))
      with (l ++ String LF (String.concat (String LF "") (l' :: ls)))%string.
    rewrite split_line_then by assumption. f_equal. apply IH; [discriminate|assumption].
Qed.

Lemma blockLines_noLineFeed (b : PorcelainBlock) :
  wellFormedBlock b = true -> forallb noLineFeed (blockLines b) = true.
Proof.
  unfold wellFormedBlock. rewrite !andb_true_iff.
  intros [[[[[[[[[[[[[[[Hlen Hhex] Horig] Hfinal] Hcount] H1] H2] H3] H4] H5] H6] H7] H8] H9] H10] H11].
  assert (Hd : forall g, isDigits g = true -> noLineFeed g = true).
  { intros g Hg. unfold isDigits in Hg. apply andb_true_iff in Hg.
    apply (allChars_impl isDigit); [apply isDigit_not_LF | apply Hg]. }
  unfold blockLines, headerLine. cbn [forallb].
  rewrite !noLineFeed_app.
  rewrite (allChars_impl isLowerHex _ (blockSha b) isLowerHex_not_LF Hhex
           : noLineFeed (blockSha b) = true).
  rewrite (Hd _ Horig), (Hd _ Hfinal), H1, H2, H3, H4, H5, H6, H7, H8, H9, H10, H11.
  destruct (blockCount b) as [count|].
  - rewrite noLineFeed_app, (Hd _ Hcount). reflexivity.
  - reflexivity.
Qed.

Lemma renderBlocks_split (blocks : list PorcelainBlock) :
  blocks <> [] -> forallb wellFormedBlock blocks = true ->
  split (renderBlocks blocks) = List.concat (List.map blockLines blocks).
Proof.
  intros Hne Hwf. unfold renderBlocks. apply split_joinLines.
  - destruct blocks as [|b blocks]; [congruence|]. discriminate.
  - induction blocks as [|b blocks IH]; [congruence|].
    cbn [forallb] in Hwf. apply andb_true_iff in Hwf. destruct Hwf as [Hb Hbs].
    cbn [List.map List.concat]. rewrite forallb_app, (blockLines_noLineFeed b Hb).
    destruct blocks as [|b' blocks]; [reflexivity|].
    apply IH; [discriminate|assumption].
Qed.

Lemma renderBlocks_not_blank (blocks : list PorcelainBlock) :
  blocks <> [] -> forallb wellFormedBlock blocks = true ->
  isEmpty (renderBlocks blocks) || isEmpty (trim (renderBlocks blocks)) = false.
Proof.
  intros Hne Hwf. destruct blocks as [|b blocks]; [congruence|].
  cbn [forallb] in Hwf. apply andb_true_iff in Hwf. destruct Hwf as [Hb _].
  assert (H : exists c s, renderBlocks (b :: blocks) = String c s /\ isWhiteSpace c = false).
  { unfold renderBlocks, Samples.joinLines. cbn [List.map List.concat].
    unfold blockLines at 1. cbn [app].
    match goal with
    | |- context [String.concat ?sep (headerLine b :: ?l :: ?ls)] =>
        change (String.concat sep (headerLine b :: l :: ls))
          with (headerLine b ++ sep ++ String.concat sep (l :: ls))%string
    end.
    apply headerLine_not_blank. assumption. }
  destruct H as (c & s0 & -> & Hc). cbn [isEmpty orb]. now apply trim_not_empty.
Qed.

Lemma parseBlameOutput_rendered (blocks : list PorcelainBlock) :
  blocks <> [] -> forallb wellFormedBlock blocks = true ->
  parseBlameOutput (renderBlocks blocks)
  = {| success := true;
       lines := storeRecords blocks JsMap.empty;
       error := None;
       lineCount := JsMap.size (storeRecords blocks JsMap.empty) |}.
Proof.
  intros Hne Hwf. unfold parseBlameOutput, tryScan.
  rewrite (renderBlocks_not_blank blocks Hne Hwf).
  rewrite (renderBlocks_split blocks Hne Hwf).
  now rewrite (scanBlocks_blocks blocks JsMap.empty Hwf).
Qed.

(** X5. Parsing the text of well formed porcelain blocks succeeds and gives
    back, field by field, the records the blocks describe (the
    committer lines are skipped), stored in block order. *)
Theorem parseBlameOutput_round_trip (blocks : list PorcelainBlock) :
  blocks <> [] -> forallb wellFormedBlock blocks = true ->
  let result := parseBlameOutput (renderBlocks blocks) in
  success result = true /\
  lines result = storeRecords blocks JsMap.empty /\
  lineCount result = JsMap.size (lines result) /\
  (forall b, blocks = [b] ->
             lines result = [(lineNumber (recordOfBlock b), recordOfBlock b)]).
Proof.
  intros Hne Hwf. cbv zeta. rewrite (parseBlameOutput_rendered blocks Hne Hwf).
  cbn [success lines lineCount]. repeat split.
  intros b ->. reflexivity.
Qed.

Lemma parseBlameOutput_round_trip_witness :
  lines (parseBlameOutput (renderBlocks [MoreSamples.secondBlock]))
  = [(7, recordOfBlock MoreSamples.secondBlock)].
Proof.
  destruct (parseBlameOutput_round_trip [MoreSamples.secondBlock])
    as (_ & _ & _ & H).
  - discriminate.
  - reflexivity.
  - exact (H MoreSamples.secondBlock eq_refl).
Defined.

Lemma get_storeRecords_last (before after : list PorcelainBlock) (b : PorcelainBlock)
  (m : JsMap.t Z BlameLineInfo) :
  (forall b', In b' after ->
              lineNumber (recordOfBlock b') <> lineNumber (recordOfBlock b)) ->
  JsMap.get (lineNumber (recordOfBlock b)) (storeRecords (before ++ b :: after) m)
  = Some (recordOfBlock b).
Proof.
  intros Hafter. unfold storeRecords. rewrite fold_left_app. cbn [List.fold_left].
  match goal with
  | |- context [JsMap.set ?k ?v ?m0] => generalize m0
  end.
  intros m0.
  assert (G : forall m1, JsMap.get (lineNumber (recordOfBlock b)) m1 = Some (recordOfBlock b) ->
                         JsMap.get (lineNumber (recordOfBlock b))
                           (List.fold_left
                              (fun m b0 => JsMap.set (lineNumber (recordOfBlock b0))
                                             (recordOfBlock b0) m)
                              after m1) = Some (recordOfBlock b)).
  { induction after as [|a after IH]; intros m1 Hm1; cbn [List.fold_left].
    - assumption.
    - apply IH.
      + intros b' Hb'. apply Hafter. now right.
      + rewrite get_set_other; [assumption|]. apply Hafter. now left. }
  apply G. apply get_set_same.
Qed.

(** X6. Last block wins: when several blocks name the same final line, the
    record kept for that line is the one of the last such block. *)
Theorem parseBlameOutput_last_block_wins
  (before after : list PorcelainBlock) (b : PorcelainBlock) :
  forallb wellFormedBlock (before ++ b :: after) = true ->
  (forall b', In b' after ->
              lineNumber (recordOfBlock b') <> lineNumber (recordOfBlock b)) ->
  getBlameForLine (parseBlameOutput (renderBlocks (before ++ b :: after)))
    (lineNumber (recordOfBlock b))
  = Some (recordOfBlock b).
Proof.
  intros Hwf Hafter. rewrite parseBlameOutput_rendered; [|destruct before; discriminate|assumption].
  unfold getBlameForLine. cbn [lines]. now apply get_storeRecords_last.
Qed.

Lemma parseBlameOutput_last_block_wins_witness :
  getBlameForLine
    (parseBlameOutput (renderBlocks [MoreSamples.firstBlock; MoreSamples.secondBlock])) 7
  = Some (recordOfBlock MoreSamples.secondBlock).
Proof.
  apply (parseBlameOutput_last_block_wins [MoreSamples.firstBlock] []
           MoreSamples.secondBlock).
  - reflexivity.
  - intros b' [].
Defined.

(** The records of the sample report. *)
Lemma sample_lines :
  lines (parseBlameOutput Samples.SAMPLE_BLAME_OUTPUT)
  = [ (1, {| lineNumber := 1;
             commitSha := "abc123def456789012345678901234567890abcd";
             author := "John Doe"; authorMail := "<john@example.com>";
             authorTime := Some 1718452800; authorTz := "+0000";
             summary := "Initial commit"; isUncommitted := false;
             filename := "test.ts" |});
      (2, {| lineNumber := 2;
             commitSha := "def456789012345678901234567890abcdef1234";
             author := "Jane Smith"; authorMail := "<jane@example.com>";
             authorTime := Some 1718366400; authorTz := "+0000";
             summary := "Add feature"; isUncommitted := false;
             filename := "test.ts" |});
      (3, {| lineNumber := 3;
             commitSha := "0000000000000000000000000000000000000000";
             author := "Not Committed Yet"; authorMail := "<not.committed.yet>";
             authorTime := Some 1718539200; authorTz := "+0000";
             summary := ""; isUncommitted := true;
             filename := "test.ts" |}) ].
Proof. vm_compute. reflexivity. Qed.

End ParserSpec.

(* ================================================================= *)
(** * The blame cache *)

Module CacheSpec.

Import JsString.
Import BlameParser.
Import BlameCache.
Import JsFacts.
Import Predicates.

Lemma cache_set (f h : string) (R : BlameParseResult) (now : Z) (c : BlameCache) :
  exists m,
    cache (set f h R now c)
    = JsMap.set (getCacheKey f)
        {| blameResult := R; headCommit := h; cachedAt := now; filePath := f |} m.
Proof. unfold set, withCache. cbn [cache]. eexists. reflexivity. Qed.

Lemma get_after_set (f h : string) (R : BlameParseResult) (now : Z) (c : BlameCache) :
  JsMap.get (getCacheKey f) (cache (set f h R now c))
  = Some {| blameResult := R; headCommit := h; cachedAt := now; filePath := f |}.
Proof.
  destruct (cache_set f h R now c) as [m ->]. apply get_set_same.
Qed.

Lemma get_keeps_cache (f h : string) (c : BlameCache) :
  cache (snd (get f h c)) = cache c.
Proof.
  unfold get. destruct (JsMap.get (getCacheKey f) (cache c)) as [entry|];
    [destruct (negb (strictEq (headCommit entry) h))|]; reflexivity.
Qed.

Lemma get_result (f h : string) (c : BlameCache) :
  fst (get f h c)
  = match JsMap.get (getCacheKey f) (cache c) with
    | Some entry =>
        if String.eqb (headCommit entry) h then Some (blameResult entry) else None
    | None => None
    end.
Proof.
  unfold get, strictEq. destruct (JsMap.get (getCacheKey f) (cache c)) as [entry|];
    [destruct (String.eqb (headCommit entry) h)|]; reflexivity.
Qed.

(** C3.  [get] answers with the stored result only when the stored
    revision equals [currentHeadCommit]; on a mismatch it answers
    undefined; in every case the stored entries are left as they were.
    So after [set(f, r1, R1)] and [set(f, r2, R2)] with two different
    revisions, [get(f, r1)] misses, the entry of [r2] stays stored, and
    [get(f, r2)] returns [R2]. *)
Theorem get_hits_on_equal_revision_only
  (c : BlameCache) (filePath currentHeadCommit : string) :
  (forall R,
     fst (get filePath currentHeadCommit c) = Some R ->
     exists entry,
       JsMap.get (getCacheKey filePath) (cache c) = Some entry /\
       headCommit entry = currentHeadCommit /\ blameResult entry = R) /\
  (forall entry,
     JsMap.get (getCacheKey filePath) (cache c) = Some entry ->
     headCommit entry <> currentHeadCommit ->
     fst (get filePath currentHeadCommit c) = None) /\
  cache (snd (get filePath currentHeadCommit c)) = cache c /\
  (forall r1 r2 R1 R2 t1 t2,
     r1 <> r2 ->
     let c2 := set filePath r2 R2 t2 (set filePath r1 R1 t1 c) in
     fst (get filePath r1 c2) = None /\
     JsMap.get (getCacheKey filePath) (cache (snd (get filePath r1 c2)))
     = Some {| blameResult := R2; headCommit := r2; cachedAt := t2;
               filePath := filePath |} /\
     fst (get filePath r2 c2) = Some R2).
Proof.
  repeat split.
  - intros R. rewrite get_result.
    destruct (JsMap.get (getCacheKey filePath) (cache c)) as [entry|];
      [|discriminate].
    destruct (String.eqb (headCommit entry) currentHeadCommit) eqn:E;
      [|discriminate].
    intros [= <-]. exists entry. apply String.eqb_eq in E. now repeat split.
  - intros entry Hg Hne. rewrite get_result, Hg.
    apply String.eqb_neq in Hne. now rewrite Hne.
  - apply get_keeps_cache.
  - rewrite get_result, get_after_set. cbn [headCommit].
    apply not_eq_sym in H. apply String.eqb_neq in H. now rewrite H.
  - rewrite get_keeps_cache. apply get_after_set.
  - rewrite get_result, get_after_set. cbn [headCommit blameResult].
    now rewrite String.eqb_refl.
Qed.

Lemma get_hits_on_equal_revision_only_witness :
  let c2 := set "src/a.ts" "r2" Samples.bobResult 2
              (set "src/a.ts" "r1" Samples.emptyResult 1 (create DEFAULT_MAX_ENTRIES)) in
  fst (get "src/a.ts" "r1" c2) = None /\
  fst (get "src/a.ts" "r2" c2) = Some Samples.bobResult.
Proof.
  destruct (get_hits_on_equal_revision_only
              (create DEFAULT_MAX_ENTRIES) "src/a.ts" "r1") as (_ & _ & _ & Hs).
  destruct (Hs "r1"%string "r2"%string Samples.emptyResult Samples.bobResult 1 2)
    as (Hmiss & _ & Hhit).
  - discriminate.
  - split; [exact Hmiss | exact Hhit].
Defined.

(** ** Eviction *)

Lemma oldestEntry_scan (m seen : JsMap.t string BlameCacheEntry)
  (st : option string * option Z) :
  oldestOf seen st ->
  oldestOf (seen ++ m)
    (List.fold_left
       (fun (st : option string * option Z) kv =>
          let '(oldestKey, oldestTime) := st in
          let older :=
            match oldestTime with
            | None => true
            | Some t => cachedAt (snd kv) <? t
            end in
          if older then (Some (fst kv), Some (cachedAt (snd kv))) else st)
       m st).
Proof.
  revert seen st. induction m as [|[k e] rest IH]; intros seen st Hst.
  - now rewrite app_nil_r.
  - cbn [List.fold_left].
    replace (seen ++ (k, e) :: rest) with ((seen ++ [(k, e)]) ++ rest)
      by now rewrite <- app_assoc.
    apply IH. destruct st as [[k0|] [t0|]]; cbn [oldestOf] in Hst;
      try contradiction; cbn [fst snd].
    + destruct Hst as [(e0 & Hin & Ht) Hmin].
      destruct (cachedAt e <? t0) eqn:E; cbn [oldestOf].
      * apply Z.ltb_lt in E. split.
        -- exists e. split; [|reflexivity]. apply in_or_app. right. now left.
        -- intros kv Hkv. apply in_app_or in Hkv.
           destruct Hkv as [Hkv | [<- | []]].
           ++ specialize (Hmin kv Hkv). lia.
           ++ cbn [snd]. lia.
      * apply Z.ltb_ge in E. split.
        -- exists e0. split; [|assumption]. apply in_or_app. now left.
        -- intros kv Hkv. apply in_app_or in Hkv.
           destruct Hkv as [Hkv | [<- | []]].
           ++ now apply Hmin.
           ++ cbn [snd]. lia.
    + subst seen. cbn [oldestOf app]. split.
      * exists e. split; [now left | reflexivity].
      * intros kv [<- | []]. cbn [snd]. lia.
Qed.

(** After the scan, [oldestKey] names a stored entry whose [cachedAt] is
    the least of the cache, and is undefined only for an empty cache. *)
Lemma oldestEntry_spec (m : JsMap.t string BlameCacheEntry) :
  oldestOf m (oldestEntry m).
Proof.
  unfold oldestEntry, JsMap.forEach.
  apply (oldestEntry_scan m [] (None, None)). reflexivity.
Qed.

Lemma In_has (k : string) (e : BlameCacheEntry) (m : JsMap.t string BlameCacheEntry) :
  In (k, e) m -> JsMap.has k m = true.
Proof.
  intros Hin. apply has_In_keys. unfold JsMap.keys.
  apply in_map_iff. now exists (k, e).
Qed.

(** When the key found by the scan is not the empty string,
    [evictOldest] removes exactly one entry, and it is one with the
    least [cachedAt]. *)
Lemma evictOldest_evicts (c : BlameCache) :
  cache c <> [] ->
  (forall k, In k (JsMap.keys (cache c)) -> k <> EmptyString) ->
  exists k e,
    In (k, e) (cache c) /\
    (forall kv, In kv (cache c) -> cachedAt e <= cachedAt (snd kv)) /\
    cache (evictOldest c) = JsMap.delete k (cache c) /\
    size (evictOldest c) = size c - 1 /\
    maxEntries (evictOldest c) = maxEntries c.
Proof.
  intros Hne Hkeys. unfold evictOldest, size.
  pose proof (oldestEntry_spec (cache c)) as Hold.
  destruct (oldestEntry (cache c)) as [[k|] [t|]]; cbn [oldestOf] in Hold;
    try contradiction.
  destruct Hold as [(e & Hin & Ht) Hmin]. subst t.
  exists k, e. cbn [fst truthy].
  assert (Hk : isEmpty k = false).
  { destruct k; [|reflexivity]. exfalso. apply (Hkeys EmptyString); [|reflexivity].
    unfold JsMap.keys. apply in_map_iff. now exists (EmptyString, e). }
  rewrite Hk. cbn [negb withCache cache maxEntries].
  repeat split; try assumption.
  apply size_delete_has. now apply In_has with e.
Qed.

Lemma getCacheKey_empty (f : string) : getCacheKey f = EmptyString -> f = EmptyString.
Proof. destruct f; [reflexivity|discriminate]. Qed.

Lemma keys_delete_subset (k k0 : string) (m : JsMap.t string BlameCacheEntry) :
  In k (JsMap.keys (JsMap.delete k0 m)) -> In k (JsMap.keys m).
Proof.
  induction m as [|[k1 e1] rest IH]; cbn [JsMap.delete]; [auto|].
  destruct (sameKey k1 k0).
  - intros Hin. now right.
  - cbn [JsMap.keys List.map fst]. intros [<- | Hin]; [now left|].
    right. now apply IH.
Qed.

Lemma set_bounded (f h : string) (R : BlameParseResult) (now : Z) (c : BlameCache) :
  1 <= maxEntries c -> f <> EmptyString -> bounded c ->
  bounded (set f h R now c) /\ maxEntries (set f h R now c) = maxEntries c.
Proof.
  intros Hcap Hf [Hsize Hkeys].
  assert (Hkey : getCacheKey f <> EmptyString).
  { intros E. now apply getCacheKey_empty in E. }
  unfold set.
  destruct ((maxEntries c <=? JsMap.size (cache c)) &&
            negb (JsMap.has (getCacheKey f) (cache c))) eqn:E.
  - apply andb_true_iff in E. destruct E as [Hfull Hnew].
    apply Z.leb_le in Hfull. apply negb_true_iff in Hnew.
    assert (Hne : cache c <> []).
    { intros E0. rewrite E0 in Hfull. unfold JsMap.size in Hfull.
      cbn in Hfull. lia. }
    destruct (evictOldest_evicts c Hne Hkeys) as (k & e & Hin & _ & Hc & Hs & Hm).
    assert (Hnew' : JsMap.has (getCacheKey f) (cache (evictOldest c)) = false).
    { destruct (JsMap.has (getCacheKey f) (cache (evictOldest c))) eqn:E1;
        [|reflexivity].
      apply has_In_keys in E1. rewrite Hc in E1.
      apply keys_delete_subset in E1. apply has_In_keys in E1. congruence. }
    unfold bounded, size, withCache in *. cbn [cache maxEntries].
    rewrite size_set, keys_set, Hnew', Hm. split; [split|reflexivity].
    + unfold size in Hs. lia.
    + intros k0 Hk0. apply in_app_or in Hk0. destruct Hk0 as [Hk0 | [<- | []]].
      * rewrite Hc in Hk0. apply keys_delete_subset in Hk0. now apply Hkeys.
      * assumption.
  - unfold bounded, size, withCache in *. cbn [cache maxEntries].
    rewrite size_set, keys_set. split; [split|reflexivity].
    + destruct (JsMap.has (getCacheKey f) (cache c)) eqn:E1; [assumption|].
      rewrite andb_true_r in E. apply Z.leb_gt in E. lia.
    + intros k0 Hk0.
      destruct (JsMap.has (getCacheKey f) (cache c)); [now apply Hkeys|].
      apply in_app_or in Hk0. destruct Hk0 as [Hk0 | [<- | []]];
        [now apply Hkeys | assumption].
Qed.

Lemma deleteAll_bounded (ks : list string) (m : JsMap.t string BlameCacheEntry) :
  JsMap.size (List.fold_left (fun m key => JsMap.delete key m) ks m) <= JsMap.size m /\
  (forall k,
     In k (JsMap.keys (List.fold_left (fun m key => JsMap.delete key m) ks m)) ->
     In k (JsMap.keys m)).
Proof.
  revert m. induction ks as [|k0 ks IH]; intros m; cbn [List.fold_left].
  - split; [lia | auto].
  - destruct (IH (JsMap.delete k0 m)) as [Hs Hk]. split.
    + pose proof (size_delete_le k0 m). lia.
    + intros k Hin. apply keys_delete_subset with k0. now apply Hk.
Qed.

Lemma step_bounded (op : Operation) (c : BlameCache) :
  1 <= maxEntries c ->
  (forall f h R now, op = OpSet f h R now -> f <> EmptyString) ->
  bounded c ->
  bounded (step c op) /\ maxEntries (step c op) = maxEntries c.
Proof.
  intros Hcap Hop Hb. destruct op as [f h | f h R now | f | h |]; cbn [step].
  - assert (Hm : maxEntries (snd (get f h c)) = maxEntries c).
    { unfold get.
      destruct (JsMap.get (getCacheKey f) (cache c)) as [entry|];
        [destruct (negb (strictEq (headCommit entry) h))|]; reflexivity. }
    split; [|exact Hm].
    unfold bounded, size. rewrite get_keeps_cache, Hm. exact Hb.
  - apply set_bounded; try assumption. now apply (Hop f h R now).
  - unfold delete, bounded, size, withCache. cbn [snd cache maxEntries].
    destruct Hb as [Hs Hk]. unfold size in Hs. split; [split|reflexivity].
    + pose proof (size_delete_le (getCacheKey f) (cache c)). lia.
    + intros k Hin. apply keys_delete_subset in Hin. now apply Hk.
  - unfold invalidateForHeadChange, bounded, size, withCache.
    cbn [cache maxEntries]. destruct Hb as [Hs Hk]. unfold size in Hs.
    match goal with
    | |- context [List.fold_left _ ?ks (cache c)] =>
        destruct (deleteAll_bounded ks (cache c)) as [Hs' Hk']
    end.
    split; [split|reflexivity]; [lia|]. intros k Hin. apply Hk. now apply Hk'.
  - unfold clear, bounded, size. cbn [cache maxEntries].
    split; [split|reflexivity]; [|intros k []].
    unfold JsMap.size, JsMap.empty. cbn [List.length]. lia.
Qed.

(** As long as no entry is stored under the empty path, the capacity is
    an invariant of every sequence of operations. *)
Lemma run_bounded (ops : list Operation) (c : BlameCache) :
  1 <= maxEntries c ->
  (forall f h R now, In (OpSet f h R now) ops -> f <> EmptyString) ->
  bounded c ->
  bounded (run ops c) /\ maxEntries (run ops c) = maxEntries c.
Proof.
  unfold run. revert c. induction ops as [|op ops IH]; intros c Hcap Hops Hb;
    cbn [List.fold_left].
  - now split.
  - destruct (step_bounded op c Hcap) as [Hb' Hm']; [|assumption|].
    + intros f h R now ->. apply (Hops f h R now). now left.
    + destruct (IH (step c op)) as [Hb'' Hm'']; try assumption.
      * lia.
      * intros f h R now Hin. apply (Hops f h R now). now right.
      * split; [assumption | congruence].
Qed.

(** X7. Starting from an empty cache of capacity at least 1, after any
    sequence of [get], [set], [delete], [invalidateForHeadChange] and
    [clear] calls in which no [set] names the empty path, the number of
    stored entries is at most the capacity. *)
Lemma size_within_capacity (maxEntries : Z) (ops : list Operation) :
  1 <= maxEntries ->
  (forall f h R now, In (OpSet f h R now) ops -> f <> EmptyString) ->
  size (run ops (create maxEntries)) <= maxEntries.
Proof.
  intros Hcap Hops.
  destruct (run_bounded ops (create maxEntries)) as [[Hs _] Hm]; try assumption.
  - split.
    + unfold size, create, JsMap.size. cbn. lia.
    + intros k [].
  - cbn [BlameCache.maxEntries create] in Hm. lia.
Qed.

Lemma size_within_capacity_witness :
  size (run [ OpSet "a.ts" "h1" Samples.emptyResult 1;
              OpSet "b.ts" "h1" Samples.emptyResult 2;
              OpGet "a.ts" "h1";
              OpSet "c.ts" "h1" Samples.emptyResult 3;
              OpDelete "b.ts";
              OpSet "d.ts" "h2" Samples.emptyResult 4 ] (create 2)) <= 2.
Proof.
  apply size_within_capacity.
  - lia.
  - intros f h R now Hin.
    repeat (destruct Hin as [Hin | Hin];
            [try discriminate Hin; injection Hin as <- _ _ _; discriminate|]).
    contradiction.
Defined.

(** ** First in, first out

    A series of [set] calls on an empty cache, with pairwise distinct
    keys and a clock that does not run backwards. *)

Lemma setAll_snoc (calls : list SetCall) (s : SetCall) (c : BlameCache) :
  setAll (calls ++ [s]) c
  = set (callPath s) (callHead s) (callResult s) (callNow s) (setAll calls c).
Proof. unfold setAll. now rewrite fold_left_app. Qed.

Lemma keys_entryOf (calls : list SetCall) :
  JsMap.keys (List.map entryOf calls)
  = List.map (fun s => getCacheKey (callPath s)) calls.
Proof. unfold JsMap.keys. rewrite map_map. reflexivity. Qed.

Lemma has_fresh (k : string) (calls : list SetCall) :
  ~ In k (List.map (fun s => getCacheKey (callPath s)) calls) ->
  JsMap.has k (List.map entryOf calls) = false.
Proof.
  intros Hk. destruct (JsMap.has k (List.map entryOf calls)) eqn:E; [|reflexivity].
  apply has_In_keys in E. rewrite keys_entryOf in E. contradiction.
Qed.

(** Below the capacity nothing is evicted: the cache lists the calls in
    order. *)
Lemma setAll_below_capacity (maxEntries : Z) (calls : list SetCall) :
  NoDup (List.map (fun s => getCacheKey (callPath s)) calls) ->
  Z.of_nat (List.length calls) <= maxEntries ->
  cache (setAll calls (create maxEntries)) = List.map entryOf calls /\
  BlameCache.maxEntries (setAll calls (create maxEntries)) = maxEntries.
Proof.
  induction calls as [|s calls IH] using rev_ind; intros Hnd Hlen.
  - split; reflexivity.
  - rewrite map_app in Hnd. cbn [List.map] in Hnd.
    rewrite length_app in Hlen. cbn [List.length] in Hlen.
    destruct IH as [Hc Hm].
    + now apply NoDup_app_remove_r in Hnd.
    + lia.
    + rewrite setAll_snoc. unfold set. rewrite Hc, Hm.
      assert (Hsmall : (maxEntries <=? JsMap.size (List.map entryOf calls)) = false).
      { apply Z.leb_gt. unfold JsMap.size. rewrite length_map. lia. }
      rewrite Hsmall. cbn [andb withCache cache BlameCache.maxEntries].
      rewrite Hc, Hm. split; [|reflexivity].
      rewrite set_new_appends.
      * now rewrite map_app.
      * apply has_fresh. intros Hin.
        apply NoDup_remove_2 in Hnd. rewrite app_nil_r in Hnd. contradiction.
Qed.

(** With times in ascending order the scan of [evictOldest] stays on the
    first entry. *)
Lemma oldestEntry_first (k : string) (e : BlameCacheEntry)
  (rest : JsMap.t string BlameCacheEntry) :
  (forall kv, In kv rest -> cachedAt e <= cachedAt (snd kv)) ->
  oldestEntry ((k, e) :: rest) = (Some k, Some (cachedAt e)).
Proof.
  unfold oldestEntry, JsMap.forEach. cbn [List.fold_left fst snd].
  induction rest as [|[k1 e1] rest IH]; intros Hmin; [reflexivity|].
  cbn [List.fold_left fst snd].
  assert (E : (cachedAt e1 <? cachedAt e) = false).
  { apply Z.ltb_ge. apply (Hmin (k1, e1)). now left. }
  rewrite E. apply IH. intros kv Hkv. apply Hmin. now right.
Qed.

(** The cache after capacity + 1 inserts of distinct keys at times
    that do not decrease. *)
Lemma setAll_overflow_cache (first last : SetCall) (middle : list SetCall) :
  let calls := first :: middle ++ [last] in
  let capacity := Z.of_nat (List.length (first :: middle)) in
  NoDup (List.map (fun s => getCacheKey (callPath s)) calls) ->
  callPath first <> EmptyString ->
  StronglySorted Z.le (List.map callNow calls) ->
  cache (setAll calls (create capacity)) = List.map entryOf (middle ++ [last]).
Proof.
  cbv zeta. intros Hnd Hfirst Hsorted.
  set (capacity := Z.of_nat (List.length (first :: middle))).
  change (first :: middle ++ [last]) with ((first :: middle) ++ [last]) in *.
  rewrite map_app in Hnd. cbn [List.map] in Hnd.
  destruct (setAll_below_capacity capacity (first :: middle)) as [Hc Hm].
  { now apply NoDup_app_remove_r in Hnd. }
  { unfold capacity. lia. }
  rewrite setAll_snoc.
  set (c0 := setAll (first :: middle) (create capacity)) in *.
  unfold set. rewrite Hc, Hm.
  assert (Hfull : (capacity <=? JsMap.size (List.map entryOf (first :: middle))) = true).
  { apply Z.leb_le. unfold JsMap.size, capacity. rewrite length_map. lia. }
  assert (Hnew : JsMap.has (getCacheKey (callPath last))
                   (List.map entryOf (first :: middle)) = false).
  { apply has_fresh. intros Hin.
    apply NoDup_remove_2 in Hnd. rewrite app_nil_r in Hnd. contradiction. }
  rewrite Hfull, Hnew. cbn [andb negb].
  assert (Hevict : cache (evictOldest c0) = List.map entryOf middle).
  { unfold evictOldest. rewrite Hc. cbn [List.map].
    change (entryOf first)
      with (getCacheKey (callPath first),
            {| blameResult := callResult first; headCommit := callHead first;
               cachedAt := callNow first; filePath := callPath first |}).
    rewrite oldestEntry_first.
    - cbn [fst truthy].
      assert (Hk : isEmpty (getCacheKey (callPath first)) = false).
      { destruct (getCacheKey (callPath first)) eqn:E; [|reflexivity].
        apply getCacheKey_empty in E. contradiction. }
      rewrite Hk. cbn [negb withCache cache JsMap.delete].
      now rewrite sameKey_refl.
    - cbn [cachedAt]. intros kv Hkv. apply in_map_iff in Hkv.
      destruct Hkv as (s & <- & Hs). cbn [entryOf snd cachedAt].
      rewrite map_app in Hsorted. cbn [List.map app] in Hsorted.
      inversion Hsorted as [|? ? _ Hall]; subst.
      rewrite Forall_forall in Hall. apply Hall.
      apply in_or_app. left. apply in_map_iff. now exists s. }
  cbn [withCache cache]. rewrite Hevict.
  rewrite set_new_appends.
  - now rewrite map_app.
  - apply has_fresh. intros Hin.
    apply NoDup_remove_2 in Hnd. rewrite app_nil_r in Hnd.
    apply Hnd. cbn [List.map]. now right.
Qed.

(** X8. Inserting capacity + 1 distinct keys, the first of them not empty,
    leaves the last [capacity] of them: the first inserted key is the
    one evicted. *)
Lemma setAll_first_in_first_out (first last : SetCall) (middle : list SetCall) :
  let calls := first :: middle ++ [last] in
  let capacity := Z.of_nat (List.length (first :: middle)) in
  NoDup (List.map (fun s => getCacheKey (callPath s)) calls) ->
  callPath first <> EmptyString ->
  StronglySorted Z.le (List.map callNow calls) ->
  cache (setAll calls (create capacity)) = List.map entryOf (middle ++ [last]) /\
  size (setAll calls (create capacity)) = capacity /\
  JsMap.has (getCacheKey (callPath first)) (cache (setAll calls (create capacity)))
  = false.
Proof.
  cbv zeta. intros Hnd Hfirst Hsorted.
  set (capacity := Z.of_nat (List.length (first :: middle))).
  pose proof (setAll_overflow_cache first last middle Hnd Hfirst Hsorted) as Hcache.
  cbv zeta in Hcache. fold capacity in Hcache.
  split; [exact Hcache|]. split.
  - unfold size. rewrite Hcache. unfold JsMap.size, capacity.
    rewrite length_map, length_app. cbn [List.length]. lia.
  - rewrite Hcache. apply has_fresh. intros Hin.
    cbn [List.map] in Hnd. inversion Hnd; subst. contradiction.
Qed.

(* ----------------------------------------------------------------- *)
(** ** Caches reached from an empty one *)

Lemma evictOldest_NoDup (c : BlameCache) :
  NoDup (JsMap.keys (cache c)) -> NoDup (JsMap.keys (cache (evictOldest c))).
Proof.
  intros Hnd. unfold evictOldest.
  destruct (truthy (fst (oldestEntry (cache c)))); [|assumption].
  destruct (fst (oldestEntry (cache c))); [|assumption].
  cbn [withCache cache]. now apply NoDup_keys_delete.
Qed.

Lemma deleteAll_NoDup (ks : list string) (m : JsMap.t string BlameCacheEntry) :
  NoDup (JsMap.keys m) ->
  NoDup (JsMap.keys (List.fold_left (fun m key => JsMap.delete key m) ks m)).
Proof.
  revert m. induction ks as [|k ks IH]; intros m Hnd; cbn [List.fold_left].
  - assumption.
  - apply IH. now apply NoDup_keys_delete.
Qed.

Lemma step_NoDup (op : Operation) (c : BlameCache) :
  NoDup (JsMap.keys (cache c)) -> NoDup (JsMap.keys (cache (step c op))).
Proof.
  intros Hnd. destruct op as [f h | f h R now | f | h |]; cbn [step].
  - now rewrite get_keeps_cache.
  - unfold set. cbn [withCache cache]. apply NoDup_keys_set.
    destruct (_ && _); [now apply evictOldest_NoDup | assumption].
  - unfold delete. cbn [snd withCache cache]. now apply NoDup_keys_delete.
  - unfold invalidateForHeadChange. cbn [withCache cache]. now apply deleteAll_NoDup.
  - constructor.
Qed.

(** A cache reached from an empty one holds one entry per key. *)
Lemma run_NoDup (ops : list Operation) (c : BlameCache) :
  NoDup (JsMap.keys (cache c)) -> NoDup (JsMap.keys (cache (run ops c))).
Proof.
  unfold run. revert c. induction ops as [|op ops IH]; intros c Hnd;
    cbn [List.fold_left]; [assumption|].
  apply IH. now apply step_NoDup.
Qed.

Lemma reached_NoDup (maxEntries : Z) (ops : list Operation) :
  NoDup (JsMap.keys (cache (run ops (create maxEntries)))).
Proof. apply run_NoDup. constructor. Qed.

(** X9. [has] answers true exactly when [get] would hit; right after
    [set(f, h, R)] it is true for [h] and false for any other
    revision. *)
Theorem has_agrees_with_get (c : BlameCache) (path revision : string) :
  (has path revision c = true <->
   exists R, fst (get path revision c) = Some R) /\
  (forall R now, has path revision (set path revision R now c) = true) /\
  (forall other R now,
     other <> revision ->
     has path other (set path revision R now c) = false).
Proof.
  split; [|split].
  - unfold has. rewrite get_result. unfold strictEq.
    destruct (JsMap.get (getCacheKey path) (cache c)) as [entry|].
    + destruct (String.eqb (headCommit entry) revision).
      * split; [eauto|reflexivity].
      * split; [discriminate|]. intros [R HR]. discriminate.
    + split; [discriminate|]. intros [R HR]. discriminate.
  - intros R now. unfold has. rewrite get_after_set. cbn [BlameCache.headCommit].
    apply String.eqb_refl.
  - intros other R now Hne. unfold has. rewrite get_after_set.
    cbn [BlameCache.headCommit]. apply String.eqb_neq. congruence.
Qed.

Lemma has_agrees_with_get_witness :
  has "a.ts" "h2" (set "a.ts" "h1" Samples.emptyResult 1 (create 2)) = false.
Proof.
  destruct (has_agrees_with_get (create 2) "a.ts" "h1") as (_ & _ & H).
  apply (H "h2"%string Samples.emptyResult 1). discriminate.
Defined.

(** X10. On a cache reached from an empty one, [delete(f)] reports whether
    an entry of [f] was stored, removes it (the next [get] of [f]
    misses for every revision), lowers the size by one in that case
    only, and leaves the answers for all other keys unchanged. *)
Theorem delete_removes_one_entry (maxEntries : Z) (ops : list Operation)
  (path : string) :
  let c := run ops (create maxEntries) in
  let existed := fst (delete path c) in
  let c' := snd (delete path c) in
  existed = JsMap.has (getCacheKey path) (cache c) /\
  (forall h, fst (get path h c') = None) /\
  size c' = (if existed then size c - 1 else size c) /\
  (forall other h,
     getCacheKey other <> getCacheKey path ->
     fst (get other h c') = fst (get other h c)).
Proof.
  cbv zeta. unfold delete. cbn [fst snd].
  pose proof (reached_NoDup maxEntries ops) as Hnd.
  set (c := run ops (create maxEntries)) in *.
  split; [reflexivity|]. split; [|split].
  - intros h. rewrite get_result. cbn [withCache cache].
    now rewrite get_delete_same.
  - unfold size. cbn [withCache cache].
    destruct (JsMap.has (getCacheKey path) (cache c)) eqn:E.
    + now apply size_delete_has.
    + assert (Hd : JsMap.delete (getCacheKey path) (cache c) = cache c).
      { assert (Hk : ~ In (getCacheKey path) (JsMap.keys (cache c))).
        { intros Hin. apply has_In_keys in Hin. congruence. }
        clear -Hk. induction (cache c) as [|[k e] rest IH]; [reflexivity|].
        cbn [JsMap.delete]. destruct (sameKey k (getCacheKey path)) eqn:E.
        - apply sameKey_eq in E. subst k. exfalso. apply Hk. now left.
        - f_equal. apply IH. intros Hin. apply Hk. now right. }
      now rewrite Hd.
  - intros other h Hne. rewrite !get_result. cbn [withCache cache].
    rewrite get_delete_other; [reflexivity|congruence].
Qed.

Lemma deleteAll_In (ks : list string) (m : JsMap.t string BlameCacheEntry)
  (kv : string * BlameCacheEntry) :
  NoDup (JsMap.keys m) ->
  In kv (List.fold_left (fun m key => JsMap.delete key m) ks m) ->
  In kv m /\ ~ In (fst kv) ks.
Proof.
  revert m. induction ks as [|k ks IH]; intros m Hnd Hin; cbn [List.fold_left] in Hin.
  - split; [assumption|]. intros [].
  - destruct (IH _ (NoDup_keys_delete k m Hnd) Hin) as [Hin' Hks].
    destruct (In_delete k kv m Hnd Hin') as [Hm Hk]. split; [assumption|].
    intros [E | E]; [now apply Hk | now apply Hks].
Qed.

Lemma deleteAll_get (ks : list string) (m : JsMap.t string BlameCacheEntry) (k : string) :
  NoDup (JsMap.keys m) ->
  JsMap.get k (List.fold_left (fun m key => JsMap.delete key m) ks m)
  = if in_dec string_dec k ks then None else JsMap.get k m.
Proof.
  revert m. induction ks as [|k0 ks IH]; intros m Hnd; cbn [List.fold_left].
  - reflexivity.
  - rewrite (IH _ (NoDup_keys_delete k0 m Hnd)).
    destruct (in_dec string_dec k ks) as [Hin | Hnin];
      destruct (in_dec string_dec k (k0 :: ks)) as [Hin' | Hnin']; try reflexivity.
    + exfalso. apply Hnin'. now right.
    + destruct Hin' as [-> | Hin']; [|contradiction].
      now apply get_delete_same.
    + apply get_delete_other. intros ->. apply Hnin'. now left.
Qed.

(** X11. On a cache reached from an empty one, [invalidateForHeadChange(h)]
    leaves only entries stored for [h]: afterwards [get] answers for
    [h] as before and misses for every other revision, and no entry is
    added. *)
Theorem invalidateForHeadChange_keeps_current (maxEntries : Z) (ops : list Operation)
  (newHeadCommit : string) :
  let c := run ops (create maxEntries) in
  let c' := invalidateForHeadChange newHeadCommit c in
  (forall k entry, In (k, entry) (cache c') ->
                   headCommit entry = newHeadCommit /\ In (k, entry) (cache c)) /\
  (forall f, fst (get f newHeadCommit c') = fst (get f newHeadCommit c)) /\
  (forall f h, h <> newHeadCommit -> fst (get f h c') = None) /\
  size c' <= size c.
Proof.
  cbv zeta. pose proof (reached_NoDup maxEntries ops) as Hnd.
  set (c := run ops (create maxEntries)) in *.
  unfold invalidateForHeadChange.
  rewrite (forEach_push
             (fun entry (_ : string) => negb (strictEq (headCommit entry) newHeadCommit))
             (fun (_ : BlameCacheEntry) (key : string) => key)).
  cbn [app]. set (ks := List.map _ _).
  assert (Hks : forall k, In k ks <->
                          exists e, In (k, e) (cache c) /\ headCommit e <> newHeadCommit).
  { intros k. unfold ks. rewrite in_map_iff. split.
    - intros ([k0 e] & Hk & Hin). cbn [fst snd] in *. subst k0.
      apply filter_In in Hin. destruct Hin as [Hin Hp]. cbn [fst snd] in Hp.
      apply negb_true_iff in Hp. apply String.eqb_neq in Hp. now exists e.
    - intros (e & Hin & Hne). exists (k, e). split; [reflexivity|].
      apply filter_In. split; [assumption|]. cbn [fst snd].
      apply negb_true_iff. now apply String.eqb_neq. }
  assert (Hkept : forall k entry,
             In (k, entry) (List.fold_left (fun m key => JsMap.delete key m) ks (cache c)) ->
             headCommit entry = newHeadCommit /\ In (k, entry) (cache c)).
  { intros k entry Hin. destruct (deleteAll_In ks _ _ Hnd Hin) as [Hm Hnk].
    split; [|assumption]. cbn [fst] in Hnk.
    destruct (string_dec (headCommit entry) newHeadCommit) as [E | E]; [assumption|].
    exfalso. apply Hnk. apply Hks. now exists entry. }
  split; [exact Hkept|]. split; [|split].
  - intros f. rewrite !get_result. cbn [withCache cache].
    rewrite (deleteAll_get ks _ _ Hnd).
    destruct (in_dec string_dec (getCacheKey f) ks) as [Hin | Hnin]; [|reflexivity].
    apply Hks in Hin. destruct Hin as (e & Hin & Hne).
    rewrite (In_get _ _ _ Hnd Hin). apply String.eqb_neq in Hne. now rewrite Hne.
  - intros f h Hne. rewrite get_result. cbn [withCache cache].
    destruct (JsMap.get (getCacheKey f) _) as [entry|] eqn:E; [|reflexivity].
    apply get_In in E. apply Hkept in E. destruct E as [E _]. rewrite E.
    apply not_eq_sym in Hne. apply String.eqb_neq in Hne. now rewrite Hne.
  - unfold size. cbn [withCache cache]. apply deleteAll_bounded.
Qed.

Example invalidateForHeadChange_sample :
  let c := run [ OpSet "a.ts" "h1" Samples.emptyResult 1;
                 OpSet "b.ts" "h2" Samples.emptyResult 2;
                 OpSet "c.ts" "h1" Samples.emptyResult 3;
                 OpInvalidateForHeadChange "h2" ] (create DEFAULT_MAX_ENTRIES) in
  JsMap.keys (cache c) = ["b.ts"%string].
Proof. vm_compute. reflexivity. Qed.

(* ----------------------------------------------------------------- *)
(** ** Spellings of a path *)

Lemma separator_idempotent (c : ascii) :
  (if Ascii.eqb (if Ascii.eqb c "\"%char then "/"%char else c) "\"%char
   then "/"%char else (if Ascii.eqb c "\"%char then "/"%char else c))
  = (if Ascii.eqb c "\"%char then "/"%char else c).
Proof. destruct c as [[] [] [] [] [] [] [] []]; reflexivity. Qed.

Lemma getCacheKey_toLowerCase (f : string) : getCacheKey (toLowerCase f) = getCacheKey f.
Proof.
  unfold getCacheKey.
  induction f as [|c f IH]; cbn [toLowerCase normalizeSeparators]; [reflexivity|].
  rewrite IH. f_equal.
  destruct c as [[] [] [] [] [] [] [] []]; reflexivity.
Qed.

Lemma getCacheKey_normalizeSeparators (f : string) :
  getCacheKey (normalizeSeparators f) = getCacheKey f.
Proof.
  unfold getCacheKey.
  induction f as [|c f IH]; cbn [toLowerCase normalizeSeparators]; [reflexivity|].
  now rewrite IH, separator_idempotent.
Qed.

Lemma getCacheKey_idempotent (f : string) : getCacheKey (getCacheKey f) = getCacheKey f.
Proof.
  unfold getCacheKey at 2.
  now rewrite getCacheKey_toLowerCase, getCacheKey_normalizeSeparators.
Qed.

(** X12. File keys ignore letter case and the kind of separator: after
    [set(f, h, R)], [get] with the lower cased path, with the path
    whose backslashes are written as slashes, or with any path that has
    the same key returns [R]. *)
Theorem get_ignores_path_spelling (c : BlameCache) (path revision : string)
  (R : BlameParseResult) (now : Z) :
  let c' := set path revision R now c in
  fst (get (toLowerCase path) revision c') = Some R /\
  fst (get (normalizeSeparators path) revision c') = Some R /\
  fst (get (getCacheKey path) revision c') = Some R /\
  (forall other,
     getCacheKey other = getCacheKey path ->
     fst (get other revision c') = Some R).
Proof.
  cbv zeta.
  assert (G : forall other,
             getCacheKey other = getCacheKey path ->
             fst (get other revision (set path revision R now c)) = Some R).
  { intros other E. rewrite get_result, E, get_after_set.
    cbn [BlameCache.headCommit blameResult]. now rewrite String.eqb_refl. }
  repeat split.
  - apply G, getCacheKey_toLowerCase.
  - apply G, getCacheKey_normalizeSeparators.
  - apply G, getCacheKey_idempotent.
  - exact G.
Qed.

Lemma get_ignores_path_spelling_witness :
  fst (get "c:/src/App.ts" "h1"
         (set "C:\Src\app.TS" "h1" Samples.bobResult 1 (create DEFAULT_MAX_ENTRIES)))
  = Some Samples.bobResult.
Proof.
  destruct (get_ignores_path_spelling (create DEFAULT_MAX_ENTRIES) "C:\Src\app.TS" "h1"
              Samples.bobResult 1) as (_ & _ & _ & H).
  apply H. reflexivity.
Defined.

(* ----------------------------------------------------------------- *)
(** ** Counters *)

Lemma step_counters (op : Operation) (c : BlameCache) :
  0 <= hits c -> 0 <= misses c ->
  0 <= hits (step c op) /\ 0 <= misses (step c op) /\
  hits (step c op) + misses (step c op) = getsSinceClear [op] (hits c + misses c).
Proof.
  intros Hh Hm. destruct op as [f h | f h R now | f | h |];
    cbn [step getsSinceClear List.fold_left].
  - unfold get. destruct (JsMap.get (getCacheKey f) (cache c)) as [entry|];
      [destruct (negb (strictEq (headCommit entry) h))|];
      cbn [snd hits misses]; lia.
  - unfold set, withCache. cbn [hits misses].
    destruct (_ && _); [|lia].
    unfold evictOldest. destruct (truthy _); [|lia].
    destruct (fst _); cbn [withCache hits misses]; lia.
  - unfold delete, withCache. cbn [snd hits misses]. lia.
  - unfold invalidateForHeadChange, withCache. cbn [hits misses]. lia.
  - unfold clear. cbn [hits misses]. lia.
Qed.

Lemma run_counters (ops : list Operation) (c : BlameCache) :
  0 <= hits c -> 0 <= misses c ->
  0 <= hits (run ops c) /\ 0 <= misses (run ops c) /\
  hits (run ops c) + misses (run ops c) = getsSinceClear ops (hits c + misses c).
Proof.
  unfold run, getsSinceClear. revert c.
  induction ops as [|op ops IH]; intros c Hh Hm; cbn [List.fold_left].
  - lia.
  - destruct (step_counters op c Hh Hm) as (Hh' & Hm' & Hsum).
    destruct (IH (step c op) Hh' Hm') as (Hh'' & Hm'' & Hsum'').
    split; [assumption|]. split; [assumption|].
    rewrite Hsum''. f_equal. cbn [getsSinceClear List.fold_left] in Hsum.
    exact Hsum.
Qed.

(** X13. After any sequence of calls on a new cache, [hits + misses] is the
    number of [get] calls since the last [clear], and the hit rate that
    [getStats] reports lies between 0 and 100. *)
Theorem getStats_counts_gets (maxEntries : Z) (ops : list Operation) :
  let stats := getStats (run ops (create maxEntries)) in
  0 <= statHits stats /\ 0 <= statMisses stats /\
  statHits stats + statMisses stats = getsSinceClear ops 0 /\
  entryCount stats = size (run ops (create maxEntries)) /\
  (0 <= hitRate stats)%Q /\ (hitRate stats <= 100)%Q.
Proof.
  cbv zeta.
  destruct (run_counters ops (create maxEntries)) as (Hh & Hm & Hsum);
    try (cbn; lia).
  set (c := run ops (create maxEntries)) in *.
  unfold getStats. cbn [statHits statMisses entryCount hitRate].
  split; [assumption|]. split; [assumption|]. split; [exact Hsum|].
  split; [reflexivity|].
  destruct (0 <? hits c + misses c) eqn:E.
  - apply Z.ltb_lt in E.
    destruct (hits c + misses c) as [|p|p] eqn:Et; try lia.
    unfold Qdiv, Qmult, Qinv, Qle, inject_Z. cbn [Qnum Qden].
    rewrite !Pos.mul_1_l, !Pos.mul_1_r. split; nia.
  - split; discriminate.
Qed.

Example getStats_sample :
  let c := run [ OpGet "a.ts" "h1";
                 OpSet "a.ts" "h1" Samples.emptyResult 1;
                 OpGet "a.ts" "h1"; OpGet "A.ts" "h1"; OpGet "a.ts" "h2" ]
             (create DEFAULT_MAX_ENTRIES) in
  hits c = 2 /\ misses c = 2 /\ (hitRate (getStats c) == 50)%Q.
Proof. vm_compute. repeat split. Qed.

Lemma setAll_first_in_first_out_witness :
  cache (setAll [MoreSamples.callA; MoreSamples.callB; MoreSamples.callC] (create 2))
  = List.map entryOf [MoreSamples.callB; MoreSamples.callC] /\
  JsMap.has "a.ts"%string
    (cache (setAll [MoreSamples.callA; MoreSamples.callB; MoreSamples.callC] (create 2)))
  = false.
Proof.
  destruct (setAll_first_in_first_out MoreSamples.callA MoreSamples.callC
              [MoreSamples.callB]) as (Hc & _ & Hh).
  - vm_compute. repeat constructor; intros H;
      repeat (destruct H as [H | H]; [discriminate H|]); contradiction.
  - discriminate.
  - vm_compute. repeat constructor; discriminate.
  - split; [exact Hc | exact Hh].
Defined.

(** ** Eviction at capacity

    The program stores entries under [uri.fsPath] of an existing file,
    an absolute path, so no path is the empty string. *)




(** C9.  Starting from a new cache of capacity at least 1, at no point
    of a sequence of [get], [set], [delete], [invalidateForHeadChange]
    and [clear] calls on paths that are not empty does the number of
    stored entries exceed the capacity, and the capacity itself is
    never changed. *)
Theorem size_never_exceeds_capacity (maxEntries : Z) (ops : list Operation)
  (n : nat) :
  1 <= maxEntries ->
  (forall f h R now, In (OpSet f h R now) ops -> f <> EmptyString) ->
  size (run (List.firstn n ops) (create maxEntries)) <= maxEntries /\
  BlameCache.maxEntries (run (List.firstn n ops) (create maxEntries)) = maxEntries.
Proof.
  intros Hcap Hops.
  destruct (run_bounded (List.firstn n ops) (create maxEntries))
    as [[Hs _] Hm]; [exact Hcap | | |].
  - intros f h R now Hin. apply (Hops f h R now).
    rewrite <- (firstn_skipn n ops). apply in_or_app. now left.
  - split; [unfold size, create, JsMap.size; cbn; lia | intros k []].
  - cbn [BlameCache.maxEntries create] in Hm. split; [lia | exact Hm].
Qed.

Lemma size_never_exceeds_capacity_witness :
  size (run (List.firstn 4
               [ OpSet "a.ts" "h1" Samples.emptyResult 1;
                 OpSet "b.ts" "h1" Samples.emptyResult 2;
                 OpGet "a.ts" "h1";
                 OpSet "c.ts" "h1" Samples.emptyResult 3;
                 OpInvalidateForHeadChange "h2";
                 OpSet "d.ts" "h2" Samples.emptyResult 4 ])
          (create 2)) <= 2 /\
  maxEntries (run (List.firstn 4
                     [ OpSet "a.ts" "h1" Samples.emptyResult 1;
                       OpSet "b.ts" "h1" Samples.emptyResult 2;
                       OpGet "a.ts" "h1";
                       OpSet "c.ts" "h1" Samples.emptyResult 3;
                       OpInvalidateForHeadChange "h2";
                       OpSet "d.ts" "h2" Samples.emptyResult 4 ])
                (create 2)) = 2.
Proof.
  apply size_never_exceeds_capacity.
  - lia.
  - intros f h R now Hin.
    repeat (destruct Hin as [Hin | Hin];
            [try discriminate Hin; injection Hin as <- _ _ _; discriminate|]).
    contradiction.
Defined.

(** ** The empty path

    [evictOldest] tests [if (oldestKey)], and the key of the empty path
    is the empty string, which is falsy.  No caller of the cache passes
    the empty path; the two examples show what the class does with it,
    and why the properties above name it. *)

(** A cache of capacity 1 holding the entry of the path [""] is at
    capacity; [set] of the new path ["a.ts"] calls [evictOldest], whose
    scan finds the key [""] and then deletes nothing. *)
Example set_at_capacity_keeps_empty_key :
  let c := set "" "h1" Samples.emptyResult 1 (create 1) in
  let c' := set "a.ts" "h1" Samples.emptyResult 2 c in
  size c = maxEntries c /\
  JsMap.has (getCacheKey "a.ts") (cache c) = false /\
  oldestEntry (cache c) = (Some EmptyString, Some 1) /\
  evictOldest c = c /\
  JsMap.keys (cache c') = [EmptyString; "a.ts"%string] /\
  size c' = 2.
Proof. vm_compute. repeat split. Qed.

(** The same two calls as a sequence of operations. *)
Example capacity_exceeded_by_empty_path :
  let ops := [ OpSet "" "h1" Samples.emptyResult 1;
               OpSet "a.ts" "h1" Samples.emptyResult 2 ] in
  let c := run ops (create 1) in
  maxEntries c = 1 /\ size c = 2.
Proof. vm_compute. repeat split. Qed.

(** With paths that are not empty the same two calls evict. *)
Example eviction_first_in_first_out :
  let c := set "C.ts" "h1" Samples.emptyResult 3
             (set "b.ts" "h1" Samples.emptyResult 2
                (set "A.ts" "h1" Samples.emptyResult 1 (create 2))) in
  JsMap.keys (cache c) = ["b.ts"; "c.ts"]%string /\ size c = 2.
Proof. vm_compute. split; reflexivity. Qed.

End CacheSpec.

(* ================================================================= *)
(** * The heatmap *)

Module HeatmapSpec.

Import BlameParser.
Import Heatmap.
Import JsFacts.
Import Predicates.

Lemma ratio_in_unit_interval (a b : Z) :
  0 <= a <= b -> 0 < b ->
  (0 <= inject_Z a / inject_Z b)%Q /\ (inject_Z a / inject_Z b <= 1)%Q.
Proof.
  intros Ha Hb. destruct b as [|p|p]; try lia.
  unfold Qdiv, Qmult, Qinv, Qle, inject_Z. cbn [Qnum Qden].
  rewrite Pos.mul_1_l. lia.
Qed.

Lemma timeBounds_scan (m seen : JsMap.t Z BlameLineInfo) (st : option Z * option Z) :
  boundsOf seen st ->
  boundsOf (seen ++ m)
    (List.fold_left
       (fun (st : option Z * option Z) (kv : Z * BlameLineInfo) =>
          let '(minTime, maxTime) := st in
          match authorTime (snd kv) with
          | Some t =>
              if negb (isUncommitted (snd kv)) && (0 <? t)
              then (Some (match minTime with Some m => Z.min m t | None => t end),
                    Some (match maxTime with Some m => Z.max m t | None => t end))
              else st
          | None => st
          end)
       m st).
Proof.
  revert seen st. induction m as [|[k info] rest IH]; intros seen st Hst.
  - now rewrite app_nil_r.
  - cbn [List.fold_left].
    replace (seen ++ (k, info) :: rest) with ((seen ++ [(k, info)]) ++ rest)
      by now rewrite <- app_assoc.
    apply IH. cbn [snd].
    destruct st as [[lo|] [hi|]]; cbn [boundsOf] in Hst; try contradiction.
    + destruct Hst as [Hle Hst].
      destruct (authorTime info) as [t|] eqn:Et.
      * destruct (negb (isUncommitted info) && (0 <? t)) eqn:E; cbn [boundsOf].
        -- split; [lia|]. intros kv t' Hin Hu Ht Hp.
           apply in_app_or in Hin. destruct Hin as [Hin | [<- | []]].
           ++ specialize (Hst kv t' Hin Hu Ht Hp). lia.
           ++ cbn [snd] in Ht. rewrite Et in Ht. injection Ht as <-. lia.
        -- split; [assumption|]. intros kv t' Hin Hu Ht Hp.
           apply in_app_or in Hin. destruct Hin as [Hin | [<- | []]].
           ++ now apply (Hst kv).
           ++ cbn [snd] in Ht, Hu. rewrite Et in Ht. injection Ht as <-.
              rewrite Hu in E. apply Z.ltb_lt in Hp. rewrite Hp in E.
              discriminate.
      * cbn [boundsOf]. split; [assumption|]. intros kv t' Hin Hu Ht Hp.
        apply in_app_or in Hin. destruct Hin as [Hin | [<- | []]].
        -- now apply (Hst kv).
        -- cbn [snd] in Ht. congruence.
    + destruct (authorTime info) as [t|] eqn:Et.
      * destruct (negb (isUncommitted info) && (0 <? t)) eqn:E; cbn [boundsOf].
        -- split; [lia|]. intros kv t' Hin Hu Ht Hp.
           apply in_app_or in Hin. destruct Hin as [Hin | [<- | []]].
           ++ exfalso. now apply (Hst kv t').
           ++ cbn [snd] in Ht. rewrite Et in Ht. injection Ht as <-. lia.
        -- intros kv t' Hin Hu Ht Hp.
           apply in_app_or in Hin. destruct Hin as [Hin | [<- | []]].
           ++ now apply (Hst kv t').
           ++ cbn [snd] in Ht, Hu. rewrite Et in Ht. injection Ht as <-.
              rewrite Hu in E. apply Z.ltb_lt in Hp. rewrite Hp in E.
              discriminate.
      * cbn [boundsOf]. intros kv t' Hin Hu Ht Hp.
        apply in_app_or in Hin. destruct Hin as [Hin | [<- | []]].
        -- now apply (Hst kv t').
        -- cbn [snd] in Ht. congruence.
Qed.

Lemma timeBounds_spec (blameResult : BlameParseResult) :
  boundsOf (lines blameResult) (timeBounds blameResult).
Proof.
  unfold timeBounds, JsMap.forEach.
  apply (timeBounds_scan (lines blameResult) [] (None, None)).
  intros kv t [].
Qed.

(** The elements of the result, before the sort. *)
Lemma calculateHeatmap_elements (blameResult : BlameParseResult)
  (config : HeatmapConfig) (d : HeatmapLineData) :
  In d (calculateHeatmap blameResult config) ->
  exists minTime maxTime n info,
    timeBounds blameResult = (Some minTime, Some maxTime) /\
    In (n, info) (lines blameResult) /\
    isUncommitted info = false /\
    lineNumber d = n /\
    timestamp d = authorTime info /\
    ageRatio d = ageRatioOf (authorTime info) minTime (maxTime - minTime).
Proof.
  unfold calculateHeatmap.
  destruct (timeBounds blameResult) as [[minTime|] [maxTime|]];
    try contradiction.
  intros Hin. exists minTime, maxTime.
  apply (Permutation_in _ (sort_perm lineNumber _)) in Hin.
  cbv zeta in Hin.
  rewrite (forEach_skip
             (fun info (_ : Z) => isUncommitted info)
             (fun info n =>
                {| lineNumber := n;
                   color := getHeatmapColor
                              (ageRatioOf (authorTime info) minTime (maxTime - minTime))
                              config;
                   ageRatio := ageRatioOf (authorTime info) minTime (maxTime - minTime);
                   timestamp := authorTime info |})) in Hin.
  cbn [app] in Hin. apply in_map_iff in Hin.
  destruct Hin as ([n info] & <- & Hin). apply filter_In in Hin.
  destruct Hin as [Hin Hu]. cbn [fst snd] in *.
  apply negb_true_iff in Hu. exists n, info. now repeat split.
Qed.

(** Where every committed line carries a positive time, every ratio is
    a number between 0 and 1. *)
Lemma calculateHeatmap_dated_ratio (blameResult : BlameParseResult)
  (config : HeatmapConfig) :
  (forall kv, In kv (lines blameResult) ->
              isUncommitted (snd kv) = false -> dated (snd kv)) ->
  forall d, In d (calculateHeatmap blameResult config) ->
  exists q, ageRatio d = Some q /\ (0 <= q)%Q /\ (q <= 1)%Q.
Proof.
  intros Hdated d Hin.
  apply calculateHeatmap_elements in Hin.
  destruct Hin as (lo & hi & n & info & Hb & Hin & Hu & _ & _ & Hr).
  pose proof (timeBounds_spec blameResult) as Hspec. rewrite Hb in Hspec.
  destruct Hspec as [Hle Hspec].
  destruct (Hdated (n, info) Hin Hu) as [_ (t & Ht & Hp)].
  cbn [snd] in Ht.
  specialize (Hspec (n, info) t Hin Hu Ht Hp).
  rewrite Hr, Ht. unfold ageRatioOf.
  destruct (0 <? hi - lo) eqn:E.
  - apply Z.ltb_lt in E. eexists. split; [reflexivity|].
    apply ratio_in_unit_interval; lia.
  - exists 0%Q. split; [reflexivity|]. split; discriminate.
Qed.

(** C1.  In the report [MISSING_TIME_OUTPUT] the block of line 1 has no
    [author-time] line, so line 1 is committed with [authorTime] 0.  The
    first loop of [calculateHeatmap] leaves that line out of [minTime]
    (it asks [authorTime > 0]) and the second loop does not: with the
    other two lines at 100 and 200 the datum of line 1 gets the ratio
    (0 - 100) / 100 = -1, below 0, under every configuration. *)
Theorem calculateHeatmap_ratio_below_zero (config : HeatmapConfig) :
  let blameResult := parseBlameOutput Samples.MISSING_TIME_OUTPUT in
  success blameResult = true /\
  List.map (fun kv => (isUncommitted (snd kv), authorTime (snd kv))) (lines blameResult)
  = [(false, Some 0); (false, Some 100); (false, Some 200)] /\
  timeBounds blameResult = (Some 100, Some 200) /\
  List.map (fun d => (lineNumber d, ageRatio d)) (calculateHeatmap blameResult config)
  = [(1, Some (-100 # 100)); (2, Some (0 # 100)); (3, Some (100 # 100))] /\
  (-100 # 100 < 0)%Q.
Proof. vm_compute. repeat split. Qed.

(** All committed lines at one time: every ratio is 0. *)
Example calculateHeatmap_single_time :
  List.map ageRatio
    (calculateHeatmap
       (Samples.resultOf [ Samples.line 1 "a" "x" (Some 500) false;
                           Samples.line 2 "b" "y" (Some 500) false;
                           Samples.line 3 "c" "z" (Some 900) true ])
       DEFAULT_HEATMAP_CONFIG)
  = [Some 0%Q; Some 0%Q].
Proof. vm_compute. reflexivity. Qed.

(** ** Buckets *)

Lemma bucketIndexOf_below (r : Q) (buckets : Z) :
  exists i, bucketIndexOf (Some r) buckets = Some i /\ i < buckets.
Proof.
  eexists. split; [reflexivity|]. lia.
Qed.

(** The keys of the grouping are bucket indices of the data. *)
Lemma groupHeatmapByColor_keys (heatmapData : list HeatmapLineData) (buckets : Z)
  (config : HeatmapConfig) (k : number) :
  In k (JsMap.keys (groupHeatmapByColor heatmapData buckets config)) ->
  exists d, In d heatmapData /\ k = bucketIndexOf (ageRatio d) buckets.
Proof.
  unfold groupHeatmapByColor.
  assert (G : forall (groups : JsMap.t number ColorGroup),
             In k (JsMap.keys
                     (List.fold_left
                        (fun groups data =>
                           let bucketIndex := bucketIndexOf (ageRatio data) buckets in
                           let groups1 :=
                             if negb (JsMap.has bucketIndex groups)
                             then JsMap.set bucketIndex
                                    {| groupColor :=
                                         getHeatmapColor
                                           (bucketRatioOf bucketIndex buckets) config;
                                       groupLines := [] |}
                                    groups
                             else groups in
                           match JsMap.get bucketIndex groups1 with
                           | Some g =>
                               JsMap.set bucketIndex
                                 {| groupColor := groupColor g;
                                    groupLines := groupLines g ++ [lineNumber data] |}
                                 groups1
                           | None => groups1
                           end)
                        heatmapData groups)) ->
             In k (JsMap.keys groups) \/
             exists d, In d heatmapData /\ k = bucketIndexOf (ageRatio d) buckets).
  { induction heatmapData as [|data rest IH]; intros groups Hin;
      cbn [List.fold_left] in Hin.
    - now left.
    - apply IH in Hin. destruct Hin as [Hin | (d & Hd & Hk)].
      + cbv zeta in Hin.
        assert (Hset : forall v (m : JsMap.t number ColorGroup),
                   In k (JsMap.keys (JsMap.set (bucketIndexOf (ageRatio data) buckets) v m)) ->
                   k = bucketIndexOf (ageRatio data) buckets \/ In k (JsMap.keys m)).
        { intros v m Hk. rewrite keys_set in Hk.
          destruct (JsMap.has (bucketIndexOf (ageRatio data) buckets) m); [now right|].
          apply in_app_or in Hk. destruct Hk as [Hk | [<- | []]]; auto. }
        assert (Hstep : k = bucketIndexOf (ageRatio data) buckets \/ In k (JsMap.keys groups)).
        { destruct (negb (JsMap.has (bucketIndexOf (ageRatio data) buckets) groups)).
          - destruct (JsMap.get (bucketIndexOf (ageRatio data) buckets)
                        (JsMap.set (bucketIndexOf (ageRatio data) buckets)
                           {| groupColor :=
                                getHeatmapColor
                                  (bucketRatioOf (bucketIndexOf (ageRatio data) buckets)
                                     buckets) config;
                              groupLines := [] |} groups)) as [g|].
            + apply Hset in Hin. destruct Hin as [Hin | Hin]; [now left|].
              now apply Hset in Hin.
            + now apply Hset in Hin.
          - destruct (JsMap.get (bucketIndexOf (ageRatio data) buckets) groups) as [g|].
            + now apply Hset in Hin.
            + now right. }
        destruct Hstep as [-> | Hg]; [|now left].
        right. exists data. split; [now left | reflexivity].
      + right. exists d. split; [now right | assumption]. }
  intros Hin. apply G in Hin. destruct Hin as [[] | Hin]. exact Hin.
Qed.

(** C8 (as amended).  When no [ageRatio] of the data is NaN and
    [buckets >= 1], every bucket index of the grouping is an integer
    strictly less than [buckets]. *)
Theorem bucket_index_below_count (heatmapData : list HeatmapLineData) (buckets : Z)
  (config : HeatmapConfig) (k : number) :
  1 <= buckets ->
  (forall d, In d heatmapData -> ageRatio d <> None) ->
  In k (JsMap.keys (groupHeatmapByColor heatmapData buckets config)) ->
  exists i, k = Some i /\ i < buckets.
Proof.
  intros _ Hnum Hin. apply groupHeatmapByColor_keys in Hin.
  destruct Hin as (d & Hd & ->). specialize (Hnum d Hd).
  destruct (ageRatio d) as [r|]; [|contradiction].
  apply bucketIndexOf_below.
Qed.

Lemma bucket_index_below_count_witness :
  exists i, Some 10 = Some i /\ i < DEFAULT_BUCKETS.
Proof.
  apply (bucket_index_below_count [Samples.halfDatum] DEFAULT_BUCKETS
           DEFAULT_HEATMAP_CONFIG (Some 10)).
  - vm_compute. discriminate.
  - intros d [<- | []]. discriminate.
  - vm_compute. left. reflexivity.
Defined.

(** C8 as stated fails: a datum whose ratio is NaN is grouped under the
    key NaN, which is no integer below the bucket count. *)
Lemma bucket_index_nan :
  In None (JsMap.keys
             (groupHeatmapByColor [Samples.nanDatum] DEFAULT_BUCKETS
                DEFAULT_HEATMAP_CONFIG)) /\
  1 <= DEFAULT_BUCKETS /\
  ~ (exists i, (None : number) = Some i /\ i < DEFAULT_BUCKETS).
Proof.
  split; [vm_compute; now left|]. split; [vm_compute; discriminate|].
  intros (i & Hi & _). discriminate.
Qed.

(** Such a datum comes out of [calculateHeatmap] when a committed line
    has a NaN time next to two different positive times, and keeps its
    NaN through the grouping. *)
Example calculateHeatmap_nan_bucket :
  let blameResult :=
    Samples.resultOf [ Samples.line 1 "a" "x" None false;
                       Samples.line 2 "b" "y" (Some 100) false;
                       Samples.line 3 "c" "z" (Some 200) false ] in
  let heatmapData := calculateHeatmap blameResult DEFAULT_HEATMAP_CONFIG in
  List.map ageRatio heatmapData = [None; Some (0 # 100); Some (100 # 100)] /\
  List.map (fun kv => (fst kv, groupLines (snd kv)))
    (groupHeatmapByColor heatmapData DEFAULT_BUCKETS DEFAULT_HEATMAP_CONFIG)
  = [(None, [1]); (Some 0, [2]); (Some 19, [3])].
Proof. vm_compute. split; reflexivity. Qed.

(* ----------------------------------------------------------------- *)
(** ** The list [calculateHeatmap] returns *)

Lemma timeBounds_attained_scan (m seen : JsMap.t Z BlameLineInfo)
  (st : option Z * option Z) :
  attained seen st ->
  attained (seen ++ m)
    (List.fold_left
       (fun (st : option Z * option Z) (kv : Z * BlameLineInfo) =>
          let '(minTime, maxTime) := st in
          match authorTime (snd kv) with
          | Some t =>
              if negb (isUncommitted (snd kv)) && (0 <? t)
              then (Some (match minTime with Some m => Z.min m t | None => t end),
                    Some (match maxTime with Some m => Z.max m t | None => t end))
              else st
          | None => st
          end)
       m st).
Proof.
  revert seen st. induction m as [|[k info] rest IH]; intros seen st Hst.
  - now rewrite app_nil_r.
  - cbn [List.fold_left].
    replace (seen ++ (k, info) :: rest) with ((seen ++ [(k, info)]) ++ rest)
      by now rewrite <- app_assoc.
    apply IH. cbn [snd].
    assert (Hkeep : attained (seen ++ [(k, info)]) st).
    { destruct st as [[lo|] [hi|]]; cbn [attained] in *; try exact I;
        try contradiction.
      destruct Hst as [(kv1 & H1 & H1') (kv2 & H2 & H2')].
      split; [exists kv1 | exists kv2]; (split; [apply in_or_app; now left | assumption]). }
    destruct st as [minTime maxTime].
    destruct (authorTime info) as [t|] eqn:Et; [|exact Hkeep].
    destruct (negb (isUncommitted info) && (0 <? t)) eqn:E; [|exact Hkeep].
    apply andb_true_iff in E. destruct E as [Eu Ep].
    apply negb_true_iff in Eu. apply Z.ltb_lt in Ep.
    assert (Hnew : In (k, info) (seen ++ [(k, info)]) /\ dated info).
    { split; [apply in_or_app; right; now left|]. split; [assumption|]. now exists t. }
    destruct Hnew as [Hin Hd].
    cbn [attained]. split.
    + destruct minTime as [lo|].
      * destruct (Z.min_spec lo t) as [[_ ->] | [_ ->]].
        -- destruct maxTime as [hi|]; cbn [attained] in Hkeep.
           ++ exact (proj1 Hkeep).
           ++ destruct Hst.
        -- exists (k, info). cbn [snd]. split; [exact Hin|]. split; [exact Hd | exact Et].
      * exists (k, info). cbn [snd]. split; [exact Hin|]. split; [exact Hd | exact Et].
    + destruct maxTime as [hi|].
      * destruct (Z.max_spec hi t) as [[_ ->] | [_ ->]].
        -- exists (k, info). cbn [snd]. split; [exact Hin|]. split; [exact Hd | exact Et].
        -- destruct minTime as [lo|]; cbn [attained] in Hkeep.
           ++ exact (proj2 Hkeep).
           ++ destruct Hst.
      * exists (k, info). cbn [snd]. split; [exact Hin|]. split; [exact Hd | exact Et].
Qed.

Lemma timeBounds_attained (blameResult : BlameParseResult) :
  attained (lines blameResult) (timeBounds blameResult).
Proof.
  unfold timeBounds, JsMap.forEach.
  apply (timeBounds_attained_scan (lines blameResult) [] (None, None)). exact I.
Qed.

(** The first loop finds a pair of times exactly when some committed
    line carries a positive time. *)
Lemma timeBounds_some (blameResult : BlameParseResult) :
  (exists kv, In kv (lines blameResult) /\ dated (snd kv)) ->
  exists lo hi, timeBounds blameResult = (Some lo, Some hi).
Proof.
  intros (kv & Hin & [Hu (t & Ht & Hp)]).
  pose proof (timeBounds_spec blameResult) as Hb.
  destruct (timeBounds blameResult) as [[lo|] [hi|]]; cbn [boundsOf] in Hb;
    try contradiction.
  - now exists lo, hi.
  - exfalso. exact (Hb kv t Hin Hu Ht Hp).
Qed.

Lemma timeBounds_none (blameResult : BlameParseResult) :
  (forall kv, In kv (lines blameResult) -> ~ dated (snd kv)) ->
  timeBounds blameResult = (None, None).
Proof.
  intros Hnone. pose proof (timeBounds_attained blameResult) as Ha.
  pose proof (timeBounds_spec blameResult) as Hb.
  destruct (timeBounds blameResult) as [[lo|] [hi|]]; cbn [attained boundsOf] in *;
    try contradiction; [|reflexivity].
  destruct Ha as [(kv & Hin & Hd & _) _]. exfalso. exact (Hnone kv Hin Hd).
Qed.

Lemma calculateHeatmap_unsorted (blameResult : BlameParseResult)
  (config : HeatmapConfig) (lo hi : Z) :
  timeBounds blameResult = (Some lo, Some hi) ->
  Permutation (calculateHeatmap blameResult config)
    (List.map
       (fun kv =>
          {| lineNumber := fst kv;
             color := getHeatmapColor (ageRatioOf (authorTime (snd kv)) lo (hi - lo)) config;
             ageRatio := ageRatioOf (authorTime (snd kv)) lo (hi - lo);
             timestamp := authorTime (snd kv) |})
       (List.filter (fun kv => negb (isUncommitted (snd kv))) (lines blameResult))).
Proof.
  intros Hb. unfold calculateHeatmap. rewrite Hb. cbv zeta.
  rewrite (forEach_skip
             (fun info (_ : Z) => isUncommitted info)
             (fun info n =>
                {| lineNumber := n;
                   color := getHeatmapColor (ageRatioOf (authorTime info) lo (hi - lo)) config;
                   ageRatio := ageRatioOf (authorTime info) lo (hi - lo);
                   timestamp := authorTime info |})).
  cbn [app]. apply (sort_perm lineNumber).
Qed.

(** X14. [calculateHeatmap] returns its data in ascending line order.  Each
    datum belongs to a committed line of the blame result, carries that
    line's [authorTime], and is coloured by its own ratio; with at
    least one committed line of positive time there is exactly one
    datum per committed line, and with none the list is empty. *)
Theorem calculateHeatmap_covers_committed (blameResult : BlameParseResult)
  (config : HeatmapConfig) :
  let result := calculateHeatmap blameResult config in
  Sorted (fun a b => lineNumber a <= lineNumber b) result /\
  (forall d, In d result ->
     exists info,
       In (lineNumber d, info) (lines blameResult) /\ isUncommitted info = false /\
       timestamp d = authorTime info /\
       color d = getHeatmapColor (ageRatio d) config) /\
  ((exists kv, In kv (lines blameResult) /\ dated (snd kv)) ->
   Permutation (List.map lineNumber result)
     (JsMap.keys (List.filter (fun kv => negb (isUncommitted (snd kv)))
                    (lines blameResult)))) /\
  ((forall kv, In kv (lines blameResult) -> ~ dated (snd kv)) -> result = []).
Proof.
  cbv zeta. split; [|split; [|split]].
  - unfold calculateHeatmap.
    destruct (timeBounds blameResult) as [[lo|] [hi|]]; try constructor.
    apply (sort_sorted lineNumber).
  - intros d Hd.
    destruct (timeBounds blameResult) as [[lo|] [hi|]] eqn:Hb;
      try (unfold calculateHeatmap in Hd; rewrite Hb in Hd; contradiction).
    apply (Permutation_in _ (calculateHeatmap_unsorted blameResult config lo hi Hb)) in Hd.
    apply in_map_iff in Hd. destruct Hd as ([n info] & <- & Hin).
    apply filter_In in Hin. destruct Hin as [Hin Hu]. cbn [fst snd] in *.
    apply negb_true_iff in Hu. exists info. now repeat split.
  - intros Hex. destruct (timeBounds_some blameResult Hex) as (lo & hi & Hb).
    unfold JsMap.keys.
    pose proof (Permutation_map lineNumber
                  (calculateHeatmap_unsorted blameResult config lo hi Hb)) as Hp.
    rewrite map_map in Hp. exact Hp.
  - intros Hnone. unfold calculateHeatmap.
    now rewrite (timeBounds_none blameResult Hnone).
Qed.

Lemma calculateHeatmap_covers_committed_witness :
  Permutation
    (List.map lineNumber
       (calculateHeatmap (parseBlameOutput Samples.SAMPLE_BLAME_OUTPUT)
          DEFAULT_HEATMAP_CONFIG))
    [1; 2].
Proof.
  destruct (calculateHeatmap_covers_committed
              (parseBlameOutput Samples.SAMPLE_BLAME_OUTPUT) DEFAULT_HEATMAP_CONFIG)
    as (_ & _ & H & _).
  apply H. eexists. split.
  - vm_compute. left. reflexivity.
  - split; [reflexivity|]. eexists. split; [reflexivity|]. reflexivity.
Defined.

(** X15. Where every committed line carries a positive time, every ratio of
    the heatmap is a number between 0 and 1; the lines of the oldest
    time get the ratio 0, and when the times differ the lines of the
    newest time get the ratio 1. *)
Theorem calculateHeatmap_ratio_scale (blameResult : BlameParseResult)
  (config : HeatmapConfig) :
  (forall kv, In kv (lines blameResult) ->
              isUncommitted (snd kv) = false -> dated (snd kv)) ->
  (forall d, In d (calculateHeatmap blameResult config) ->
             exists q, ageRatio d = Some q /\ (0 <= q)%Q /\ (q <= 1)%Q) /\
  (forall lo hi,
     timeBounds blameResult = (Some lo, Some hi) ->
     (forall d, In d (calculateHeatmap blameResult config) ->
                timestamp d = Some lo ->
                exists q, ageRatio d = Some q /\ (q == 0)%Q) /\
     (lo < hi ->
      forall d, In d (calculateHeatmap blameResult config) ->
                timestamp d = Some hi ->
                exists q, ageRatio d = Some q /\ (q == 1)%Q) /\
     (exists d, In d (calculateHeatmap blameResult config) /\ timestamp d = Some lo) /\
     (exists d, In d (calculateHeatmap blameResult config) /\ timestamp d = Some hi)).
Proof.
  intros Hdated. split; [now apply calculateHeatmap_dated_ratio|].
  intros lo hi Hb.
  assert (Hd : forall d, In d (calculateHeatmap blameResult config) ->
                         ageRatio d = ageRatioOf (timestamp d) lo (hi - lo)).
  { intros d Hin.
    apply (Permutation_in _ (calculateHeatmap_unsorted blameResult config lo hi Hb)) in Hin.
    apply in_map_iff in Hin. destruct Hin as (kv & <- & _). reflexivity. }
  assert (Hex : forall t,
             (exists kv, In kv (lines blameResult) /\ dated (snd kv) /\
                         authorTime (snd kv) = Some t) ->
             exists d, In d (calculateHeatmap blameResult config) /\ timestamp d = Some t).
  { intros t (kv & Hin & [Hu _] & Ht).
    eexists. split.
    - apply (Permutation_in _
               (Permutation_sym (calculateHeatmap_unsorted blameResult config lo hi Hb))).
      apply in_map_iff. exists kv. split; [reflexivity|].
      apply filter_In. split; [assumption|]. now rewrite Hu.
    - exact Ht. }
  pose proof (timeBounds_attained blameResult) as Ha. rewrite Hb in Ha.
  destruct Ha as [Hlo Hhi].
  split; [|split; [|split]].
  - intros d Hin Ht. rewrite (Hd d Hin), Ht. unfold ageRatioOf.
    destruct (0 <? hi - lo); eexists; (split; [reflexivity|]).
    + rewrite Z.sub_diag. reflexivity.
    + reflexivity.
  - intros Hlt d Hin Ht. rewrite (Hd d Hin), Ht. unfold ageRatioOf.
    assert (E : (0 <? hi - lo) = true) by (apply Z.ltb_lt; lia).
    rewrite E. eexists. split; [reflexivity|].
    apply Qmult_inv_r. intros Hz. unfold Qeq, inject_Z in Hz. cbn [Qnum Qden] in Hz. lia.
  - now apply Hex.
  - now apply Hex.
Qed.

Lemma sample_dated :
  forall kv, In kv (lines (parseBlameOutput Samples.SAMPLE_BLAME_OUTPUT)) ->
             isUncommitted (snd kv) = false -> dated (snd kv).
Proof.
  intros kv Hin Hu. rewrite ParserSpec.sample_lines in Hin.
  destruct Hin as [<- | [<- | [<- | []]]]; try discriminate Hu;
    (split; [reflexivity|]; eexists; split; [reflexivity|]; reflexivity).
Defined.

Lemma calculateHeatmap_ratio_scale_witness :
  Forall (fun d => exists q, ageRatio d = Some q /\ (0 <= q)%Q /\ (q <= 1)%Q)
    (calculateHeatmap (parseBlameOutput Samples.SAMPLE_BLAME_OUTPUT)
       DEFAULT_HEATMAP_CONFIG).
Proof.
  apply Forall_forall.
  exact (proj1 (calculateHeatmap_ratio_scale
                  (parseBlameOutput Samples.SAMPLE_BLAME_OUTPUT)
                  DEFAULT_HEATMAP_CONFIG sample_dated)).
Defined.

Lemma mathRound_unit (v : Q) : (0 <= v)%Q -> (v <= 1)%Q -> 0 <= mathRound (v * 255) <= 255.
Proof.
  intros H0 H1. unfold mathRound. split.
  - apply (Qfloor_resp_le 0). lra.
  - apply (Qfloor_resp_le _ (255 + (1 # 2))). lra.
Qed.

Lemma Qltb_lt (x y : Q) : Qltb x y = true -> (x < y)%Q.
Proof.
  unfold Qltb. rewrite negb_true_iff. intros H.
  apply Qnot_le_lt. intros Hle. apply Qle_bool_iff in Hle. congruence.
Qed.

Lemma remainder_two (x : Q) : (0 <= x)%Q -> (0 <= remainder x 2)%Q /\ (remainder x 2 <= 2)%Q.
Proof.
  intros Hx. unfold remainder, mathTrunc.
  change (x / 2)%Q with (x * (1 # 2))%Q.
  assert (Hh : (0 <= x * (1 # 2))%Q) by lra.
  apply Qle_bool_iff in Hh. rewrite Hh.
  pose proof (Qfloor_le (x * (1 # 2))) as Hlo.
  pose proof (Qlt_floor (x * (1 # 2))) as Hhi.
  rewrite inject_Z_plus in Hhi. change (inject_Z 1) with 1%Q in Hhi.
  split; lra.
Qed.

Lemma chroma_bounds (s l : Q) :
  (0 <= s)%Q -> (s <= 100)%Q -> (0 <= l)%Q -> (l <= 100)%Q ->
  let c := ((1 - Qabs (2 * (l / 100) - 1)) * (s / 100))%Q in
  let m := (l / 100 - c / 2)%Q in
  (0 <= c)%Q /\ (0 <= m)%Q /\ (c + m <= 1)%Q.
Proof.
  intros Hs0 Hs1 Hl0 Hl1. cbv zeta.
  change (l / 100)%Q with (l * (1 # 100))%Q.
  change (s / 100)%Q with (s * (1 # 100))%Q.
  set (a := Qabs (2 * (l * (1 # 100)) - 1)).
  assert (Ha0 : (0 <= a)%Q) by apply Qabs_nonneg.
  assert (Ha : (a <= 1)%Q /\ (1 - a <= 2 * (l * (1 # 100)))%Q /\
               (1 - a <= 2 - 2 * (l * (1 # 100)))%Q).
  { unfold a. apply Qabs_case; intros Hc; repeat split; lra. }
  destruct Ha as (Ha1 & Ha2 & Ha3).
  set (t := (s * (1 # 100))%Q) in *. set (u := (l * (1 # 100))%Q) in *.
  assert (Ht : (0 <= t)%Q /\ (t <= 1)%Q) by (unfold t; split; lra).
  destruct Ht as [Ht0 Ht1].
  set (c := ((1 - a) * t)%Q).
  assert (Hc0 : (0 <= c)%Q).
  { unfold c. apply Qmult_le_0_compat; lra. }
  assert (Hc1 : (c <= 1 - a)%Q).
  { unfold c. assert (H : (0 <= (1 - a) * (1 - t))%Q) by (apply Qmult_le_0_compat; lra).
    lra. }
  change (c / 2)%Q with (c * (1 # 2))%Q.
  repeat split; lra.
Qed.

Lemma sector_x (c h : Q) :
  (0 <= c)%Q -> (0 <= h)%Q ->
  let x := (c * (1 - Qabs (remainder (h / 60) 2 - 1)))%Q in
  (0 <= x)%Q /\ (x <= c)%Q.
Proof.
  intros Hc Hh. cbv zeta. change (h / 60)%Q with (h * (1 # 60))%Q.
  destruct (remainder_two (h * (1 # 60))) as [Hr0 Hr2]; [lra|].
  set (r := remainder (h * (1 # 60)) 2) in *.
  set (a := Qabs (r - 1)).
  assert (Ha0 : (0 <= a)%Q) by apply Qabs_nonneg.
  assert (Ha1 : (a <= 1)%Q).
  { unfold a. apply Qabs_case; intros; lra. }
  assert (H1 : (0 <= c * (1 - a))%Q) by (apply Qmult_le_0_compat; lra).
  assert (H2 : (0 <= c * a)%Q) by (apply Qmult_le_0_compat; lra).
  split; lra.
Qed.

(** X16. For a saturation and a lightness between 0 and 100, and any hue,
    also NaN or one outside the six sectors, [hslToRgba] yields three
    channels between 0 and 255 and hands the alpha through. *)
Theorem hslToRgba_channels (h : ratio) (s l a : Q) :
  (0 <= s)%Q -> (s <= 100)%Q -> (0 <= l)%Q -> (l <= 100)%Q ->
  let rgba := hslToRgba h s l a in
  0 <= red rgba <= 255 /\ 0 <= green rgba <= 255 /\ 0 <= blue rgba <= 255 /\
  alpha rgba = a.
Proof.
  intros Hs0 Hs1 Hl0 Hl1. cbv zeta.
  destruct (chroma_bounds s l Hs0 Hs1 Hl0 Hl1) as (Hc0 & Hm0 & Hcm).
  cbv zeta in Hc0, Hm0, Hcm.
  unfold hslToRgba.
  set (c := ((1 - Qabs (2 * (l / 100) - 1)) * (s / 100))%Q) in *.
  set (m := (l / 100 - c / 2)%Q) in *.
  assert (Hzero : 0 <= mathRound ((0 + m) * 255) <= 255).
  { apply mathRound_unit; lra. }
  assert (Hfull : 0 <= mathRound ((c + m) * 255) <= 255).
  { apply mathRound_unit; lra. }
  destruct Hzero as [Hz0 Hz1]. destruct Hfull as [Hf0 Hf1].
  destruct h as [h|]; [|cbn [red green blue alpha]; repeat split; assumption].
  set (x := (c * (1 - Qabs (remainder (h / 60) 2 - 1)))%Q).
  assert (Hx : (0 <= h)%Q -> 0 <= mathRound ((x + m) * 255) <= 255).
  { intros Hh. destruct (sector_x c h Hc0 Hh) as [Hx0 Hx1]. fold x in Hx0, Hx1.
    apply mathRound_unit; lra. }
  unfold inSector.
  repeat match goal with
         | |- context [Qle_bool ?lo h && Qltb h ?hi] =>
             let E := fresh "E" in
             destruct (Qle_bool lo h && Qltb h hi) eqn:E;
             [apply andb_true_iff in E; destruct E as [E _];
              apply Qle_bool_iff in E;
              assert (Hh : (0 <= h)%Q) by lra;
              destruct (Hx Hh) as [Hx0 Hx1];
              cbn [red green blue alpha];
              repeat split; (assumption || reflexivity) |]
         end.
  cbn [red green blue alpha]. repeat split; assumption.
Qed.

Lemma hslToRgba_channels_witness :
  let rgba := hslToRgba (Some 240%Q) 55 45 (30 # 100) in
  0 <= red rgba <= 255 /\ 0 <= green rgba <= 255 /\ 0 <= blue rgba <= 255 /\
  alpha rgba = (30 # 100)%Q.
Proof.
  apply (hslToRgba_channels (Some 240%Q) 55 45 (30 # 100)); discriminate.
Defined.


Lemma groupHeatmapByColor_snoc (l : list HeatmapLineData) (d : HeatmapLineData)
  (buckets : Z) (config : HeatmapConfig) :
  groupHeatmapByColor (l ++ [d]) buckets config
  = let groups := groupHeatmapByColor l buckets config in
    let bucketIndex := bucketIndexOf (ageRatio d) buckets in
    let groups1 :=
      if negb (JsMap.has bucketIndex groups)
      then JsMap.set bucketIndex
             {| groupColor := getHeatmapColor (bucketRatioOf bucketIndex buckets) config;
                groupLines := [] |}
             groups
      else groups in
    match JsMap.get bucketIndex groups1 with
    | Some g =>
        JsMap.set bucketIndex
          {| groupColor := groupColor g;
             groupLines := groupLines g ++ [lineNumber d] |}
          groups1
    | None => groups1
    end.
Proof. unfold groupHeatmapByColor. now rewrite fold_left_app. Qed.

Lemma bucketLines_snoc (l : list HeatmapLineData) (d : HeatmapLineData)
  (buckets : Z) (k : number) :
  bucketLines (l ++ [d]) buckets k
  = bucketLines l buckets k ++
    (if sameKey (bucketIndexOf (ageRatio d) buckets) k then [lineNumber d] else []).
Proof.
  unfold bucketLines. rewrite filter_app, map_app. cbn [filter].
  now destruct (sameKey _ k).
Qed.

Lemma groupHeatmapByColor_get (heatmapData : list HeatmapLineData)
  (buckets : Z) (config : HeatmapConfig) (k : number) :
  JsMap.get k (groupHeatmapByColor heatmapData buckets config)
  = match bucketLines heatmapData buckets k with
    | [] => None
    | ls => Some {| groupColor := getHeatmapColor (bucketRatioOf k buckets) config;
                    groupLines := ls |}
    end.
Proof.
  induction heatmapData as [|d l IH] using rev_ind; [reflexivity|].
  rewrite groupHeatmapByColor_snoc, bucketLines_snoc. cbv zeta.
  set (groups := groupHeatmapByColor l buckets config) in *.
  set (kd := bucketIndexOf (ageRatio d) buckets).
  destruct (sameKey kd k) eqn:E.
  - apply sameKey_eq in E. subst k.
    unfold JsMap.has. rewrite IH.
    destruct (bucketLines l buckets kd) as [|x xs] eqn:El; cbn [negb].
    + rewrite get_set_same, get_set_same. reflexivity.
    + rewrite IH, get_set_same. reflexivity.
  - assert (Hne : kd <> k) by (intros ->; now rewrite sameKey_refl in E).
    rewrite app_nil_r.
    assert (Hg1 : JsMap.get k
                    (if negb (JsMap.has kd groups)
                     then JsMap.set kd
                            {| groupColor :=
                                 getHeatmapColor (bucketRatioOf kd buckets) config;
                               groupLines := [] |}
                            groups
                     else groups) = JsMap.get k groups).
    { destruct (negb (JsMap.has kd groups)); [|reflexivity]. now apply get_set_other. }
    destruct (JsMap.get kd _) as [g|].
    + rewrite get_set_other by assumption. now rewrite Hg1.
    + now rewrite Hg1.
Qed.

Lemma groupHeatmapByColor_NoDup (heatmapData : list HeatmapLineData) (buckets : Z)
  (config : HeatmapConfig) :
  NoDup (JsMap.keys (groupHeatmapByColor heatmapData buckets config)).
Proof.
  induction heatmapData as [|d l IH] using rev_ind; [constructor|].
  rewrite groupHeatmapByColor_snoc. cbv zeta.
  set (groups := groupHeatmapByColor l buckets config) in *.
  set (kd := bucketIndexOf (ageRatio d) buckets).
  assert (H1 : NoDup (JsMap.keys
                        (if negb (JsMap.has kd groups)
                         then JsMap.set kd
                                {| groupColor :=
                                     getHeatmapColor (bucketRatioOf kd buckets) config;
                                   groupLines := [] |}
                                groups
                         else groups))).
  { destruct (negb (JsMap.has kd groups)); [now apply NoDup_keys_set|assumption]. }
  destruct (JsMap.get kd _); [now apply NoDup_keys_set|assumption].
Qed.

(** X17. The grouping is a partition by bucket: no bucket index is a key
    twice; the group stored under a bucket index holds exactly the
    lines of the data whose index it is, in the order of the data,
    under the colour of the middle of the bucket; an index that no
    datum has is not a key; and every datum is found in the group of
    its own index.  NaN is one index. *)
Theorem groupHeatmapByColor_partition (heatmapData : list HeatmapLineData)
  (buckets : Z) (config : HeatmapConfig) :
  let groups := groupHeatmapByColor heatmapData buckets config in
  NoDup (JsMap.keys groups) /\
  (forall k,
     JsMap.get k groups
     = match bucketLines heatmapData buckets k with
       | [] => None
       | ls => Some {| groupColor := getHeatmapColor (bucketRatioOf k buckets) config;
                       groupLines := ls |}
       end) /\
  (forall d, In d heatmapData ->
     exists g, JsMap.get (bucketIndexOf (ageRatio d) buckets) groups = Some g /\
               In (lineNumber d) (groupLines g)).
Proof.
  cbv zeta. split; [apply groupHeatmapByColor_NoDup|].
  split; [apply groupHeatmapByColor_get|].
  intros d Hd. rewrite groupHeatmapByColor_get.
  assert (Hb : In (lineNumber d)
                 (bucketLines heatmapData buckets (bucketIndexOf (ageRatio d) buckets))).
  { unfold bucketLines. apply in_map. apply filter_In. split; [assumption|].
    apply sameKey_refl. }
  destruct (bucketLines heatmapData buckets (bucketIndexOf (ageRatio d) buckets))
    as [|x xs]; [contradiction|].
  eexists. split; [reflexivity|]. exact Hb.
Qed.

End HeatmapSpec.

(* ================================================================= *)
(** * Colours of authors and commits *)

Module ColorGeneratorSpec.
Import JsString.
Import Heatmap.
Import ColorGenerator.
Import JsFacts.
Import Predicates.

Lemma toInt32_range (x : Z) : - 2 ^ 31 <= toInt32 x < 2 ^ 31.
Proof.
  unfold toInt32. cbv zeta.
  pose proof (Z.mod_pos_bound x (2 ^ 32) eq_refl) as Hm.
  destruct (x mod 2 ^ 32 <? 2 ^ 31) eqn:E.
  - apply Z.ltb_lt in E. lia.
  - apply Z.ltb_ge in E. lia.
Qed.

Lemma toInt32_mod (x : Z) : toInt32 x mod 2 ^ 32 = x mod 2 ^ 32.
Proof.
  unfold toInt32. cbv zeta.
  destruct (x mod 2 ^ 32 <? 2 ^ 31).
  - apply Z.mod_mod. lia.
  - rewrite <- (Z.mod_add _ 1) by lia.
    replace (x mod 2 ^ 32 - 2 ^ 32 + 1 * 2 ^ 32) with (x mod 2 ^ 32) by lia.
    apply Z.mod_mod. lia.
Qed.

Lemma toInt32_congruent (x y : Z) :
  x mod 2 ^ 32 = y mod 2 ^ 32 -> toInt32 x = toInt32 y.
Proof. unfold toInt32. now intros ->. Qed.

Lemma toInt32_idempotent (x : Z) : toInt32 (toInt32 x) = toInt32 x.
Proof. apply toInt32_congruent, toInt32_mod. Qed.

Lemma toInt32_wraps (x : Z) : exists k, toInt32 x = x + k * 2 ^ 32.
Proof.
  unfold toInt32. cbv zeta. pose proof (Z.div_mod x (2 ^ 32)) as Hd.
  destruct (x mod 2 ^ 32 <? 2 ^ 31).
  - exists (- (x / 2 ^ 32)). lia.
  - exists (- (x / 2 ^ 32) - 1). lia.
Qed.

Lemma hash_step (hash c : Z) :
  bitAnd ((shiftLeft (toInt32 hash) 5 + toInt32 hash) + c)
         ((shiftLeft (toInt32 hash) 5 + toInt32 hash) + c)
  = toInt32 (hash * 33 + c).
Proof.
  unfold bitAnd. rewrite Z.land_diag. unfold shiftLeft.
  rewrite toInt32_idempotent, Z.shiftl_mul_pow2 by discriminate.
  apply toInt32_congruent.
  destruct (toInt32_wraps hash) as [k Hk].
  destruct (toInt32_wraps (toInt32 hash * 2 ^ 5)) as [k' Hk'].
  rewrite Hk', Hk.
  replace ((hash + k * 2 ^ 32) * 2 ^ 5 + k' * 2 ^ 32 + (hash + k * 2 ^ 32) + c)
    with (hash * 33 + c + (k * 33 + k') * 2 ^ 32) by ring.
  apply Z.mod_add. discriminate.
Qed.

Lemma hashLoop_djb2 (str : string) (hash : Z) :
  hashLoop str (toInt32 hash) = toInt32 (djb2 str hash).
Proof.
  revert hash. induction str as [|c rest IH]; intros hash; cbn [hashLoop djb2].
  - reflexivity.
  - rewrite hash_step. apply IH.
Qed.

(** X18. The truncation to 32 bits in every step of [hashString] amounts to
    one truncation at the end: the hash is the absolute value of the
    djb2 sum [hash * 33 + c] over the characters, started at 5381 and
    wrapped once to a signed 32 bit number; so it lies between 0 and
    2^31, the bound included. *)
Theorem hashString_djb2 (str : string) :
  hashString str = Z.abs (toInt32 (djb2 str 5381)) /\
  0 <= hashString str <= 2 ^ 31.
Proof.
  unfold hashString.
  assert (E : hashLoop str 5381 = toInt32 (djb2 str 5381))
    by exact (hashLoop_djb2 str 5381).
  rewrite E. split; [reflexivity|].
  pose proof (toInt32_range (djb2 str 5381)). lia.
Qed.

Lemma get_app (k : string) (m1 m2 : JsMap.t string Rgba) :
  JsMap.get k (m1 ++ m2)
  = match JsMap.get k m1 with
    | Some v => Some v
    | None => JsMap.get k m2
    end.
Proof.
  induction m1 as [|[k1 v1] m1 IH]; cbn [app JsMap.get]; [reflexivity|].
  now destruct (sameKey k1 k).
Qed.

Lemma assignDistinct_combine (uniqueIdentifiers : list string) (index : nat)
  (opacity : Q) (colorMap : JsMap.t string Rgba) :
  NoDup uniqueIdentifiers ->
  (forall id, In id uniqueIdentifiers -> JsMap.has id colorMap = false) ->
  (List.length uniqueIdentifiers + index <= List.length DISTINCT_COLORS)%nat ->
  assignDistinct uniqueIdentifiers index opacity colorMap
  = Some (colorMap ++
          List.combine uniqueIdentifiers
            (List.map (fun c => hslToRgba (Some (h c)) (s c) (l c) opacity)
               (List.skipn index DISTINCT_COLORS))).
Proof.
  revert index colorMap.
  induction uniqueIdentifiers as [|id rest IH]; intros index colorMap Hn Hfresh Hlen;
    cbn [assignDistinct].
  - cbn [combine]. now rewrite app_nil_r.
  - cbn [List.length] in Hlen.
    destruct (List.nth_error DISTINCT_COLORS index) as [c|] eqn:Ec.
    2:{ apply nth_error_None in Ec. lia. }
    inversion Hn as [|? ? Hnotin Hn']; subst.
    rewrite IH; [|assumption| |lia].
    + rewrite (set_new_appends id _ colorMap (Hfresh id (or_introl eq_refl))).
      rewrite <- app_assoc. cbn [app]. do 2 f_equal.
      assert (Hs : List.skipn index DISTINCT_COLORS
                   = c :: List.skipn (S index) DISTINCT_COLORS).
      { clear - Ec. revert index Ec. generalize DISTINCT_COLORS as cs.
        induction cs as [|c0 cs IHc]; intros [|index] Ec; cbn in Ec |- *;
          try discriminate.
        - now injection Ec as ->.
        - now apply IHc. }
      rewrite Hs. reflexivity.
    + intros x Hx.
      rewrite (set_new_appends id _ colorMap (Hfresh id (or_introl eq_refl))).
      unfold JsMap.has. rewrite get_app.
      pose proof (Hfresh x (or_intror Hx)) as Hf. unfold JsMap.has in Hf.
      destruct (JsMap.get x colorMap); [discriminate|].
      cbn [JsMap.get]. rewrite (sameKey_neq id x); [reflexivity|].
      intros ->. contradiction.
Qed.

Lemma combine_distinct {A B C : Type} (f : B -> C) (xs : list A) (ys : list B)
  (a a' : A) (b b' : B) :
  NoDup (List.map f ys) ->
  In (a, b) (List.combine xs ys) -> In (a', b') (List.combine xs ys) ->
  f b = f b' -> a = a'.
Proof.
  revert ys. induction xs as [|x xs IH]; intros [|y ys] Hn H1 H2 Hf;
    cbn [combine] in H1, H2; try contradiction.
  cbn [List.map] in Hn. inversion Hn as [|? ? Hnotin Hn']; subst.
  destruct H1 as [H1 | H1], H2 as [H2 | H2].
  - congruence.
  - injection H1 as <- <-. apply in_combine_r in H2.
    exfalso. apply Hnotin. rewrite Hf. now apply in_map.
  - injection H2 as <- <-. apply in_combine_r in H1.
    exfalso. apply Hnotin. rewrite <- Hf. now apply in_map.
  - exact (IH ys Hn' H1 H2 Hf).
Qed.

Lemma keys_combine {A B : Type} (xs : list A) (ys : list B) :
  (List.length xs <= List.length ys)%nat ->
  List.map fst (List.combine xs ys) = xs.
Proof.
  revert ys. induction xs as [|x xs IH]; intros [|y ys] Hlen; cbn in Hlen |- *;
    try reflexivity; try lia.
  rewrite IH; [reflexivity|lia].
Qed.

Lemma palette_distinct (opacity : Q) :
  NoDup (List.map channels
           (List.map (fun c => hslToRgba (Some (h c)) (s c) (l c) opacity)
              DISTINCT_COLORS)).
Proof.
  assert (E : List.map channels
                (List.map (fun c => hslToRgba (Some (h c)) (s c) (l c) opacity)
                   DISTINCT_COLORS)
              = [(51, 128, 204); (52, 178, 167); (54, 161, 98); (43, 162, 202);
                 (123, 89, 192); (32, 157, 182); (83, 102, 198); (63, 166, 132);
                 (145, 77, 179); (65, 110, 200)]).
  { vm_compute. reflexivity. }
  rewrite E.
  repeat (constructor; [cbn [In]; intuition discriminate|]). constructor.
Qed.

(** X19. With at most ten different identifiers [generateDistinctColorMap]
    does not throw, gives every identifier a colour of the palette, and
    gives two different identifiers colours that differ in a channel. *)
Theorem generateDistinctColorMap_distinct (identifiers : list string) (opacity : Q) :
  (List.length (JsSet.fromArray identifiers) <= 10)%nat ->
  exists colorMap,
    generateDistinctColorMap identifiers opacity = Some colorMap /\
    JsMap.keys colorMap = JsSet.fromArray identifiers /\
    (forall id, In id identifiers -> JsMap.has id colorMap = true) /\
    (forall id id' color color',
       JsMap.get id colorMap = Some color ->
       JsMap.get id' colorMap = Some color' ->
       id <> id' -> channels color <> channels color').
Proof.
  intros Hlen. unfold generateDistinctColorMap. cbv zeta.
  set (uniqueIdentifiers := JsSet.fromArray identifiers) in *.
  change (List.length DISTINCT_COLORS) with 10%nat.
  apply Nat.leb_le in Hlen. rewrite Hlen. apply Nat.leb_le in Hlen.
  rewrite assignDistinct_combine;
    [|apply set_fromArray_NoDup|intros; reflexivity
     |change (List.length DISTINCT_COLORS) with 10%nat; lia].
  unfold JsMap.empty. cbn [app List.skipn]. eexists. split; [reflexivity|].
  set (colors := List.map (fun c => hslToRgba (Some (h c)) (s c) (l c) opacity)
                   DISTINCT_COLORS).
  assert (Hk : JsMap.keys (List.combine uniqueIdentifiers colors) = uniqueIdentifiers).
  { apply keys_combine. unfold colors. rewrite length_map. exact Hlen. }
  split; [exact Hk|]. split.
  - intros id Hid. apply has_In_keys. rewrite Hk. now apply set_fromArray_In.
  - intros id id' color color' Hg Hg' Hne Hc. apply Hne.
    apply get_In in Hg. apply get_In in Hg'.
    exact (combine_distinct channels _ _ _ _ _ _ (palette_distinct opacity) Hg Hg' Hc).
Qed.

Lemma generateDistinctColorMap_distinct_witness :
  exists colorMap,
    generateDistinctColorMap ["alice"; "bob"; "alice"]%string (1 # 4) = Some colorMap /\
    JsMap.keys colorMap = JsSet.fromArray ["alice"; "bob"; "alice"]%string /\
    (forall id, In id ["alice"; "bob"; "alice"]%string -> JsMap.has id colorMap = true) /\
    (forall id id' color color',
       JsMap.get id colorMap = Some color ->
       JsMap.get id' colorMap = Some color' ->
       id <> id' -> channels color <> channels color').
Proof.
  apply (generateDistinctColorMap_distinct ["alice"; "bob"; "alice"]%string (1 # 4)).
  vm_compute. repeat constructor.
Defined.

End ColorGeneratorSpec.

(* ================================================================= *)
(** * Durations and relative times *)

Module TimeParserSpec.

Import JsString.
Import TimeParser.
Import Predicates.

Lemma DURATION_UNITS_pos (unit : DurationUnit) : 0 < DURATION_UNITS unit.
Proof. destruct unit; reflexivity. Qed.

(** X20. A parse either succeeds with a cut-off that is not after [now], or
    fails with an error message and no cut-off; whatever the host makes
    of a date. *)
Theorem parseDuration_cutoff_not_after_now (dateParse : string -> option Z)
  (toLocaleDateString : Z -> string) (duration : string) (now : Z) :
  let r := parseDuration dateParse toLocaleDateString duration now in
  match cutoffTimestamp r with
  | Some c => success r = true /\ c <= now /\ error r = None /\ description r <> None
  | None => success r = false /\ error r <> None /\ description r = None
  end.
Proof.
  cbv zeta. unfold parseDuration.
  set (trimmed := toLowerCase (trim duration)).
  destruct (isEmpty trimmed); [cbn; repeat split; discriminate|].
  destruct (relativeMatch trimmed) as [[group1 unit]|].
  - destruct (readDigits group1 0 <=? 0) eqn:E; [cbn; repeat split; discriminate|].
    cbn [cutoffTimestamp success error description].
    apply Z.leb_gt in E. pose proof (DURATION_UNITS_pos unit).
    repeat split; try discriminate. nia.
  - destruct (if dateMatch trimmed then dateParse trimmed else None) as [c|].
    + destruct (now <? c) eqn:E; [cbn; repeat split; discriminate|].
      cbn [cutoffTimestamp success error description].
      apply Z.ltb_ge in E. repeat split; try discriminate. exact E.
    + destruct (timestampMatch trimmed); [|cbn; repeat split; discriminate].
      match goal with |- context [now <? ?t] => destruct (now <? t) eqn:E end;
        [cbn; repeat split; discriminate|].
      cbn [cutoffTimestamp success error description].
      apply Z.ltb_ge in E. repeat split; try discriminate. exact E.
Qed.


Lemma lowerChar_idempotent (c : ascii) : lowerChar (lowerChar c) = lowerChar c.
Proof. destruct c as [[] [] [] [] [] [] [] []]; reflexivity. Qed.

Lemma lowerChar_isWhiteSpace (c : ascii) : isWhiteSpace (lowerChar c) = isWhiteSpace c.
Proof. destruct c as [[] [] [] [] [] [] [] []]; reflexivity. Qed.

Lemma toLowerCase_idempotent (s : string) : toLowerCase (toLowerCase s) = toLowerCase s.
Proof.
  induction s as [|c s IH]; cbn [toLowerCase]; [reflexivity|].
  now rewrite lowerChar_idempotent, IH.
Qed.

Lemma trimStart_toLowerCase (s : string) :
  trimStart (toLowerCase s) = toLowerCase (trimStart s).
Proof.
  induction s as [|c s IH]; cbn [toLowerCase trimStart]; [reflexivity|].
  rewrite lowerChar_isWhiteSpace. destruct (isWhiteSpace c); [exact IH|reflexivity].
Qed.

Lemma trimEnd_toLowerCase (s : string) :
  trimEnd (toLowerCase s) = toLowerCase (trimEnd s).
Proof.
  induction s as [|c s IH]; cbn [toLowerCase trimEnd]; [reflexivity|].
  rewrite IH, lowerChar_isWhiteSpace.
  destruct (trimEnd s); cbn [toLowerCase]; [destruct (isWhiteSpace c)|]; reflexivity.
Qed.

Lemma trimEnd_idempotent (s : string) : trimEnd (trimEnd s) = trimEnd s.
Proof.
  induction s as [|c s IH]; cbn [trimEnd]; [reflexivity|].
  destruct (trimEnd s) as [|c' t] eqn:E.
  - destruct (isWhiteSpace c) eqn:Ec; cbn [trimEnd]; [reflexivity|now rewrite Ec].
  - cbn [trimEnd]. cbn [trimEnd] in IH. rewrite IH. reflexivity.
Qed.

Lemma trimStart_trimEnd (s : string) :
  trimStart (trimEnd (trimStart s)) = trimEnd (trimStart s).
Proof.
  induction s as [|c s IH]; cbn [trimStart]; [reflexivity|].
  destruct (isWhiteSpace c) eqn:Ec; [exact IH|].
  cbn [trimEnd]. destruct (trimEnd s); [rewrite Ec|]; cbn [trimStart]; now rewrite Ec.
Qed.

Lemma trim_idempotent (s : string) : trim (trim s) = trim s.
Proof. unfold trim. now rewrite trimStart_trimEnd, trimEnd_idempotent. Qed.

Lemma trimmed_normal (duration : string) :
  toLowerCase (trim (toLowerCase (trim duration))) = toLowerCase (trim duration).
Proof.
  unfold trim at 1. rewrite trimStart_toLowerCase, trimEnd_toLowerCase.
  fold (trim (trim duration)). now rewrite trim_idempotent, toLowerCase_idempotent.
Qed.

(** X21. Surrounding white space and the case of the letters do not matter:
    the trimmed, lower cased text parses to the same outcome, cut-off
    and description as the text itself. *)
Theorem parseDuration_ignores_case_and_padding (dateParse : string -> option Z)
  (toLocaleDateString : Z -> string) (duration : string) (now : Z) :
  let r := parseDuration dateParse toLocaleDateString duration now in
  let r' := parseDuration dateParse toLocaleDateString
              (toLowerCase (trim duration)) now in
  success r' = success r /\ cutoffTimestamp r' = cutoffTimestamp r /\
  description r' = description r.
Proof.
  cbv zeta. unfold parseDuration. rewrite trimmed_normal.
  set (trimmed := toLowerCase (trim duration)).
  destruct (isEmpty trimmed); [now repeat split|].
  destruct (relativeMatch trimmed) as [[group1 unit]|]; [now repeat split|].
  destruct (if dateMatch trimmed then dateParse trimmed else None) as [c|];
    [now repeat split|].
  destruct (timestampMatch trimmed); now repeat split.
Qed.

Lemma append_not_empty (g : string) (c : ascii) (rest : string) :
  isEmpty (g ++ String c rest) = false.
Proof. now destruct g. Qed.

Lemma unitOfChar_not_digit (c : ascii) (unit : DurationUnit) :
  unitOfChar c = Some unit -> isDigit c = false.
Proof. destruct c as [[] [] [] [] [] [] [] []]; vm_compute; congruence. Qed.

Lemma relativeMatch_app (g : string) (c : ascii) (unit : DurationUnit) :
  isDigits g = true -> unitOfChar c = Some unit ->
  relativeMatch (g ++ String c EmptyString) = Some (g, unit).
Proof.
  intros Hg Hc. unfold relativeMatch.
  rewrite ParserSpec.digits_app; [now rewrite Hc|assumption|].
  cbn [digitsEnd]. now rewrite (unitOfChar_not_digit c unit Hc).
Qed.

Lemma parseInt_isDigits (g : string) :
  isDigits g = true -> parseInt g = Some (readDigits g 0).
Proof.
  unfold isDigits. intros H. apply andb_true_iff in H. destruct H as [Hne Hg].
  destruct g as [|c g]; [discriminate|].
  cbn [allChars] in Hg. apply andb_true_iff in Hg. destruct Hg as [Hc _].
  now apply ParserSpec.parseInt_leading_digit.
Qed.

(** X22. The relative format: when the trimmed, lower cased text is a run of
    digits and one of the letters d, w, m, y, the parse fails for the
    amount 0 and otherwise puts the cut-off the amount times the unit
    before [now], the unit being 1, 7, 30 or 365 days. *)
Theorem parseDuration_relative (dateParse : string -> option Z)
  (toLocaleDateString : Z -> string) (duration g : string) (c : ascii)
  (unit : DurationUnit) (now : Z) :
  toLowerCase (trim duration) = (g ++ String c EmptyString)%string ->
  isDigits g = true ->
  unitOfChar c = Some unit ->
  let r := parseDuration dateParse toLocaleDateString duration now in
  let days := match unit with UnitD => 1 | UnitW => 7 | UnitM => 30 | UnitY => 365 end in
  exists amount,
    parseInt g = Some amount /\ 0 <= amount /\
    (amount = 0 ->
     r = failure "Duration amount must be positive") /\
    (0 < amount ->
     success r = true /\
     cutoffTimestamp r = Some (now - amount * days * 86400000) /\
     error r = None).
Proof.
  intros Ht Hg Hc. cbv zeta. exists (readDigits g 0).
  split; [now apply parseInt_isDigits|].
  split; [now apply ParserSpec.readDigits_nonneg|].
  unfold parseDuration. rewrite Ht, append_not_empty, (relativeMatch_app g c unit Hg Hc).
  split.
  - intros ->. reflexivity.
  - intros Hpos. apply Z.leb_gt in Hpos. rewrite Hpos.
    cbn [success cutoffTimestamp error]. repeat split.
    f_equal. destruct unit; cbn [DURATION_UNITS]; lia.
Qed.

Lemma parseDuration_relative_witness :
  exists amount,
    parseInt "2" = Some amount /\ 0 <= amount /\
    (amount = 0 ->
     parseDuration (fun _ => None) (fun _ => EmptyString) " 2W " 1700000000000
     = failure "Duration amount must be positive") /\
    (0 < amount ->
     success (parseDuration (fun _ => None) (fun _ => EmptyString) " 2W " 1700000000000)
     = true /\
     cutoffTimestamp
       (parseDuration (fun _ => None) (fun _ => EmptyString) " 2W " 1700000000000)
     = Some (1700000000000 - amount * 7 * 86400000) /\
     error (parseDuration (fun _ => None) (fun _ => EmptyString) " 2W " 1700000000000)
     = None).
Proof.
  exact (parseDuration_relative (fun _ => None) (fun _ => EmptyString)
           " 2W " "2" "w" UnitW 1700000000000 eq_refl eq_refl eq_refl).
Defined.


Lemma append_empty (s : string) : (s ++ "")%string = s.
Proof. induction s as [|c s IH]; cbn [append]; congruence. Qed.

Lemma digitRun_all (g : string) :
  allChars isDigit g = true -> BlameParser.digitRun g = (g, EmptyString).
Proof.
  intros Hg. rewrite <- (append_empty g) at 1.
  now apply ParserSpec.digitRun_app.
Qed.

Lemma relativeMatch_digits (g : string) :
  allChars isDigit g = true -> relativeMatch g = None.
Proof.
  intros Hg. unfold relativeMatch, BlameParser.digits.
  rewrite (digitRun_all g Hg). now destruct g.
Qed.

Lemma dash_digit (c : ascii) (s : string) : isDigit c = true -> dash (String c s) = None.
Proof. destruct c as [[] [] [] [] [] [] [] []]; vm_compute; congruence. Qed.

Lemma dateMatch_digits (g : string) : allChars isDigit g = true -> dateMatch g = false.
Proof.
  intros Hg. unfold dateMatch.
  destruct g as [|c1 [|c2 [|c3 [|c4 [|c5 g]]]]]; cbn [allChars] in Hg;
    repeat (apply andb_true_iff in Hg; let H := fresh "H" in destruct Hg as [H Hg]);
    cbn [digitsExactly];
    repeat match goal with H : isDigit _ = true |- _ => rewrite H; try clear H end;
    try reflexivity.
  now rewrite dash_digit.
Qed.

Lemma readDigits_app (g rest : string) (acc : Z) :
  allChars isDigit g = true ->
  readDigits (g ++ rest) acc = readDigits rest (readDigits g acc).
Proof.
  revert acc. induction g as [|c g IH]; intros acc Hg; cbn [append readDigits].
  - reflexivity.
  - cbn [allChars] in Hg. apply andb_true_iff in Hg. destruct Hg as [Hc Hg].
    rewrite Hc. now apply IH.
Qed.

Lemma allChars_app (p : ascii -> bool) (a b : string) :
  allChars p (a ++ b) = allChars p a && allChars p b.
Proof.
  induction a as [|c a IH]; cbn [append allChars]; [reflexivity|].
  now rewrite IH, andb_assoc.
Qed.

Lemma length_app (a b : string) :
  String.length (a ++ b) = (String.length a + String.length b)%nat.
Proof. induction a as [|c a IH]; cbn [append String.length Nat.add]; congruence. Qed.

Lemma lowerChar_digit (c : ascii) : isDigit c = true -> lowerChar c = c.
Proof. destruct c as [[] [] [] [] [] [] [] []]; vm_compute; congruence. Qed.

Lemma trimEnd_digits (s : string) : allChars isDigit s = true -> trimEnd s = s.
Proof.
  induction s as [|c s IH]; cbn [allChars trimEnd]; [reflexivity|].
  intros H. apply andb_true_iff in H. destruct H as [Hc Hs].
  rewrite (IH Hs). destruct s; [|reflexivity].
  now rewrite (ParserSpec.isDigit_not_space c Hc).
Qed.

Lemma trimmed_digits (s : string) :
  allChars isDigit s = true -> toLowerCase (trim s) = s.
Proof.
  intros Hs. unfold trim.
  assert (E : trimStart s = s).
  { destruct s as [|c s]; [reflexivity|]. cbn [allChars] in Hs.
    apply andb_true_iff in Hs. destruct Hs as [Hc _].
    cbn [trimStart]. now rewrite (ParserSpec.isDigit_not_space c Hc). }
  rewrite E, (trimEnd_digits s Hs). clear E.
  induction s as [|c s IH]; cbn [toLowerCase]; [reflexivity|].
  cbn [allChars] in Hs. apply andb_true_iff in Hs. destruct Hs as [Hc Hs].
  now rewrite (lowerChar_digit c Hc), (IH Hs).
Qed.

(** X23. A timestamp of ten digits counts seconds: it parses to the very
    result of the same instant written in milliseconds, with three
    zeros appended. *)
Theorem parseDuration_seconds_as_milliseconds (dateParse : string -> option Z)
  (toLocaleDateString : Z -> string) (duration g : string) (now : Z) :
  toLowerCase (trim duration) = g ->
  allChars isDigit g = true ->
  String.length g = 10%nat ->
  parseDuration dateParse toLocaleDateString duration now
  = parseDuration dateParse toLocaleDateString (g ++ "000") now /\
  cutoffTimestamp (parseDuration dateParse toLocaleDateString duration now)
  = match parseInt g with
    | Some seconds => if now <? seconds * 1000 then None else Some (seconds * 1000)
    | None => None
    end.
Proof.
  intros Ht Hg Hlen.
  assert (Hg3 : allChars isDigit (g ++ "000") = true) by now rewrite allChars_app, Hg.
  assert (Hm : timestampMatch g = true).
  { unfold timestampMatch. now rewrite (digitRun_all g Hg), Hlen. }
  assert (Hm3 : timestampMatch (g ++ "000") = true).
  { unfold timestampMatch. now rewrite (digitRun_all _ Hg3), length_app, Hlen. }
  assert (Hp : parseInt g = Some (readDigits g 0)).
  { apply parseInt_isDigits. unfold isDigits. rewrite Hg. now destruct g. }
  assert (Hv : readDigits (g ++ "000") 0 = readDigits g 0 * 1000).
  { rewrite (readDigits_app g "000" 0 Hg). set (v := readDigits g 0).
    cbn [readDigits]. change (isDigit "0"%char) with true. cbv iota.
    change (digitValue "0"%char) with 0. lia. }
  unfold parseDuration.
  rewrite (trimmed_digits _ Hg3), Ht.
  rewrite (relativeMatch_digits g Hg), (relativeMatch_digits _ Hg3).
  rewrite (dateMatch_digits g Hg), (dateMatch_digits _ Hg3), Hm, Hm3, Hv, Hp.
  rewrite length_app, Hlen. cbn [Nat.eqb Nat.add String.length].
  assert (He : isEmpty g = false) by now destruct g.
  assert (He3 : isEmpty (g ++ "000") = false) by now destruct g.
  rewrite He, He3. split; [reflexivity|].
  now destruct (now <? readDigits g 0 * 1000).
Qed.

Lemma parseDuration_seconds_as_milliseconds_witness :
  parseDuration (fun _ => None) (fun _ => EmptyString) " 1700000000" 1700000000000
  = parseDuration (fun _ => None) (fun _ => EmptyString) "1700000000000" 1700000000000 /\
  cutoffTimestamp
    (parseDuration (fun _ => None) (fun _ => EmptyString) " 1700000000" 1700000000000)
  = Some 1700000000000.
Proof.
  exact (parseDuration_seconds_as_milliseconds (fun _ => None) (fun _ => EmptyString)
           " 1700000000" "1700000000" 1700000000000 eq_refl eq_refl eq_refl).
Defined.


Lemma not_just_now (n suffix : string) :
  (8 < String.length suffix)%nat -> (n ++ suffix)%string <> "just now"%string.
Proof.
  intros Hlen H. apply (f_equal String.length) in H.
  rewrite length_app in H. cbn [String.length] in H. lia.
Qed.

Ltac div_test :=
  match goal with
  | |- (_ <? _) = true => apply Z.ltb_lt
  | |- (_ <? _) = false => apply Z.ltb_ge
  end; Z.div_mod_to_equations; lia.

(** X24. The unit of the relative time is fixed by the milliseconds elapsed:
    below a minute, and so for every time in the future, "just now";
    then minutes up to an hour, hours up to a day, days up to 7 days,
    weeks up to 30 days, months up to 365 days, and years; the count is
    the elapsed time divided by the unit, rounded down. *)
Theorem getRelativeTime_units (unixSeconds now : Z) :
  let elapsed := now - unixSeconds * 1000 in
  let day := 86400000 in
  let text := getRelativeTime (Some unixSeconds) now in
  let ago (count : Z) (one many : string) : string :=
    if count =? 1 then one else (numberToString count ++ many)%string in
  (text = "just now"%string <-> elapsed < 60000) /\
  (60000 <= elapsed < 3600000 ->
   text = ago (elapsed / 60000) "1 minute ago"%string " minutes ago"%string) /\
  (3600000 <= elapsed < day ->
   text = ago (elapsed / 3600000) "1 hour ago"%string " hours ago"%string) /\
  (day <= elapsed < 7 * day ->
   text = ago (elapsed / day) "1 day ago"%string " days ago"%string) /\
  (7 * day <= elapsed < 30 * day ->
   text = ago (elapsed / (7 * day)) "1 week ago"%string " weeks ago"%string) /\
  (30 * day <= elapsed < 365 * day ->
   text = ago (elapsed / (30 * day)) "1 month ago"%string " months ago"%string) /\
  (365 * day <= elapsed ->
   text = ago (elapsed / (365 * day)) "1 year ago"%string " years ago"%string).
Proof.
  cbv zeta. unfold getRelativeTime.
  set (elapsed := now - unixSeconds * 1000).
  set (minutes := elapsed / 1000 / 60).
  set (hours := minutes / 60).
  set (days := hours / 24).
  assert (Em : minutes = elapsed / 60000).
  { unfold minutes. now rewrite Z.div_div by lia. }
  assert (Eh : hours = elapsed / 3600000).
  { unfold hours. rewrite Em. now rewrite Z.div_div by lia. }
  assert (Ed : days = elapsed / 86400000).
  { unfold days. rewrite Eh. now rewrite Z.div_div by lia. }
  assert (Ew : days / 7 = elapsed / (7 * 86400000)).
  { rewrite Ed. now rewrite Z.div_div by lia. }
  assert (Eo : days / 30 = elapsed / (30 * 86400000)).
  { rewrite Ed. now rewrite Z.div_div by lia. }
  assert (Ey : days / 365 = elapsed / (365 * 86400000)).
  { rewrite Ed. now rewrite Z.div_div by lia. }
  rewrite Ew, Eo, Ey, Ed, Eh, Em. clear.
  repeat split.
  - intros H.
    destruct (Z.lt_ge_cases elapsed 60000) as [Hlt | Hge]; [exact Hlt|exfalso].
    revert H.
    repeat match goal with
           | |- context [if 0 <? ?q then _ else _] =>
               destruct (0 <? q) eqn:?
           | |- context [if ?q =? 1 then _ else _] =>
               destruct (q =? 1)
           end;
      try discriminate;
      try (apply not_just_now; cbn [String.length]; lia).
    intros _.
    repeat match goal with H : (0 <? _) = false |- _ => apply Z.ltb_ge in H end.
    Z.div_mod_to_equations. lia.
  - intros H.
    repeat match goal with
           | |- context [if 0 <? ?q then _ else _] =>
               replace (0 <? q) with false by (symmetry; div_test)
           end.
    reflexivity.
  - intros H.
    repeat match goal with
           | |- context [if 0 <? ?q then _ else _] =>
               first [replace (0 <? q) with false by (symmetry; div_test)
                     |replace (0 <? q) with true by (symmetry; div_test)]
           end.
    reflexivity.
  - intros H.
    repeat match goal with
           | |- context [if 0 <? ?q then _ else _] =>
               first [replace (0 <? q) with false by (symmetry; div_test)
                     |replace (0 <? q) with true by (symmetry; div_test)]
           end.
    reflexivity.
  - intros H.
    repeat match goal with
           | |- context [if 0 <? ?q then _ else _] =>
               first [replace (0 <? q) with false by (symmetry; div_test)
                     |replace (0 <? q) with true by (symmetry; div_test)]
           end.
    reflexivity.
  - intros H.
    repeat match goal with
           | |- context [if 0 <? ?q then _ else _] =>
               first [replace (0 <? q) with false by (symmetry; div_test)
                     |replace (0 <? q) with true by (symmetry; div_test)]
           end.
    reflexivity.
  - intros H.
    repeat match goal with
           | |- context [if 0 <? ?q then _ else _] =>
               first [replace (0 <? q) with false by (symmetry; div_test)
                     |replace (0 <? q) with true by (symmetry; div_test)]
           end.
    reflexivity.
  - intros H.
    repeat match goal with
           | |- context [if 0 <? ?q then _ else _] =>
               first [replace (0 <? q) with false by (symmetry; div_test)
                     |replace (0 <? q) with true by (symmetry; div_test)]
           end.
    reflexivity.
Qed.

Lemma getRelativeTime_units_witness :
  getRelativeTime (Some 1699990000) 1700000000000 = "2 hours ago"%string.
Proof.
  apply (proj1 (proj2 (proj2 (getRelativeTime_units 1699990000 1700000000000)))).
  vm_compute. split; [discriminate|reflexivity].
Defined.

End TimeParserSpec.

(* ================================================================= *)
(** * Target highlighting and navigation *)

Module DecoratorSpec.

Import JsString.
Import BlameParser.
Import Decorator.
Import JsFacts.

Lemma applySpecificAuthorHighlighting_In (blameResult : BlameParseResult)
  (authorName : string) (n : Z) :
  In n (applySpecificAuthorHighlighting blameResult authorName) <->
  exists info,
    In (n, info) (lines blameResult) /\
    toLowerCase (author info) = toLowerCase authorName.
Proof.
  unfold applySpecificAuthorHighlighting.
  rewrite (forEach_push
             (fun info (_ : Z) =>
                strictEq (toLowerCase (author info)) (toLowerCase authorName))
             (fun (_ : BlameLineInfo) (lineNum : Z) => lineNum)).
  rewrite sortAscending_In. cbn [app]. rewrite in_map_iff. split.
  - intros ([k info] & Hk & Hin). cbn [fst snd] in *. subst k.
    apply filter_In in Hin. destruct Hin as [Hin He]. cbn [fst snd] in He.
    apply String.eqb_eq in He. now exists info.
  - intros (info & Hin & He). exists (n, info). split; [reflexivity|].
    apply filter_In. split; [assumption|]. cbn [fst snd].
    now apply String.eqb_eq.
Qed.

Lemma applySpecificCommitHighlighting_In (blameResult : BlameParseResult)
  (target : string) (n : Z) :
  In n (applySpecificCommitHighlighting blameResult target) <->
  exists info,
    In (n, info) (lines blameResult) /\
    startsWith (commitSha info) target = true.
Proof.
  unfold applySpecificCommitHighlighting.
  rewrite (forEach_push
             (fun info (_ : Z) => startsWith (commitSha info) target)
             (fun (_ : BlameLineInfo) (lineNum : Z) => lineNum)).
  rewrite sortAscending_In. cbn [app]. rewrite in_map_iff. split.
  - intros ([k info] & Hk & Hin). cbn [fst snd] in *. subst k.
    apply filter_In in Hin. destruct Hin as [Hin He]. now exists info.
  - intros (info & Hin & He). exists (n, info). split; [reflexivity|].
    apply filter_In. now split.
Qed.

(** C2.  The specificAuthor and the specificCommit mode are entered
    with a selected author or commit, a string that is not empty.
    Every stored line is then scanned, committed or uncommitted alike:
    in the specificAuthor mode a line is highlighted exactly when its
    author equals the target up to case, and in the specificCommit mode
    exactly when its commit id starts with the target. *)
Theorem highlightTarget_by_mode (blameResult : BlameParseResult)
  (target : string) (n : Z) :
  target <> EmptyString ->
  (exists highlighted,
     highlightTarget specificAuthor blameResult (Some target) = Some highlighted /\
     (In n highlighted <->
      exists info,
        In (n, info) (lines blameResult) /\
        toLowerCase (author info) = toLowerCase target)) /\
  (exists highlighted,
     highlightTarget specificCommit blameResult (Some target) = Some highlighted /\
     (In n highlighted <->
      exists info,
        In (n, info) (lines blameResult) /\
        startsWith (commitSha info) target = true)).
Proof.
  intros Htarget. cbn [highlightTarget].
  assert (E : isEmpty target = false).
  { destruct target; [now elim Htarget|reflexivity]. }
  rewrite E. split; eexists; (split; [reflexivity|]).
  - apply applySpecificAuthorHighlighting_In.
  - apply applySpecificCommitHighlighting_In.
Qed.

Lemma highlightTarget_by_mode_witness :
  (exists highlighted,
     highlightTarget specificAuthor (parseBlameOutput Samples.SAMPLE_BLAME_OUTPUT)
       (Some "JOHN DOE"%string) = Some highlighted /\
     (In 1 highlighted <->
      exists info,
        In (1, info) (lines (parseBlameOutput Samples.SAMPLE_BLAME_OUTPUT)) /\
        toLowerCase (author info) = toLowerCase "JOHN DOE")) /\
  (exists highlighted,
     highlightTarget specificCommit (parseBlameOutput Samples.SAMPLE_BLAME_OUTPUT)
       (Some "JOHN DOE"%string) = Some highlighted /\
     (In 1 highlighted <->
      exists info,
        In (1, info) (lines (parseBlameOutput Samples.SAMPLE_BLAME_OUTPUT)) /\
        startsWith (commitSha info) "JOHN DOE" = true)).
Proof.
  apply (highlightTarget_by_mode (parseBlameOutput Samples.SAMPLE_BLAME_OUTPUT)
           "JOHN DOE" 1).
  discriminate.
Defined.

(** Without a selected target, or with the empty string, the guard of
    the case skips the call and the decorator is left as it was. *)
Lemma highlightTarget_guard (mode : HighlightMode) (blameResult : BlameParseResult) :
  highlightTarget mode blameResult None = None /\
  highlightTarget mode blameResult (Some EmptyString) = None.
Proof. destruct mode; split; reflexivity. Qed.

(** Each mode tests its own field: the line of Bob lies in a commit
    whose id starts with "abc", and the specificAuthor mode with the
    target "abc" does not highlight it. *)
Example specificAuthor_ignores_commit_prefix :
  let blameResult := Samples.bobResult in
  (exists info,
     In (1, info) (lines blameResult) /\
     startsWith (commitSha info) "abc" = true) /\
  highlightTarget specificAuthor blameResult (Some "abc"%string) = Some [] /\
  highlightTarget specificCommit blameResult (Some "abc"%string) = Some [1].
Proof.
  cbv zeta. split.
  - eexists. split; [left; reflexivity|]. reflexivity.
  - vm_compute. split; reflexivity.
Qed.

(** The uncommitted line of the sample is found by either mode. *)
Example highlightTarget_uncommitted :
  let blameResult := parseBlameOutput Samples.SAMPLE_BLAME_OUTPUT in
  highlightTarget specificAuthor blameResult (Some "not committed yet"%string)
  = Some [3] /\
  highlightTarget specificCommit blameResult (Some "0000000"%string) = Some [3] /\
  highlightTarget specificAuthor blameResult (Some "JOHN DOE"%string) = Some [1].
Proof. vm_compute. repeat split. Qed.

(** ** Navigation *)

(** The lists the modes leave for navigation are ascending. *)
Lemma highlightedLines_ascending (blameResult : BlameParseResult) (target : string)
  (enableUncommittedHighlight : bool) (cutoffTimestamp : Z) :
  Sorted Z.le (applySpecificAuthorHighlighting blameResult target) /\
  Sorted Z.le (applySpecificCommitHighlighting blameResult target) /\
  Sorted Z.le (applyAgeHighlighting enableUncommittedHighlight
                 (filterLinesByTime blameResult cutoffTimestamp)
                 (getUncommittedLines blameResult)).
Proof. repeat split; apply sortAscending_sorted. Qed.

Example applyAgeHighlighting_sample :
  let blameResult := parseBlameOutput Samples.SAMPLE_BLAME_OUTPUT in
  applyAgeHighlighting true
    (filterLinesByTime blameResult (1718400000 * 1000))
    (getUncommittedLines blameResult) = [1; 3].
Proof. vm_compute. reflexivity. Qed.

Lemma last_cons_default {A : Type} (l : list A) (a b : A) :
  List.last (b :: l) a = List.last l b.
Proof.
  revert a b. induction l as [|c l IH]; intros a b; [reflexivity|].
  change (List.last (b :: c :: l) a) with (List.last (c :: l) a).
  now rewrite !IH.
Qed.

Lemma lastElement_cons {A : Type} (a : A) (l : list A) :
  JsArray.lastElement (a :: l) = Some (List.last l a).
Proof.
  unfold JsArray.lastElement. cbn [List.map].
  rewrite last_cons_default. revert a.
  induction l as [|b l IH]; intros a; [reflexivity|].
  cbn [List.map]. now rewrite !last_cons_default.
Qed.

Lemma sorted_last_max (l : list Z) (a : Z) :
  StronglySorted Z.le (a :: l) ->
  In (List.last l a) (a :: l) /\ forall x, In x (a :: l) -> x <= List.last l a.
Proof.
  revert a. induction l as [|b l IH]; intros a Hs.
  - cbn. split; [now left|]. intros x [<- | []]. lia.
  - inversion Hs as [|? ? Hs' Hall]; subst.
    destruct (IH b Hs') as [Hin Hmax].
    rewrite last_cons_default.
    split; [now right|].
    intros x [<- | Hx].
    + inversion Hall as [|? ? Hab _]; subst.
      specialize (Hmax b (or_introl eq_refl)). lia.
    + now apply Hmax.
Qed.

Lemma find_first_above (currentLine : Z) (l : list Z) (target : Z) :
  StronglySorted Z.le l ->
  JsArray.find (fun line => currentLine <? line) l = Some target ->
  In target l /\ currentLine < target /\
  forall x, In x l -> currentLine < x -> target <= x.
Proof.
  unfold JsArray.find. induction l as [|a l IH]; intros Hs; cbn [List.find];
    [discriminate|].
  inversion Hs as [|? ? Hs' Hall]; subst.
  destruct (currentLine <? a) eqn:E.
  - intros [= <-]. apply Z.ltb_lt in E. repeat split; [now left | assumption |].
    intros x [<- | Hx] _; [lia|].
    rewrite Forall_forall in Hall. now apply Hall.
  - intros Hf. destruct (IH Hs' Hf) as (Hin & Hlt & Hmin).
    apply Z.ltb_ge in E. repeat split; [now right | assumption |].
    intros x [<- | Hx] Hc; [lia|]. now apply Hmin.
Qed.

Lemma find_none_above (currentLine : Z) (l : list Z) :
  JsArray.find (fun line => currentLine <? line) l = None ->
  forall x, In x l -> x <= currentLine.
Proof.
  unfold JsArray.find. intros Hf x Hx.
  apply (find_none _ _ Hf) in Hx. now apply Z.ltb_ge in Hx.
Qed.

Lemma StronglySorted_filter (p : Z -> bool) (l : list Z) :
  StronglySorted Z.le l -> StronglySorted Z.le (List.filter p l).
Proof.
  induction 1 as [|a l Hs IH Hall]; cbn [List.filter]; [constructor|].
  destruct (p a); [|assumption]. constructor; [assumption|].
  rewrite Forall_forall in *. intros x Hx. apply filter_In in Hx.
  now apply Hall.
Qed.

(** C7.  Over an ascending list of highlighted lines, with
    [currentLine = activeLine + 1]: [goToNextHighlight] returns the
    least highlighted line above [currentLine], or the first
    highlighted line when none is above; [goToPreviousHighlight]
    returns the greatest highlighted line below [currentLine], or the
    last one when none is below; on the empty list both return
    undefined.  For the lines 3, 7, 12: next from 12 is 3 and previous
    from 3 is 12. *)
Theorem navigation_wraps_around (highlightedLines : list Z) (activeLine : Z) :
  Sorted Z.le highlightedLines ->
  let currentLine := activeLine + 1 in
  match highlightedLines with
  | [] =>
      goToNextHighlight highlightedLines activeLine = None /\
      goToPreviousHighlight highlightedLines activeLine = None
  | first :: others =>
      (exists target,
         goToNextHighlight highlightedLines activeLine = Some target /\
         In target highlightedLines /\
         ((currentLine < target /\
           forall x, In x highlightedLines -> currentLine < x -> target <= x) \/
          ((forall x, In x highlightedLines -> x <= currentLine) /\
           target = first))) /\
      (exists target,
         goToPreviousHighlight highlightedLines activeLine = Some target /\
         In target highlightedLines /\
         ((target < currentLine /\
           forall x, In x highlightedLines -> x < currentLine -> x <= target) \/
          ((forall x, In x highlightedLines -> currentLine <= x) /\
           target = List.last others first)))
  end /\
  goToNextHighlight [3; 7; 12] (12 - 1) = Some 3 /\
  goToPreviousHighlight [3; 7; 12] (3 - 1) = Some 12.
Proof.
  intros Hsorted. cbv zeta. split; [|split; reflexivity].
  destruct highlightedLines as [|first others]; [split; reflexivity|].
  apply Sorted_StronglySorted in Hsorted; [|intros x y z; apply Z.le_trans].
  split.
  - unfold goToNextHighlight.
    destruct (JsArray.find (fun line => activeLine + 1 <? line) (first :: others))
      as [target|] eqn:Ef.
    + exists target. split; [reflexivity|].
      destruct (find_first_above _ _ _ Hsorted Ef) as (Hin & Hlt & Hmin).
      split; [assumption|]. left. now split.
    + exists first. split; [reflexivity|]. split; [now left|]. right.
      split; [|reflexivity]. now apply find_none_above.
  - unfold goToPreviousHighlight.
    destruct (List.filter (fun line => line <? activeLine + 1) (first :: others))
      as [|p ps] eqn:Ef.
    + exists (List.last others first).
      split; [cbn [JsArray.lastElement List.map List.last]; apply lastElement_cons|].
      destruct (sorted_last_max others first Hsorted) as [Hin Hmax].
      split; [assumption|]. right. split; [|reflexivity].
      intros x Hx. destruct (x <? activeLine + 1) eqn:E.
      * assert (Hf : In x (List.filter (fun line => line <? activeLine + 1)
                             (first :: others))).
        { apply filter_In. now split. }
        rewrite Ef in Hf. contradiction.
      * now apply Z.ltb_ge in E.
    + exists (List.last ps p). rewrite lastElement_cons. split; [reflexivity|].
      assert (Hfs : StronglySorted Z.le (p :: ps)).
      { rewrite <- Ef. now apply StronglySorted_filter. }
      destruct (sorted_last_max ps p Hfs) as [Hin Hmax].
      rewrite <- Ef in Hin, Hmax. apply filter_In in Hin.
      destruct Hin as [Hin Hlt]. apply Z.ltb_lt in Hlt.
      split; [assumption|]. left. split; [assumption|].
      intros x Hx Hc. apply Hmax. apply filter_In. split; [assumption|].
      now apply Z.ltb_lt.
Qed.

Lemma navigation_wraps_around_witness :
  exists target,
    goToNextHighlight [3; 7; 12] 6 = Some target /\ In target [3; 7; 12] /\
    ((6 + 1 < target /\
      forall x, In x [3; 7; 12] -> 6 + 1 < x -> target <= x) \/
     ((forall x, In x [3; 7; 12] -> x <= 6 + 1) /\ target = 3)).
Proof.
  assert (Hs : Sorted Z.le [3; 7; 12]).
  { repeat constructor; discriminate. }
  exact (proj1 (proj1 (navigation_wraps_around [3; 7; 12] 6 Hs))).
Defined.

End DecoratorSpec.

(* ================================================================= *)
(** * The highlight modes and their navigation lists *)

Module HighlightingSpec.
Import JsString.
Import BlameParser.
Import Decorator.
Import JsFacts.
Import Predicates.

Lemma dedupe_In (l : list Z) (n : Z) : In n (JsArray.dedupe l) <-> In n l.
Proof.
  induction l as [|x xs IH]; cbn [JsArray.dedupe]; [tauto|].
  cbn [In]. rewrite filter_In, IH, negb_true_iff, Z.eqb_neq.
  destruct (Z.eq_dec x n) as [->|Hne]; [tauto|].
  split; [tauto|]. intros [H|H]; [tauto|]. right. split; [assumption|congruence].
Qed.

Lemma dedupe_NoDup (l : list Z) : NoDup (JsArray.dedupe l).
Proof.
  induction l as [|x xs IH]; cbn [JsArray.dedupe]; constructor.
  - rewrite filter_In, negb_true_iff, Z.eqb_neq. tauto.
  - now apply NoDup_filter.
Qed.

Lemma sortAscending_NoDup (l : list Z) : NoDup l -> NoDup (JsArray.sortAscending l).
Proof.
  intros H. apply (Permutation_NoDup (Permutation_sym (sortAscending_perm l)) H).
Qed.

Lemma sorted_strict (l : list Z) : Sorted Z.le l -> NoDup l -> StronglySorted Z.lt l.
Proof.
  intros Hs Hn. apply Sorted_StronglySorted in Hs; [|intros x y z; apply Z.le_trans].
  induction Hs as [|a l Hs IH Hall]; constructor.
  - apply IH. now inversion Hn.
  - inversion Hn as [|? ? Hnotin Hn']; subst.
    rewrite Forall_forall in *. intros x Hx.
    specialize (Hall x Hx). assert (a <> x) by (intros ->; contradiction). lia.
Qed.

(** [[...new Set(l)].sort((a, b) => a - b)] *)
Lemma navigation_list (l : list Z) :
  StronglySorted Z.lt (JsArray.sortAscending (JsArray.dedupe l)) /\
  forall n, In n (JsArray.sortAscending (JsArray.dedupe l)) <-> In n l.
Proof.
  split.
  - apply sorted_strict; [apply sortAscending_sorted|].
    apply sortAscending_NoDup, dedupe_NoDup.
  - intros n. now rewrite sortAscending_In, dedupe_In.
Qed.

Section Grouping.
Variable key : BlameLineInfo -> string.

Let callback (st : JsMap.t string (list Z) * list Z) (info : BlameLineInfo) (lineNum : Z) :=
  let '(groups, allHighlightedLines) := st in
  if negb (isUncommitted info)
  then
    let lines :=
      match JsMap.get (key info) groups with
      | Some lines => lines
      | None => []
      end in
    let lines := lines ++ [lineNum] in
    (JsMap.set (key info) lines groups, allHighlightedLines ++ [lineNum])
  else st.

Lemma grouping_forEach (m : JsMap.t Z BlameLineInfo) :
  let st := JsMap.forEach callback m (JsMap.empty, []) in
  snd st = List.map fst (List.filter (fun kv => negb (isUncommitted (snd kv))) m) /\
  forall a,
    JsMap.get a (fst st)
    = match List.map fst
              (List.filter
                 (fun kv => negb (isUncommitted (snd kv)) && strictEq (key (snd kv)) a) m)
      with
      | [] => None
      | ls => Some ls
      end.
Proof.
  cbv zeta. unfold JsMap.forEach.
  induction m as [|[n info] m IH] using rev_ind; [split; reflexivity|].
  rewrite fold_left_app. cbn [fold_left fst snd].
  destruct (fold_left _ m (JsMap.empty, [])) as [groups allLines].
  cbn [fst snd] in IH. destruct IH as [IHall IHget].
  unfold callback at 1 2. cbn [fst snd].
  split.
  - rewrite filter_app, map_app. cbn [filter fst snd].
    destruct (isUncommitted info); cbn [negb fst snd List.map].
    + now rewrite app_nil_r.
    + now rewrite IHall.
  - intros a. rewrite filter_app, map_app. cbn [filter fst snd].
    destruct (isUncommitted info); cbn [negb andb fst snd].
    + cbn [List.map]. rewrite app_nil_r. apply IHget.
    + destruct (strictEq (key info) a) eqn:E; unfold strictEq in E.
      * apply String.eqb_eq in E. subst a. rewrite get_set_same, IHget.
        cbn [List.map fst].
        clear. destruct (List.map fst (List.filter _ m)); reflexivity.
      * apply String.eqb_neq in E. rewrite get_set_other by assumption.
        cbn [List.map]. rewrite app_nil_r. apply IHget.
Qed.

End Grouping.


(** X25. The lines of every author and of every commit, and the navigation
    list of the two modes: [applyAuthorHighlighting] keeps under an
    author the committed lines of that author, in the order of the map,
    and no key for an author without such a line;
    [applyCommitHighlighting] does the same by commit id.  Both leave
    the same navigation list, strictly ascending: the committed lines,
    and the uncommitted ones they are handed when
    [enableUncommittedHighlight] is set. *)
Theorem grouped_highlighting_partition (enableUncommittedHighlight : bool)
  (blameResult : BlameParseResult) (uncommittedLines : list Z) :
  let byAuthor :=
    applyAuthorHighlighting enableUncommittedHighlight blameResult uncommittedLines in
  let byCommit :=
    applyCommitHighlighting enableUncommittedHighlight blameResult uncommittedLines in
  (forall a,
     JsMap.get a (groupedLines byAuthor)
     = match linesWhere (fun info => negb (isUncommitted info) && strictEq (author info) a)
               blameResult with
       | [] => None
       | ls => Some ls
       end) /\
  (forall sha,
     JsMap.get sha (groupedLines byCommit)
     = match linesWhere (fun info => negb (isUncommitted info) && strictEq (commitSha info) sha)
               blameResult with
       | [] => None
       | ls => Some ls
       end) /\
  highlightedLines byCommit = highlightedLines byAuthor /\
  StronglySorted Z.lt (highlightedLines byAuthor) /\
  (forall n,
     In n (highlightedLines byAuthor) <->
     In n (linesWhere (fun info => negb (isUncommitted info)) blameResult) \/
     (enableUncommittedHighlight = true /\ In n uncommittedLines)).
Proof.
  cbv zeta. unfold applyAuthorHighlighting, applyCommitHighlighting, linesWhere.
  pose proof (grouping_forEach author (lines blameResult)) as Ha.
  pose proof (grouping_forEach commitSha (lines blameResult)) as Hc.
  cbv zeta in Ha, Hc.
  destruct (JsMap.forEach _ (lines blameResult) (JsMap.empty, [])) as [authorLines all1].
  destruct (JsMap.forEach _ (lines blameResult) (JsMap.empty, [])) as [commitLines all2].
  cbn [fst snd] in Ha, Hc. destruct Ha as [Ha1 Ha2]. destruct Hc as [Hc1 Hc2].
  cbn [groupedLines highlightedLines].
  split; [exact Ha2|]. split; [exact Hc2|].
  split; [now rewrite Ha1, Hc1|].
  split; [apply navigation_list|].
  intros n. rewrite (proj2 (navigation_list _) n), Ha1.
  destruct enableUncommittedHighlight.
  - rewrite in_app_iff. intuition congruence.
  - intuition congruence.
Qed.


Import Heatmap.

Lemma forEach_concat {K V : Type} (lines : V -> list Z) (m : JsMap.t K V) (init : list Z) :
  JsMap.forEach (fun (acc : list Z) v (_ : K) => acc ++ lines v) m init
  = init ++ List.concat (List.map (fun kv => lines (snd kv)) m).
Proof.
  unfold JsMap.forEach. revert init.
  induction m as [|kv m IH]; intros init; cbn [fold_left List.map concat].
  - now rewrite app_nil_r.
  - now rewrite IH, <- app_assoc.
Qed.

Lemma grouped_lines (heatmapData : list HeatmapLineData) (buckets : Z)
  (config : HeatmapConfig) (n : Z) :
  In n (List.concat
          (List.map (fun kv => groupLines (snd kv))
             (groupHeatmapByColor heatmapData buckets config)))
  <-> In n (List.map lineNumber heatmapData).
Proof.
  rewrite in_concat. split.
  - intros (ls & Hls & Hn). apply in_map_iff in Hls.
    destruct Hls as ([k g] & <- & Hin). cbn [snd] in Hn.
    apply (In_get k g) in Hin; [|apply HeatmapSpec.groupHeatmapByColor_NoDup].
    rewrite HeatmapSpec.groupHeatmapByColor_get in Hin.
    destruct (bucketLines heatmapData buckets k) as [|x xs] eqn:E; [discriminate|].
    injection Hin as <-. cbn [groupLines] in Hn. rewrite <- E in Hn.
    unfold bucketLines in Hn. apply in_map_iff in Hn.
    destruct Hn as (d & <- & Hd). apply filter_In in Hd. apply in_map. tauto.
  - intros Hn. apply in_map_iff in Hn. destruct Hn as (d & <- & Hd).
    set (k := bucketIndexOf (ageRatio d) buckets).
    assert (Hb : In (lineNumber d) (bucketLines heatmapData buckets k)).
    { unfold bucketLines. apply in_map. apply filter_In. split; [assumption|].
      apply sameKey_refl. }
    pose proof (HeatmapSpec.groupHeatmapByColor_get heatmapData buckets config k) as Hg.
    destruct (bucketLines heatmapData buckets k) as [|x xs] eqn:E; [contradiction|].
    apply get_In in Hg.
    eexists. split; [apply in_map_iff; eexists; split; [|exact Hg]; reflexivity|].
    exact Hb.
Qed.

Lemma calculateHeatmap_lineNumbers (blameResult : BlameParseResult)
  (config : HeatmapConfig) (n : Z) :
  In n (List.map lineNumber (calculateHeatmap blameResult config)) <->
  (exists kv, In kv (lines blameResult) /\ dated (snd kv)) /\
  In n (linesWhere (fun info => negb (isUncommitted info)) blameResult).
Proof.
  pose proof (HeatmapSpec.timeBounds_attained blameResult) as Ha.
  pose proof (HeatmapSpec.timeBounds_spec blameResult) as Hb.
  destruct (timeBounds blameResult) as [[lo|] [hi|]] eqn:Et;
    cbn [attained boundsOf] in Ha, Hb; try contradiction.
  - pose proof (Permutation_map lineNumber
                  (HeatmapSpec.calculateHeatmap_unsorted blameResult config lo hi Et)) as Hp.
    rewrite map_map in Hp. cbn [lineNumber] in Hp.
    destruct Ha as [(kv & Hin & Hd & _) _].
    split.
    + intros Hn. split; [now exists kv|].
      exact (Permutation_in _ Hp Hn).
    + intros [_ Hn]. exact (Permutation_in _ (Permutation_sym Hp) Hn).
  - unfold calculateHeatmap. rewrite Et. cbn [List.map In].
    split; [contradiction|]. intros [(kv & Hin & Hu & t & Ht & Hpos) _].
    exact (Hb kv t Hin Hu Ht Hpos).
Qed.

(** X26. The navigation list of the heatmap mode, strictly ascending: the
    committed lines, provided one of them carries a positive time, and
    the uncommitted lines handed over when [enableUncommittedHighlight]
    is set.  Where no committed line carries a positive time no
    committed line can be reached. *)
Theorem applyHeatmapHighlighting_lines (enableUncommittedHighlight : bool)
  (colorSaturation colorLightness colorOpacity : Q)
  (blameResult : BlameParseResult) (uncommittedLines : list Z) :
  let highlighted :=
    applyHeatmapHighlighting enableUncommittedHighlight
      colorSaturation colorLightness colorOpacity blameResult uncommittedLines in
  StronglySorted Z.lt highlighted /\
  (forall n,
     In n highlighted <->
     ((exists kv, In kv (lines blameResult) /\ dated (snd kv)) /\
      In n (linesWhere (fun info => negb (isUncommitted info)) blameResult)) \/
     (enableUncommittedHighlight = true /\ In n uncommittedLines)).
Proof.
  cbv zeta. unfold applyHeatmapHighlighting.
  split; [apply navigation_list|].
  intros n. rewrite (proj2 (navigation_list _) n).
  rewrite (forEach_concat groupLines). cbn [app].
  destruct enableUncommittedHighlight.
  - rewrite in_app_iff, grouped_lines, calculateHeatmap_lineNumbers.
    intuition congruence.
  - rewrite grouped_lines, calculateHeatmap_lineNumbers. intuition congruence.
Qed.

Lemma filter_either {A : Type} (p q : A -> bool) (l : list A) :
  (forall x, In x l -> p x && q x = false) ->
  Permutation (List.filter p l ++ List.filter q l)
    (List.filter (fun x => p x || q x) l).
Proof.
  induction l as [|x l IH]; intros Hd; cbn [filter]; [constructor|].
  assert (Hx := Hd x (or_introl eq_refl)).
  assert (IH' := IH (fun y Hy => Hd y (or_intror Hy))).
  destruct (p x), (q x); cbn [orb app]; try discriminate.
  - now constructor.
  - apply Permutation_sym, Permutation_cons_app, Permutation_sym. exact IH'.
  - exact IH'.
Qed.

(** X27. The navigation list of the review mode is, in ascending order, the
    lines that are uncommitted or belong to a commit under review, each
    as often as the map holds it; the uncommitted lines are in it
    whether or not [enableUncommittedHighlight] is set. *)
Theorem applyReviewHighlighting_lines (blameResult : BlameParseResult)
  (reviewCommits : JsSet.t string) :
  let highlighted := applyReviewHighlighting blameResult reviewCommits in
  Sorted Z.le highlighted /\
  Permutation highlighted
    (linesWhere
       (fun info => isUncommitted info || JsSet.has (commitSha info) reviewCommits)
       blameResult).
Proof.
  cbv zeta. unfold applyReviewHighlighting.
  split; [apply sortAscending_sorted|].
  eapply perm_trans; [apply sortAscending_perm|].
  rewrite (forEach_push
             (fun info (_ : Z) =>
                negb (isUncommitted info) && JsSet.has (commitSha info) reviewCommits)
             (fun _ n => n)).
  rewrite (forEach_push (fun info (_ : Z) => isUncommitted info) (fun _ n => n)).
  cbn [app]. unfold linesWhere. rewrite <- map_app.
  change (fun kv : Z * BlameLineInfo => fst kv) with (@fst Z BlameLineInfo).
  apply Permutation_map.
  eapply perm_trans; [apply filter_either|].
  - intros [n info] _. cbn [fst snd].
    destruct (isUncommitted info), (JsSet.has (commitSha info) reviewCommits); reflexivity.
  - apply Permutation_refl'. apply filter_ext.
    intros [n info]. cbn [fst snd].
    destruct (isUncommitted info), (JsSet.has (commitSha info) reviewCommits); reflexivity.
Qed.


Lemma goToNextHighlight_spec (first : Z) (others : list Z) (activeLine : Z) :
  StronglySorted Z.le (first :: others) ->
  exists target,
    goToNextHighlight (first :: others) activeLine = Some target /\
    In target (first :: others) /\
    ((activeLine + 1 < target /\
      forall x, In x (first :: others) -> activeLine + 1 < x -> target <= x) \/
     ((forall x, In x (first :: others) -> x <= activeLine + 1) /\ target = first)).
Proof.
  intros Hsorted. unfold goToNextHighlight.
  destruct (JsArray.find (fun line => activeLine + 1 <? line) (first :: others))
    as [target|] eqn:Ef.
  - exists target. split; [reflexivity|].
    destruct (DecoratorSpec.find_first_above _ _ _ Hsorted Ef) as (Hin & Hlt & Hmin).
    split; [assumption|]. left. now split.
  - exists first. split; [reflexivity|]. split; [now left|]. right.
    split; [|reflexivity]. now apply DecoratorSpec.find_none_above.
Qed.

Lemma goToPreviousHighlight_spec (first : Z) (others : list Z) (activeLine : Z) :
  StronglySorted Z.le (first :: others) ->
  exists target,
    goToPreviousHighlight (first :: others) activeLine = Some target /\
    In target (first :: others) /\
    ((target < activeLine + 1 /\
      forall x, In x (first :: others) -> x < activeLine + 1 -> x <= target) \/
     ((forall x, In x (first :: others) -> activeLine + 1 <= x) /\
      target = List.last others first)).
Proof.
  intros Hsorted. unfold goToPreviousHighlight.
  destruct (List.filter (fun line => line <? activeLine + 1) (first :: others))
    as [|p ps] eqn:Ef.
  - exists (List.last others first).
    split; [cbn [JsArray.lastElement List.map List.last];
            apply DecoratorSpec.lastElement_cons|].
    destruct (DecoratorSpec.sorted_last_max others first Hsorted) as [Hin Hmax].
    split; [assumption|]. right. split; [|reflexivity].
    intros x Hx. destruct (x <? activeLine + 1) eqn:E.
    + assert (Hf : In x (List.filter (fun line => line <? activeLine + 1)
                           (first :: others))).
      { apply filter_In. now split. }
      rewrite Ef in Hf. contradiction.
    + now apply Z.ltb_ge in E.
  - exists (List.last ps p). rewrite DecoratorSpec.lastElement_cons.
    split; [reflexivity|].
    assert (Hfs : StronglySorted Z.le (p :: ps)).
    { rewrite <- Ef. now apply DecoratorSpec.StronglySorted_filter. }
    destruct (DecoratorSpec.sorted_last_max ps p Hfs) as [Hin Hmax].
    rewrite <- Ef in Hin, Hmax. apply filter_In in Hin.
    destruct Hin as [Hin Hlt]. apply Z.ltb_lt in Hlt.
    split; [assumption|]. left. split; [assumption|].
    intros x Hx Hc. apply Hmax. apply filter_In. split; [assumption|].
    now apply Z.ltb_lt.
Qed.

(** X28. With the cursor on a highlighted line of an ascending list, going
    to the next highlight and then to the previous one comes back to
    that line, and so does previous then next, also across the wrap
    around at the ends of the list.  [revealLine] leaves the cursor on
    the target, the line [target - 1] counted from 0. *)
Theorem navigation_round_trip (highlightedLines : list Z) (line : Z) :
  Sorted Z.le highlightedLines ->
  In line highlightedLines ->
  (exists target,
     goToNextHighlight highlightedLines (line - 1) = Some target /\
     goToPreviousHighlight highlightedLines (target - 1) = Some line) /\
  (exists target,
     goToPreviousHighlight highlightedLines (line - 1) = Some target /\
     goToNextHighlight highlightedLines (target - 1) = Some line).
Proof.
  intros Hsorted Hin.
  apply Sorted_StronglySorted in Hsorted; [|intros x y z; apply Z.le_trans].
  destruct highlightedLines as [|first others]; [contradiction|].
  assert (Hfirst : forall x, In x (first :: others) -> first <= x).
  { inversion Hsorted as [|? ? _ Hall]; subst. rewrite Forall_forall in Hall.
    intros x [<- | Hx]; [lia|now apply Hall]. }
  destruct (DecoratorSpec.sorted_last_max others first Hsorted) as [Hlast_in Hlast].
  split.
  - destruct (goToNextHighlight_spec first others (line - 1) Hsorted)
      as (t & Hn & Ht & Hcase).
    exists t. split; [exact Hn|].
    destruct (goToPreviousHighlight_spec first others (t - 1) Hsorted)
      as (p & Hp & Hpin & Hpcase).
    rewrite Hp. f_equal.
    destruct Hcase as [[Hlt Hmin] | [Hall ->]];
      destruct Hpcase as [[Hplt Hpmax] | [Hpall ->]].
    + specialize (Hpmax line Hin). specialize (Hmin p Hpin). lia.
    + specialize (Hpall line Hin). lia.
    + specialize (Hfirst p Hpin). lia.
    + specialize (Hall _ Hlast_in). specialize (Hlast line Hin). lia.
  - destruct (goToPreviousHighlight_spec first others (line - 1) Hsorted)
      as (t & Hp & Ht & Hcase).
    exists t. split; [exact Hp|].
    destruct (goToNextHighlight_spec first others (t - 1) Hsorted)
      as (q & Hn & Hqin & Hqcase).
    rewrite Hn. f_equal.
    destruct Hcase as [[Hlt Hmax] | [Hall ->]];
      destruct Hqcase as [[Hqlt Hqmin] | [Hqall ->]].
    + specialize (Hqmin line Hin). specialize (Hmax q Hqin). lia.
    + specialize (Hqall line Hin). lia.
    + specialize (Hlast q Hqin). lia.
    + specialize (Hall first (or_introl eq_refl)). specialize (Hfirst line Hin). lia.
Qed.

Lemma navigation_round_trip_witness :
  (exists target,
     goToNextHighlight [3; 7; 12] (12 - 1) = Some target /\
     goToPreviousHighlight [3; 7; 12] (target - 1) = Some 12) /\
  (exists target,
     goToPreviousHighlight [3; 7; 12] (12 - 1) = Some target /\
     goToNextHighlight [3; 7; 12] (target - 1) = Some 12).
Proof.
  apply (navigation_round_trip [3; 7; 12] 12).
  - repeat constructor; discriminate.
  - right. right. left. reflexivity.
Defined.

Lemma compareStrings_total (a b : string) :
  0 < compareStrings a b -> compareStrings b a <= 0.
Proof.
  unfold compareStrings. rewrite (String.compare_antisym a b).
  destruct (String.compare b a); cbn [CompOpp]; lia.
Qed.

Lemma authors_scan (m : JsMap.t Z BlameLineInfo) (authors : list string) :
  NoDup authors ->
  let result :=
    JsMap.forEach
      (fun (authors : JsSet.t string) info (_ : Z) =>
         if negb (isUncommitted info) then JsSet.add (author info) authors else authors)
      m authors in
  NoDup result /\
  forall a, In a result <->
            In a authors \/
            exists kv, In kv m /\ isUncommitted (snd kv) = false /\ author (snd kv) = a.
Proof.
  cbv zeta. unfold JsMap.forEach. revert authors.
  induction m as [|[n info] m IH]; intros authors Hn; cbn [fold_left fst snd].
  - split; [assumption|]. intros a. split; [tauto|].
    intros [H | (kv & [] & _)]. exact H.
  - destruct (isUncommitted info) eqn:Eu; cbn [negb].
    + destruct (IH authors Hn) as [IH1 IH2]. split; [assumption|].
      intros a. rewrite IH2. split.
      * intros [H | (kv & Hin & Hu & Ha)]; [now left|].
        right. exists kv. split; [now right|]. now split.
      * intros [H | (kv & [<- | Hin] & Hu & Ha)]; [now left| |].
        -- cbn [snd] in Hu. congruence.
        -- right. exists kv. now repeat split.
    + destruct (IH (JsSet.add (author info) authors) (set_add_NoDup _ _ Hn)) as [IH1 IH2].
      split; [assumption|].
      intros a. rewrite IH2, set_add_In. split.
      * intros [[-> | H] | (kv & Hin & Hu & Ha)].
        -- right. exists (n, info). split; [now left|]. now split.
        -- now left.
        -- right. exists kv. split; [now right|]. now split.
      * intros [H | (kv & [<- | Hin] & Hu & Ha)].
        -- left. now right.
        -- cbn [snd] in Ha. left. left. now symmetry.
        -- right. exists kv. now repeat split.
Qed.

(** X29. [getAuthors] lists, without repetition and in the order of their
    code units, exactly the authors that some committed line of the
    blame result has. *)
Theorem getAuthors_exact (blameResult : BlameParseResult) :
  Sorted (fun a b => String.compare a b <> Gt) (getAuthors blameResult) /\
  NoDup (getAuthors blameResult) /\
  forall a,
    In a (getAuthors blameResult) <->
    exists kv, In kv (lines blameResult) /\
               isUncommitted (snd kv) = false /\ author (snd kv) = a.
Proof.
  unfold getAuthors, JsSet.empty. cbv zeta.
  destruct (authors_scan (lines blameResult) [] (NoDup_nil _)) as [Hn Hin].
  cbv zeta in Hn, Hin.
  match goal with
  | |- context [JsArray.sort compareStrings ?a] => set (authors := a) in *
  end.
  split; [|split].
  - pose proof (sort_by_sorted compareStrings compareStrings_total authors) as Hs.
    eapply Sorted_ind with (P := fun l => Sorted (fun a b => String.compare a b <> Gt) l);
      [constructor| |exact Hs].
    intros a l _ IH Hhd. constructor; [assumption|].
    destruct Hhd as [|b l' Hab]; constructor.
    unfold compareStrings in Hab. destruct (String.compare a b); [discriminate|discriminate|lia].
  - exact (Permutation_NoDup (Permutation_sym (sort_by_perm compareStrings authors)) Hn).
  - intros a. split; intros H.
    + apply (Permutation_in _ (sort_by_perm compareStrings authors)) in H.
      apply Hin in H. destruct H as [[] | H]. exact H.
    + apply (Permutation_in _ (Permutation_sym (sort_by_perm compareStrings authors))).
      apply Hin. now right.
Qed.


Lemma find_snoc {A : Type} (p : A -> bool) (l : list A) (x : A) :
  List.find p (l ++ [x])
  = match List.find p l with
    | Some y => Some y
    | None => if p x then Some x else None
    end.
Proof.
  induction l as [|a l IH]; cbn [app List.find]; [reflexivity|].
  now destruct (p a).
Qed.

Lemma commits_scan (m : JsMap.t Z BlameLineInfo) :
  let commits :=
    JsMap.forEach
      (fun (commits : JsMap.t string Commit.t) info (_ : Z) =>
         if negb (isUncommitted info) && negb (JsMap.has (commitSha info) commits)
         then JsMap.set (commitSha info)
                {| Commit.sha := commitSha info;
                   Commit.summary := summary info;
                   Commit.author := author info |}
                commits
         else commits)
      m JsMap.empty in
  NoDup (JsMap.keys commits) /\
  (forall k c, In (k, c) commits -> Commit.sha c = k) /\
  forall sha,
    JsMap.get sha commits
    = match List.find
              (fun kv => negb (isUncommitted (snd kv)) && strictEq (commitSha (snd kv)) sha)
              m with
      | Some kv =>
          Some {| Commit.sha := commitSha (snd kv);
                  Commit.summary := summary (snd kv);
                  Commit.author := author (snd kv) |}
      | None => None
      end.
Proof.
  cbv zeta. unfold JsMap.forEach.
  induction m as [|[n info] m IH] using rev_ind.
  - split; [constructor|]. split; [intros k c []|reflexivity].
  - rewrite fold_left_app. cbn [fold_left fst snd].
    set (commits := fold_left _ m JsMap.empty) in *.
    destruct IH as (IHn & IHk & IHg).
    destruct (negb (isUncommitted info) && negb (JsMap.has (commitSha info) commits))
      eqn:E.
    + apply andb_true_iff in E. destruct E as [Eu Eh].
      apply negb_true_iff in Eh.
      split; [now apply NoDup_keys_set|]. split.
      * intros k c Hin. apply In_set in Hin. destruct Hin as [Heq | Hin];
          [injection Heq as -> ->; reflexivity|now apply IHk].
      * intros sha. rewrite find_snoc. cbn [snd]. rewrite Eu. cbn [andb].
        destruct (strictEq (commitSha info) sha) eqn:Es; unfold strictEq in Es.
        -- apply String.eqb_eq in Es. subst sha. rewrite get_set_same.
           unfold JsMap.has in Eh. rewrite IHg in Eh.
           destruct (List.find _ m); [discriminate|reflexivity].
        -- apply String.eqb_neq in Es. rewrite get_set_other by assumption.
           rewrite IHg. now destruct (List.find _ m).
    + split; [assumption|]. split; [assumption|].
      intros sha. rewrite find_snoc, IHg. cbn [snd].
      destruct (List.find _ m) as [kv|] eqn:Ef; [reflexivity|].
      destruct (negb (isUncommitted info)); [|reflexivity]. cbn [andb] in E |- *.
      apply negb_false_iff in E.
      destruct (strictEq (commitSha info) sha) eqn:Es; [|reflexivity].
      unfold strictEq in Es. apply String.eqb_eq in Es. subst sha.
      unfold JsMap.has in E. rewrite IHg, Ef in E. discriminate.
Qed.

(** X30. [getCommits] returns one entry per commit id of a committed line,
    and the entry of a commit id carries the summary and the author of
    the first line of the map that has this id. *)
Theorem getCommits_first_line_wins (blameResult : BlameParseResult) :
  NoDup (List.map Commit.sha (getCommits blameResult)) /\
  forall c,
    In c (getCommits blameResult) <->
    exists kv,
      List.find
        (fun kv => negb (isUncommitted (snd kv)) &&
                   strictEq (commitSha (snd kv)) (Commit.sha c))
        (lines blameResult) = Some kv /\
      c = {| Commit.sha := commitSha (snd kv);
             Commit.summary := summary (snd kv);
             Commit.author := author (snd kv) |}.
Proof.
  unfold getCommits. cbv zeta.
  destruct (commits_scan (lines blameResult)) as (Hn & Hk & Hg). cbv zeta in Hn, Hk, Hg.
  set (commits := JsMap.forEach _ (lines blameResult) JsMap.empty) in *.
  assert (Hkeys : List.map Commit.sha (JsMap.values commits) = JsMap.keys commits).
  { unfold JsMap.values, JsMap.keys. rewrite map_map. apply map_ext_in.
    intros [k c] Hin. cbn [fst snd]. now apply Hk. }
  split; [now rewrite Hkeys|].
  intros c. unfold JsMap.values. rewrite in_map_iff. split.
  - intros ([k c'] & <- & Hin). cbn [snd].
    pose proof (Hk k c' Hin) as Hsha.
    apply (In_get k c' commits Hn) in Hin. rewrite Hg in Hin.
    rewrite Hsha.
    destruct (List.find _ (lines blameResult)) as [kv|]; [|discriminate].
    injection Hin as <-. exists kv. split; reflexivity.
  - intros (kv & Hf & ->). cbn [Commit.sha] in Hf.
    pose proof (Hg (commitSha (snd kv))) as Hget. rewrite Hf in Hget.
    apply get_In in Hget. eexists. split; [|exact Hget]. reflexivity.
Qed.


End HighlightingSpec.
